(** * indeed_scraper: a shallow embedding of [indeed_scraper.py]

    The development follows the Python module function by function:
    [get_user_input], [normalize_job_url], [fetch_job_listings],
    [fetch_job_details] and [save_jobs_to_json].  The definitions come
    first; the properties of each function follow.

    Conventions.
    - A Python [str] is a Rocq [string] holding its UTF-8 bytes.  Every
      pattern the program searches for is ASCII, and UTF-8 is
      self-synchronising, so searching and replacing on the bytes agrees
      with searching and replacing on the code points.
    - A value decoded from JSON is a [json] term; a Python [dict] is the
      list of its items in insertion order, with distinct keys.
    - An exception is an explicit [Raise] in the [result] type.
    - [urllib.parse] is modelled after CPython 3.11.  Percent-decoding and
      the two deep validations of a network location are the fields of the
      class [Urllib]; the statements hold for every instance, and
      [plain_urllib] is the instance used to evaluate on concrete URLs.
    - The network is a script: the list of responses the program receives,
      in the order in which it issues its requests.  The clock and the file
      system are arguments of the function that reads them.  Printing and
      sleeping leave no trace in the model. *)

From Stdlib Require Import String Ascii List ZArith Lia Bool Arith.
From Stdlib Require Import DecimalString DecimalNat Sorted.
Import ListNotations.
Open Scope string_scope.
Open Scope list_scope.

(** ** Python [str] methods used by the program *)

Definition char_tab : ascii := "009"%char.
Definition char_lf : ascii := "010"%char.
Definition char_cr : ascii := "013"%char.

(** [sub in s] *)
Fixpoint str_contains (sub s : string) : bool :=
  match s with
  | EmptyString => prefix sub EmptyString
  | String _ t => prefix sub s || str_contains sub t
  end.

(** [c in s] for a single character *)
Fixpoint char_in (c : ascii) (s : string) : bool :=
  match s with
  | EmptyString => false
  | String a t => Ascii.eqb a c || char_in c t
  end.

(** [s.split(c, 1)] when [c in s]: the text before and after the first [c];
    [None] when [c] does not occur (Python then returns the one-element
    list [[s]]). *)
Fixpoint str_partition (c : ascii) (s : string) : option (string * string) :=
  match s with
  | EmptyString => None
  | String a t =>
      if Ascii.eqb a c then Some (EmptyString, t)
      else match str_partition c t with
           | Some (l, r) => Some (String a l, r)
           | None => None
           end
  end.

(** [s.split(c)]: always at least one piece. *)
Fixpoint str_split (c : ascii) (s : string) : list string :=
  match s with
  | EmptyString => [EmptyString]
  | String a t =>
      if Ascii.eqb a c then EmptyString :: str_split c t
      else match str_split c t with
           | h :: r => String a h :: r
           | [] => [String a EmptyString]
           end
  end.

(** [s[n:]] *)
Fixpoint str_drop (n : nat) (s : string) : string :=
  match n, s with
  | O, _ => s
  | S k, String _ t => str_drop k t
  | S _, EmptyString => EmptyString
  end.

(** The count argument of [str.replace]: [None] is "all occurrences". *)
Definition count_spent (count : option nat) : bool :=
  match count with Some O => true | _ => false end.

Definition count_pred (count : option nat) : option nat :=
  match count with Some n => Some (pred n) | None => None end.

(** [s.replace("", new, count)]: [new] goes before every character and at
    the end, as long as the count lasts. *)
Fixpoint replace_empty (new : string) (count : option nat) (s : string) : string :=
  if count_spent count then s
  else new ++ match s with
              | EmptyString => EmptyString
              | String c t => String c (replace_empty new (count_pred count) t)
              end.

(** [s.replace(old, new, count)] for a non-empty [old]: occurrences are
    found left to right and do not overlap.  [skip] is the number of
    characters of a matched occurrence still to be passed over. *)
Fixpoint replace_from (old new : string) (skip : nat) (count : option nat)
    (s : string) : string :=
  match s with
  | EmptyString => EmptyString
  | String c t =>
      match skip with
      | S k => replace_from old new k count t
      | O =>
          if negb (count_spent count) && prefix old s
          then new ++ replace_from old new (pred (String.length old)) (count_pred count) t
          else String c (replace_from old new O count t)
      end
  end.

Definition str_replace (old new : string) (count : option nat) (s : string) : string :=
  match old with
  | EmptyString => replace_empty new count s
  | String _ _ => replace_from old new O count s
  end.

(** [s.lstrip(chars)], the set [chars] given by its membership test. *)
Fixpoint str_lstrip (p : ascii -> bool) (s : string) : string :=
  match s with
  | EmptyString => EmptyString
  | String a t => if p a then str_lstrip p t else s
  end.

Definition byte_of (a : ascii) : nat := nat_of_ascii a.

(** ASCII members of [str.isspace]: U+0009..U+000D, U+001C..U+0020. *)
Definition is_space1 (a : ascii) : bool :=
  let n := byte_of a in
  (((9 <=? n) && (n <=? 13)) || ((28 <=? n) && (n <=? 32)))%nat.

(** Two-byte members: U+0085 (C2 85) and U+00A0 (C2 A0). *)
Definition is_space2 (a b : ascii) : bool :=
  ((byte_of a =? 194) && ((byte_of b =? 133) || (byte_of b =? 160)))%nat.

(** Three-byte members: U+1680, U+2000..U+200A, U+2028, U+2029, U+202F,
    U+205F and U+3000. *)
Definition is_space3 (a b c : ascii) : bool :=
  let x := byte_of a in
  let y := byte_of b in
  let z := byte_of c in
  (((x =? 225) && (y =? 154) && (z =? 128))
   || ((x =? 226) && (y =? 128)
       && (((128 <=? z) && (z <=? 138)) || (z =? 168) || (z =? 169) || (z =? 175)))
   || ((x =? 226) && (y =? 129) && (z =? 159))
   || ((x =? 227) && (y =? 128) && (z =? 128)))%nat.

(** [s.lstrip()] *)
Fixpoint lstrip_ws (s : string) : string :=
  match s with
  | EmptyString => EmptyString
  | String a t =>
      if is_space1 a then lstrip_ws t
      else match t with
           | String b t2 =>
               if is_space2 a b then lstrip_ws t2
               else match t2 with
                    | String c t3 => if is_space3 a b c then lstrip_ws t3 else s
                    | EmptyString => s
                    end
           | EmptyString => s
           end
  end.

(** [s.rstrip()]: the longest suffix made of whitespace goes. *)
Fixpoint rstrip_ws (s : string) : string :=
  match s with
  | EmptyString => EmptyString
  | String a t =>
      if String.eqb (lstrip_ws s) EmptyString then EmptyString
      else String a (rstrip_ws t)
  end.

(** [s.strip()] *)
Definition str_strip (s : string) : string := rstrip_ws (lstrip_ws s).

(** [str(n)] for a non-negative [int]. *)
Definition str_of_nat (n : nat) : string := NilZero.string_of_uint (Nat.to_uint n).

(** Truth value of a [str]. *)
Definition str_truthy (s : string) : bool := negb (String.eqb s EmptyString).

(** ** Exceptions *)

Inductive exn : Type :=
| ValueError (msg : string)
| TypeError
| AttributeError
| KeyError
| JSONDecodeError
| OSError
| OverflowError.

Inductive result (A : Type) : Type :=
| Ok (a : A)
| Raise (e : exn).

Arguments Ok {A} a.
Arguments Raise {A} e.

Definition bind {A B : Type} (r : result A) (k : A -> result B) : result B :=
  match r with
  | Ok a => k a
  | Raise e => Raise e
  end.

Notation "x <- r ;; k" := (bind r (fun x => k))
  (at level 61, r at next level, right associativity).

(** ** Values decoded from JSON *)

(** What [resp.json()] can return.  A JSON number is kept as a Python [int];
    the program only tests numbers for truth and for membership in a set. *)
#[local] Set Warnings "-register-all".
Inductive json : Type :=
| JNull
| JBool (b : bool)
| JNum (n : Z)
| JStr (s : string)
| JArr (items : list json)
| JObj (items : list (string * json)).
#[local] Set Warnings "register-all".

(** [bool(v)] *)
Definition truthy (v : json) : bool :=
  match v with
  | JNull => false
  | JBool b => b
  | JNum n => negb (Z.eqb n 0)
  | JStr s => str_truthy s
  | JArr items => match items with [] => false | _ :: _ => true end
  | JObj items => match items with [] => false | _ :: _ => true end
  end.

(** [a or b] *)
Definition py_or (a b : json) : json := if truthy a then a else b.

(** The item of a dict stored under a key. *)
Fixpoint dict_get {V : Type} (k : string) (d : list (string * V)) : option V :=
  match d with
  | [] => None
  | (k', v) :: r => if String.eqb k' k then Some v else dict_get k r
  end.

(** [a == b] when one side is a [str], a [bool] or an [int]: a [str] equals
    the same [str] only, [True] equals [1] and [False] equals [0], and a
    list, a dict or [None] equals none of these. *)
Definition py_eqb (a b : json) : bool :=
  match a, b with
  | JStr s, JStr t => String.eqb s t
  | JNum n, JNum m => Z.eqb n m
  | JBool x, JBool y => Bool.eqb x y
  | JBool x, JNum m => Z.eqb (if x then 1 else 0) m
  | JNum n, JBool y => Z.eqb n (if y then 1 else 0)
  | _, _ => false
  end.

(** Whether [hash(v)] succeeds. *)
Definition hashable (v : json) : bool :=
  match v with
  | JArr _ | JObj _ => false
  | _ => true
  end.

(** [v in seen] for a set of hashable values. *)
Definition set_mem (v : json) (seen : list json) : bool := existsb (py_eqb v) seen.

(** [d.get(k, default)]: only a dict has the method. *)
Definition py_get (d : json) (k : string) (default : json) : result json :=
  match d with
  | JObj items => Ok (match dict_get k items with Some v => v | None => default end)
  | _ => Raise AttributeError
  end.

(** [k in d] for a [str] [k]: key of a dict, element of a list, substring of
    a [str]; no other value is a container. *)
Definition py_in (k : string) (d : json) : result bool :=
  match d with
  | JObj items => Ok (match dict_get k items with Some _ => true | None => false end)
  | JArr items => Ok (existsb (py_eqb (JStr k)) items)
  | JStr s => Ok (str_contains k s)
  | _ => Raise TypeError
  end.

(** [d[k]] for a [str] [k], evaluated after [k in d] held. *)
Definition py_getitem (d : json) (k : string) : result json :=
  match d with
  | JObj items => match dict_get k items with
                  | Some v => Ok v
                  | None => Raise KeyError
                  end
  | _ => Raise TypeError
  end.

(** ** [urllib.parse] *)

(** The parts of the library taken as given: percent-decoding of one
    component, with the two properties of it the proofs rely on, and the two
    validations of a network location that need address syntax and Unicode
    tables.  Both validations answer [true] when the library accepts. *)
Class Urllib : Type := {
  unquote : string -> string;
  unquote_plain : forall s, char_in "%" s = false -> unquote s = s;
  unquote_nonempty : forall s, s <> EmptyString -> unquote s <> EmptyString;
  check_bracketed_netloc : string -> bool;
  checknetloc_nfkc : string -> bool
}.

Definition is_c0_control_or_space (a : ascii) : bool := (byte_of a <=? 32)%nat.

Definition is_upper (a : ascii) : bool := ((65 <=? byte_of a) && (byte_of a <=? 90))%nat.
Definition is_lower (a : ascii) : bool := ((97 <=? byte_of a) && (byte_of a <=? 122))%nat.
Definition is_digit (a : ascii) : bool := ((48 <=? byte_of a) && (byte_of a <=? 57))%nat.
Definition is_alpha (a : ascii) : bool := is_upper a || is_lower a.

(** [scheme_chars] *)
Definition is_scheme_char (a : ascii) : bool :=
  is_alpha a || is_digit a || Ascii.eqb a "+" || Ascii.eqb a "-" || Ascii.eqb a ".".

Fixpoint str_forall (p : ascii -> bool) (s : string) : bool :=
  match s with
  | EmptyString => true
  | String a t => p a && str_forall p t
  end.

Fixpoint str_map (f : ascii -> ascii) (s : string) : string :=
  match s with
  | EmptyString => EmptyString
  | String a t => String (f a) (str_map f t)
  end.

Definition ascii_lower (a : ascii) : ascii :=
  if is_upper a then ascii_of_nat (byte_of a + 32) else a.

(** [s.isascii()] *)
Definition str_isascii (s : string) : bool :=
  str_forall (fun a => (byte_of a <? 128)%nat) s.

Record SplitResult : Type := {
  scheme : string;
  netloc : string;
  path : string;
  query : string;
  fragment : string
}.

(** The scheme test of [urlsplit]: the text before the first colon, when it
    starts with an ASCII letter and consists of [scheme_chars]. *)
Definition split_scheme (url : string) : string * string :=
  match str_partition ":" url with
  | Some (String c0 pre, post) =>
      if is_alpha c0 && str_forall is_scheme_char (String c0 pre)
      then (str_map ascii_lower (String c0 pre), post)
      else (EmptyString, url)
  | _ => (EmptyString, url)
  end.

(** [_splitnetloc(url, 2)] on the text after the two slashes. *)
Fixpoint splitnetloc (s : string) : string * string :=
  match s with
  | EmptyString => (EmptyString, EmptyString)
  | String a t =>
      if Ascii.eqb a "/" || Ascii.eqb a "?" || Ascii.eqb a "#" then (EmptyString, s)
      else let (n, r) := splitnetloc t in (String a n, r)
  end.

Definition split_first (c : ascii) (s : string) : string * string :=
  match str_partition c s with
  | Some (l, r) => (l, r)
  | None => (s, EmptyString)
  end.

Definition strip_unsafe (url : string) : string :=
  str_replace (String char_lf "") "" None
    (str_replace (String char_cr "") "" None
       (str_replace (String char_tab "") "" None url)).

Section UrlParse.
Context {U : Urllib}.

(** [if url[:2] == '//'] and the checks of the network location. *)
Definition take_netloc (url : string) : result (string * string) :=
  if prefix "//" url
  then let (nl, url') := splitnetloc (str_drop 2 url) in
       if (char_in "[" nl && negb (char_in "]" nl))
          || (char_in "]" nl && negb (char_in "[" nl))
       then Raise (ValueError "Invalid IPv6 URL")
       else if char_in "[" nl && char_in "]" nl && negb (check_bracketed_netloc nl)
       then Raise (ValueError "Invalid IPv6 URL")
       else Ok (nl, url')
  else Ok (EmptyString, url).

(** [_checknetloc] *)
Definition checknetloc (nl : string) : bool :=
  if negb (str_truthy nl) || str_isascii nl then true else checknetloc_nfkc nl.

(** [urlsplit(url)] *)
Definition urlsplit (url : string) : result SplitResult :=
  let url := str_lstrip is_c0_control_or_space url in
  let url := strip_unsafe url in
  let (sch, url) := split_scheme url in
  p <- take_netloc url ;;
  let (nl, url) := p in
  let (url, frag) := split_first "#" url in
  let (url, q) := split_first "?" url in
  if checknetloc nl
  then Ok {| scheme := sch; netloc := nl; path := url; query := q; fragment := frag |}
  else Raise (ValueError "netloc contains invalid characters under NFKC normalization").

(** [urlparse(url)].  It differs from [urlsplit] in cutting [;params] off
    the path; the other components, the query among them, are those of
    [urlsplit]. *)
Definition urlparse (url : string) : result SplitResult := urlsplit url.

(** [parse_qsl(qs)] with its default arguments: blank values are dropped. *)
Definition parse_pair (name_value : string) : list (string * string) :=
  if negb (str_truthy name_value) then []
  else match str_partition "=" name_value with
       | None => []
       | Some (n, v) =>
           if str_truthy v
           then [(unquote (str_replace "+" " " None n),
                  unquote (str_replace "+" " " None v))]
           else []
       end.

Definition parse_qsl (qs : string) : list (string * string) :=
  flat_map parse_pair (if str_truthy qs then str_split "&" qs else []).

(** The loop of [parse_qs]: a value joins the list of its name. *)
Fixpoint dict_append (name value : string) (d : list (string * list string))
  : list (string * list string) :=
  match d with
  | [] => [(name, [value])]
  | (k, vs) :: r =>
      if String.eqb k name then (k, vs ++ [value]) :: r
      else (k, vs) :: dict_append name value r
  end.

Definition parse_qs (qs : string) : list (string * list string) :=
  fold_left (fun d nv => dict_append (fst nv) (snd nv) d) (parse_qsl qs) [].
End UrlParse.

(** [quote(s)] with the default [safe='/']. *)
Definition hex_digit (n : nat) : ascii :=
  if (n <? 10)%nat then ascii_of_nat (48 + n) else ascii_of_nat (55 + n).

Definition is_always_safe (a : ascii) : bool :=
  is_alpha a || is_digit a
  || Ascii.eqb a "_" || Ascii.eqb a "." || Ascii.eqb a "-" || Ascii.eqb a "~".

Fixpoint quote (s : string) : string :=
  match s with
  | EmptyString => EmptyString
  | String a t =>
      if is_always_safe a || Ascii.eqb a "/" then String a (quote t)
      else String "%" (String (hex_digit (byte_of a / 16))
                         (String (hex_digit (byte_of a mod 16)) (quote t)))
  end.

(** ** [get_user_input] *)

(** What the builtin [int] does on the [limit] argument: it returns an
    integer (on an [int], on a numeral such as ["5"]); or it raises
    [TypeError] (on a list) or [ValueError] (on ["abc"], on a NaN), the two
    exceptions the function catches; or it raises [OverflowError] (on a
    float infinity), which the function does not catch. *)
Inductive int_outcome : Type :=
| IntValue (n : Z)
| IntTypeError
| IntValueError
| IntOverflowError.

(** [job_title] and [location] are a [str] or [None]; [limit] is [None] or a
    value described by its [int_outcome]. *)
Definition get_user_input (job_title location : option string)
    (limit : option int_outcome) : result (string * string * option Z) :=
  let job_title := str_strip (match job_title with Some s => s | None => "" end) in
  let location := str_strip (match location with Some s => s | None => "" end) in
  if negb (str_truthy job_title)
  then Raise (ValueError "job_title is required and cannot be empty.")
  else if negb (str_truthy location)
  then Raise (ValueError "location is required and cannot be empty.")
  else match limit with
       | None => Ok (job_title, location, None)
       | Some (IntValue n) =>
           if (n <? 1)%Z then Raise (ValueError "limit must be >= 1 when provided.")
           else Ok (job_title, location, Some n)
       | Some IntOverflowError => Raise OverflowError
       | Some _ => Raise (ValueError "limit must be an integer (or None).")
       end.

(** ** [normalize_job_url] *)

(** [(vs or [None])[0]] for [vs = qs.get(k)] *)
Definition first_value (vs : option (list string)) : option string :=
  match vs with
  | Some (v :: _) => Some v
  | _ => None
  end.

(** Truth value of a [str] or [None]. *)
Definition opt_truthy (x : option string) : bool :=
  match x with
  | Some s => str_truthy s
  | None => false
  end.

(** Line 44: [(qs.get("jk") or [None])[0] or (qs.get("vjk") or [None])[0]] *)
Definition job_key (qs : list (string * list string)) : option string :=
  let jk := first_value (dict_get "jk" qs) in
  if opt_truthy jk then jk else first_value (dict_get "vjk" qs).

Definition canonical_url (jk : string) : string :=
  "https://www.indeed.com/viewjob?jk=" ++ jk.

(** Lines 44 to 48, on the parsed query [qs]: [None] stands for leaving the
    [try] block without a [return]. *)
Definition normalize_parsed (qs : list (string * list string)) (url : string)
  : option string :=
  let jk := job_key qs in
  if opt_truthy jk
  then Some (canonical_url (match jk with Some s => s | None => "" end))
  else if str_contains "/m/viewjob" url
  then Some (str_replace "/m/viewjob" "/viewjob" (Some 1) url)
  else None.

Definition normalize_job_url {U : Urllib} (url : string) : string :=
  match urlparse url with
  | Ok parsed =>
      match normalize_parsed (parse_qs parsed.(query)) url with
      | Some r => r
      | None => url
      end
  | Raise _ => url
  end.

(** ** The remote API *)

(** What one [requests.get] gives back. *)
Inductive response : Type :=
| Timeout                                    (* requests.exceptions.Timeout *)
| RequestFailed                              (* any other exception *)
| Reply (status_code : Z) (body : option json).
    (* [body = None]: the text is not JSON and [resp.json()] raises *)

Record request : Type := {
  req_url : string;
  req_api_key : string
}.

(** ** [fetch_job_listings] *)

Definition listing_url (job_title location domain : string) (start : nat) : string :=
  "https://api.hasdata.com/scrape/indeed/listing"
  ++ "?keyword=" ++ quote job_title ++ "&location=" ++ quote location
  ++ "&domain=" ++ domain ++ "&start=" ++ str_of_nat start.

(** [for j in jobs]: the elements of a list, the keys of a dict, the
    characters of a [str]. *)
Definition py_iter (v : json) : result (list json) :=
  match v with
  | JArr items => Ok items
  | JObj items => Ok (map (fun kv => JStr (fst kv)) items)
  | JStr s => Ok (map (fun c => JStr (String c "")) (list_ascii_of_string s))
  | _ => Raise TypeError
  end.

(** [len(jobs)] *)
Definition py_len (v : json) : result nat :=
  match v with
  | JArr items => Ok (List.length items)
  | JObj items => Ok (List.length items)
  | JStr s => Ok (String.length s)
  | _ => Raise TypeError
  end.

(** Lines 86 to 92: the scan of one page. *)
Fixpoint scan_jobs (jobs : list json) (seen new_urls : list json)
  : result (list json * list json) :=
  match jobs with
  | [] => Ok (seen, new_urls)
  | j :: rest =>
      u <- py_get j "url" JNull ;;
      if negb (truthy u) then scan_jobs rest seen new_urls
      else if negb (hashable u) then Raise TypeError
      else if set_mem u seen then scan_jobs rest seen new_urls
      else scan_jobs rest (u :: seen) (new_urls ++ [u])
  end.

(** [l[:k]] *)
Definition slice_to {A : Type} (k : Z) (l : list A) : list A :=
  if (k <? 0)%Z then firstn (Z.to_nat (Z.of_nat (List.length l) + k)) l
  else firstn (Z.to_nat k) l.

(** [limit is not None and len(collected) >= limit] *)
Definition limit_reached (limit : option Z) (collected : list json) : bool :=
  match limit with
  | None => false
  | Some n => (n <=? Z.of_nat (List.length collected))%Z
  end.

Record loop_state : Type := {
  collected : list json;
  seen : list json;
  start : nat;
  page_idx : nat
}.

Inductive step : Type :=
| Continue (st : loop_state)
| Break (urls : list json)
| Throw (e : exn).

(** One turn of the [while True] loop, from the response on. *)
Definition loop_body (limit : option Z) (st : loop_state) (resp : response) : step :=
  match resp with
  | Timeout => Break st.(collected)
  | RequestFailed => Break st.(collected)
  | Reply status_code body =>
      if negb (status_code =? 200)%Z then Break st.(collected)
      else match body with
           | None => Throw JSONDecodeError
           | Some v =>
               let data := py_or v (JObj []) in
               match py_get data "jobs" (JArr []) with
               | Raise e => Throw e
               | Ok got =>
                   let jobs := py_or got (JArr []) in
                   if negb (truthy jobs) then Break st.(collected)
                   else match (items <- py_iter jobs ;; scan_jobs items st.(seen) []) with
                        | Raise e => Throw e
                        | Ok (seen', new_urls) =>
                            let collected' := st.(collected) ++ new_urls in
                            if limit_reached limit collected'
                            then Break (match limit with
                                        | Some n => slice_to n collected'
                                        | None => collected'
                                        end)
                            else match py_len jobs with
                                 | Raise e => Throw e
                                 | Ok n => Continue {| collected := collected';
                                                       seen := seen';
                                                       start := st.(start) + n;
                                                       page_idx := S st.(page_idx) |}
                                 end
                        end
               end
           end
  end.

(** How a call ends: it returns the list, an exception leaves it, or the
    script is used up while the loop waits for the answer to its last
    request. *)
Inductive outcome : Type :=
| Returned (urls : list json)
| Raised (e : exn)
| Waiting (st : loop_state).

Section Listing.
Variables (api_key job_title location : string) (limit : option Z) (domain : string).

Definition listing_request (st : loop_state) : request :=
  {| req_url := listing_url job_title location domain st.(start);
     req_api_key := api_key |}.

(** The loop against a script of responses: the outcome and the requests
    issued, in order. *)
Fixpoint listing_loop (st : loop_state) (script : list response)
  : outcome * list request :=
  match script with
  | [] => (Waiting st, [listing_request st])
  | resp :: rest =>
      match loop_body limit st resp with
      | Continue st' =>
          let (o, reqs) := listing_loop st' rest in (o, listing_request st :: reqs)
      | Break urls => (Returned urls, [listing_request st])
      | Throw e => (Raised e, [listing_request st])
      end
  end.

Definition initial_state : loop_state :=
  {| collected := []; seen := []; start := 0; page_idx := 1 |}.

Definition fetch_job_listings (script : list response) : outcome * list request :=
  listing_loop initial_state script.
End Listing.

(** ** [fetch_job_details] *)

(** The nested function [pick(d, *keys, default="")]. *)
Fixpoint pick (d : json) (keys : list string) : result json :=
  match keys with
  | [] => Ok (JStr "")
  | k :: rest =>
      present <- py_in k d ;;
      if present
      then v <- py_getitem d k ;;
           if truthy v then Ok v else pick d rest
      else pick d rest
  end.

(** [a or b] on two calls of [pick]: [b] is evaluated only when [a] is not
    truthy. *)
Definition or_else (a b : result json) : result json :=
  x <- a ;; if truthy x then Ok x else b.

Definition detail_url (norm : string) : string :=
  "https://api.hasdata.com/scrape/indeed/job?url=" ++ quote norm.

Section Details.
Context {U : Urllib}.

(** The request the function sends for [job_url]. *)
Definition detail_request (api_key job_url : string) : request :=
  {| req_url := detail_url (normalize_job_url job_url); req_api_key := api_key |}.

(** The function, given the response to that request.  [Ok None] is the
    Python [None]; a JobDetail is the dict it builds. *)
Definition fetch_job_details (api_key job_url : string) (resp : response)
  : result (option json) :=
  let norm := normalize_job_url job_url in
  match resp with
  | Timeout | RequestFailed => Ok None
  | Reply status_code body =>
      if negb (status_code =? 200)%Z then Ok None
      else match body with
           | None => Raise JSONDecodeError
           | Some v =>
               let data := py_or v (JObj []) in
               nested <- py_get data "job" (JObj []) ;;
               title <- or_else (pick data ["title"])
                                (pick nested ["title"; "jobTitle"]) ;;
               company <- or_else (pick data ["company"])
                                  (pick nested ["company"; "companyName"; "company_name"]) ;;
               location <- or_else (pick data ["location"])
                                   (pick nested ["location"; "jobLocation"]) ;;
               description <-
                 or_else (pick data ["description"; "jobDescription"; "full_description"])
                         (pick nested ["description"; "jobDescription"; "full_description"]) ;;
               Ok (Some (JObj [("title", py_or title (JStr ""));
                               ("company", py_or company (JStr ""));
                               ("location", py_or location (JStr ""));
                               ("description", py_or description (JStr ""));
                               ("url", JStr norm);
                               ("source_url", JStr job_url)]))
           end
  end.
End Details.

(** ** [save_jobs_to_json] *)

(** The fields of a [datetime] the two formats read. *)
Record datetime : Type := {
  year : nat;
  month : nat;
  day : nat;
  hour : nat;
  minute : nat;
  second : nat;
  microsecond : nat
}.

Definition digit (n : nat) : ascii := ascii_of_nat (48 + n mod 10).

Definition digits2 (n : nat) : string :=
  String (digit (n / 10)) (String (digit n) "").

Definition digits4 (n : nat) : string :=
  String (digit (n / 1000)) (String (digit (n / 100)) (digits2 n)).

Definition digits6 (n : nat) : string :=
  digits2 (n / 100 / 100) ++ digits4 n.

(** [now.strftime("%Y%m%d_%H%M%S")], the year having four digits. *)
Definition strftime_compact (now : datetime) : string :=
  digits4 now.(year) ++ digits2 now.(month) ++ digits2 now.(day) ++ "_"
  ++ digits2 now.(hour) ++ digits2 now.(minute) ++ digits2 now.(second).

(** [now.isoformat()] *)
Definition isoformat (now : datetime) : string :=
  digits4 now.(year) ++ "-" ++ digits2 now.(month) ++ "-" ++ digits2 now.(day) ++ "T"
  ++ digits2 now.(hour) ++ ":" ++ digits2 now.(minute) ++ ":" ++ digits2 now.(second)
  ++ (if (now.(microsecond) =? 0)%nat then "" else "." ++ digits6 now.(microsecond)).

(** Line 156 *)
Definition job_title_clean (job_title : string) : string :=
  str_replace "/" "_" None (str_replace " " "_" None job_title).

(** Line 157 *)
Definition location_clean (location : string) : string :=
  str_replace "/" "_" None
    (str_replace "," "" None (str_replace " " "_" None location)).

(** Line 158; [now] is the clock at line 155. *)
Definition output_filename (job_title location : string) (now : datetime) : string :=
  "data/indeed_jobs_" ++ job_title_clean job_title ++ "_" ++ location_clean location
  ++ "_" ++ strftime_compact now ++ ".json".

(** Lines 160 to 170; [now] is the clock at line 164. *)
Definition envelope (jobs : list json) (job_title location : string) (now : datetime)
  : json :=
  JObj [("metadata",
         JObj [("search_job_title", JStr (job_title ++ "_detailed"));
               ("search_location", JStr location);
               ("timestamp", JStr (isoformat now));
               ("total_jobs", JNum (Z.of_nat (List.length jobs)))]);
        ("data", JObj [("job", JArr jobs)])].

(** The file system as the function meets it: everything works, or
    [os.makedirs] raises, or opening or writing the file raises. *)
Inductive disk : Type :=
| DiskOk
| MakedirsFails
| WriteFails.

(** The function: the value it returns, with the file it has written, as a
    name and the JSON value dumped into it. *)
Definition save_jobs_to_json (jobs : list json) (job_title location : string)
    (now1 now2 : datetime) (d : disk) : result (option string * option (string * json)) :=
  match d with
  | MakedirsFails => Raise OSError
  | WriteFails => Ok (None, None)
  | DiskOk =>
      let filename := output_filename job_title location now1 in
      Ok (Some filename, Some (filename, envelope jobs job_title location now2))
  end.

(** ** A concrete library for evaluation *)

Definition hex_value (a : ascii) : option nat :=
  let n := byte_of a in
  if is_digit a then Some (n - 48)
  else if ((65 <=? n) && (n <=? 70))%nat then Some (n - 55)
  else if ((97 <=? n) && (n <=? 102))%nat then Some (n - 87)
  else None.

(** Percent-decoding on the bytes: [%XX] becomes the byte [XX], and a
    percent sign not followed by two hexadecimal digits stays.  This is
    [unquote] whenever the decoded bytes are well-formed UTF-8. *)
Fixpoint unquote_bytes (s : string) : string :=
  match s with
  | EmptyString => EmptyString
  | String a t =>
      if Ascii.eqb a "%"
      then match t with
           | String h1 (String h2 t2) =>
               match hex_value h1, hex_value h2 with
               | Some x, Some y => String (ascii_of_nat (16 * x + y)) (unquote_bytes t2)
               | _, _ => String a (unquote_bytes t)
               end
           | _ => String a (unquote_bytes t)
           end
      else String a (unquote_bytes t)
  end.

Definition unquote_bytes_plain (s : string) :
  char_in "%" s = false -> unquote_bytes s = s.
Proof.
  induction s as [|a t IH]; simpl; [reflexivity|].
  destruct (Ascii.eqb a "%"); simpl; [discriminate|].
  intros H. now rewrite IH.
Qed.

Definition unquote_bytes_nonempty (s : string) :
  s <> EmptyString -> unquote_bytes s <> EmptyString.
Proof.
  destruct s as [|a t]; [congruence|]. intros _. simpl.
  destruct (Ascii.eqb a "%"); [|discriminate].
  destruct t as [|h1 [|h2 t2]]; try discriminate.
  destruct (hex_value h1); [destruct (hex_value h2)|]; discriminate.
Qed.

(** The library on URLs whose host is a plain ASCII name: bracketed hosts
    are refused and the NFKC test is passed. *)
Definition plain_urllib : Urllib :=
  {| unquote := unquote_bytes;
     unquote_plain := unquote_bytes_plain;
     unquote_nonempty := unquote_bytes_nonempty;
     check_bracketed_netloc := fun _ => false;
     checknetloc_nfkc := fun _ => true |}.

(** ** Vocabulary of the statements *)

(** The value under key [k] of a JSON object. *)
Definition json_field (k : string) (v : json) : option json :=
  match v with
  | JObj items => dict_get k items
  | _ => None
  end.

(** The value at the end of a path of keys. *)
Fixpoint json_path (ks : list string) (v : json) : option json :=
  match ks with
  | [] => Some v
  | k :: rest => match json_field k v with
                 | Some w => json_path rest w
                 | None => None
                 end
  end.

(** [(x or "")] for a [str] or [None] argument. *)
Definition or_empty (x : option string) : string :=
  match x with Some s => s | None => EmptyString end.

(** The conditions under which the arguments are invalid, in the words of
    the specification: a string is empty after trimming, or the limit given
    does not convert to an integer, or it converts to one below 1. *)
Definition invalid_input (job_title location : option string)
    (limit : option int_outcome) : Prop :=
  str_strip (or_empty job_title) = EmptyString
  \/ str_strip (or_empty location) = EmptyString
  \/ limit = Some IntTypeError
  \/ limit = Some IntValueError
  \/ limit = Some IntOverflowError
  \/ exists n, limit = Some (IntValue n) /\ (n < 1)%Z.

(** A [str] made of whitespace only, the empty one included. *)
Definition whitespace_only (s : string) : Prop := lstrip_ws s = EmptyString.

(** The limit [get_user_input] hands back. *)
Definition converted_limit (limit : option int_outcome) : option Z :=
  match limit with
  | Some (IntValue n) => Some n
  | _ => None
  end.

(** Sanitising as the specification words it: spaces become underscores,
    slashes and commas are dropped. *)
Fixpoint spec_sanitize (s : string) : string :=
  match s with
  | EmptyString => EmptyString
  | String a t =>
      if Ascii.eqb a "/" || Ascii.eqb a "," then spec_sanitize t
      else String (if Ascii.eqb a " " then "_"%char else a) (spec_sanitize t)
  end.

Definition spec_filename (job_title location : string) (now : datetime) : string :=
  "data/indeed_jobs_" ++ spec_sanitize job_title ++ "_" ++ spec_sanitize location
  ++ "_" ++ strftime_compact now ++ ".json".

(** Sanitising as the code does it, character by character. *)
Definition underscore_space_slash (a : ascii) : ascii :=
  if Ascii.eqb a " " || Ascii.eqb a "/" then "_"%char else a.

Fixpoint str_filter (p : ascii -> bool) (s : string) : string :=
  match s with
  | EmptyString => EmptyString
  | String a t => if p a then String a (str_filter p t) else str_filter p t
  end.

Definition not_comma (a : ascii) : bool := negb (Ascii.eqb a ",").

(** The shape [YYYYMMDD_HHMMSS]: eight digits, an underscore, six digits. *)
Definition compact_shape (s : string) : bool :=
  match s with
  | String y1 (String y2 (String y3 (String y4 (String m1 (String m2
    (String d1 (String d2 (String u (String h1 (String h2 (String n1
    (String n2 (String s1 (String s2 EmptyString)))))))))))))) =>
      forallb is_digit [y1; y2; y3; y4; m1; m2; d1; d2; h1; h2; n1; n2; s1; s2]
      && Ascii.eqb u "_"
  | _ => false
  end.

(** The four extracted fields of a JobDetail. *)
Inductive field : Type := Title | Company | Location | Description.

Definition field_name (f : field) : string :=
  match f with
  | Title => "title"
  | Company => "company"
  | Location => "location"
  | Description => "description"
  end.

(** Where a candidate key is looked up: in the response object or in the
    object under its key ["job"]. *)
Inductive container : Type := TopLevel | UnderJob.

(** The lookups of each field as lines 135 to 141 try them: at the top
    level only the field's own key (for the description its three keys),
    then under ["job"] the field's key and its alternates. *)
Definition candidates (f : field) : list (container * string) :=
  match f with
  | Title => [(TopLevel, "title"); (UnderJob, "title"); (UnderJob, "jobTitle")]
  | Company => [(TopLevel, "company"); (UnderJob, "company");
                (UnderJob, "companyName"); (UnderJob, "company_name")]
  | Location => [(TopLevel, "location"); (UnderJob, "location");
                 (UnderJob, "jobLocation")]
  | Description => [(TopLevel, "description"); (TopLevel, "jobDescription");
                    (TopLevel, "full_description"); (UnderJob, "description");
                    (UnderJob, "jobDescription"); (UnderJob, "full_description")]
  end.

(** The first candidate whose value is present and truthy; the empty string
    when there is none. *)
Fixpoint first_match (top nested : list (string * json))
    (cands : list (container * string)) : json :=
  match cands with
  | [] => JStr ""
  | (c, k) :: rest =>
      match dict_get k (match c with TopLevel => top | UnderJob => nested end) with
      | Some v => if truthy v then v else first_match top nested rest
      | None => first_match top nested rest
      end
  end.

(** The JobDetail built from the two objects of a response. *)
Definition job_detail {U : Urllib} (top nested : list (string * json))
    (job_url : string) : json :=
  JObj [("title", first_match top nested (candidates Title));
        ("company", first_match top nested (candidates Company));
        ("location", first_match top nested (candidates Location));
        ("description", first_match top nested (candidates Description));
        ("url", JStr (normalize_job_url job_url));
        ("source_url", JStr job_url)].

(** The object under ["job"]: the empty dict when the key is missing. *)
Definition nested_object (top : list (string * json)) : json :=
  match dict_get "job" top with
  | Some v => v
  | None => JObj []
  end.

(** The result of lines 41 to 51 once the query is parsed: the early return
    when there is one, the input otherwise. *)
Definition or_input (r : option string) (url : string) : string :=
  match r with
  | Some s => s
  | None => url
  end.

(** The mobile-path rule of lines 47 and 48, followed by line 51. *)
Definition mobile_rewrite (url : string) : string :=
  if str_contains "/m/viewjob" url
  then str_replace "/m/viewjob" "/viewjob" (Some 1) url
  else url.

(** Every list of values is non-empty and holds non-empty strings. *)
Definition values_nonempty (d : list (string * list string)) : Prop :=
  Forall (fun kv => snd kv <> [] /\ Forall (fun v => v <> EmptyString) (snd kv)) d.

(** [j.get("url")] on an item of a page. *)
Definition item_url (j : json) : json :=
  match j with
  | JObj items => match dict_get "url" items with
                  | Some v => v
                  | None => JNull
                  end
  | _ => JNull
  end.

(** The [jobs] array of a response: the raw items of a listing page, none
    when the response has no such array. *)
Definition page_jobs (resp : response) : list json :=
  match resp with
  | Reply status_code (Some v) =>
      if (status_code =? 200)%Z
      then match py_get (py_or v (JObj [])) "jobs" (JArr []) with
           | Ok (JArr items) => items
           | _ => []
           end
      else []
  | _ => []
  end.

(** The raw URLs of a page, in order: the truthy [url] values. *)
Definition page_urls (resp : response) : list json :=
  filter truthy (map item_url (page_jobs resp)).

(** The number of raw items of a page. *)
Definition raw_length (resp : response) : nat := List.length (page_jobs resp).

(** First-seen order: every value once, at the place of its first
    occurrence. *)
Fixpoint first_seen (l : list json) : list json :=
  match l with
  | [] => []
  | x :: t => x :: filter (fun y => negb (py_eqb x y)) (first_seen t)
  end.

(** What lines 90 to 92 append for a stream of URL values, given the set of
    values seen so far. *)
Fixpoint fresh_urls (seen : list json) (us : list json) : list json :=
  match us with
  | [] => []
  | u :: r =>
      if set_mem u seen then fresh_urls seen r
      else u :: fresh_urls (u :: seen) r
  end.

(** Two values that are not equal. *)
Definition differ (a b : json) : Prop := py_eqb a b = false.

(** No two positions hold equal values. *)
Definition pairwise_distinct (l : list json) : Prop :=
  forall i j a b, i < j -> nth_error l i = Some a -> nth_error l j = Some b ->
                  py_eqb a b = false.

Definition sum_list (l : list nat) : nat := fold_right Nat.add 0 l.

(** ** Sample data for the closed statements *)

(** A listing item with a [url]. *)
Definition job_item (u : string) : json := JObj [("url", JStr u)].

(** A 200 reply whose body is [{"jobs": items}]. *)
Definition listing_page (items : list json) : response :=
  Reply 200 (Some (JObj [("jobs", JArr items)])).

Definition sample_time : datetime :=
  {| year := 2024; month := 1; day := 2; hour := 3; minute := 4; second := 5;
     microsecond := 0 |}.

(** Two pages that overlap, then an empty page.  The first two URLs have
    the same normalized form. *)
Definition overlapping_script : list response :=
  [listing_page [job_item "https://www.indeed.com/m/viewjob?jk=1";
                 job_item "https://www.indeed.com/viewjob?jk=1";
                 JObj [("title", JStr "no url")];
                 job_item "https://www.indeed.com/m/viewjob?jk=1"];
   listing_page [job_item "https://www.indeed.com/viewjob?jk=1";
                 job_item "https://www.indeed.com/viewjob?jk=2"];
   listing_page []].

(** Two pages with five unique URLs, and a page that is never asked for. *)
Definition five_urls_first : response :=
  listing_page [job_item "u1"; job_item "u2"].

Definition five_urls_second : response :=
  listing_page [job_item "u3"; job_item "u4"; job_item "u5"].

Definition five_urls_third : response :=
  listing_page [job_item "u6"].

(** A character that survives being put into a query and parsed back: not a
    tab, a carriage return or a line feed (removed by [urlsplit]), not [#]
    or [&] (they end the value), not [+] or [%] (they are decoded). *)
Definition id_char_ok (a : ascii) : bool :=
  negb (Ascii.eqb a char_tab || Ascii.eqb a char_cr || Ascii.eqb a char_lf
        || Ascii.eqb a "#" || Ascii.eqb a "&" || Ascii.eqb a "+" || Ascii.eqb a "%").

Definition clean_id (id : string) : bool := str_forall id_char_ok id.

(** The text before and after the first occurrence of [sub] in [s]. *)
Fixpoint find_first (sub s : string) : option (string * string) :=
  match s with
  | EmptyString => if prefix sub EmptyString then Some (EmptyString, EmptyString) else None
  | String c t =>
      if prefix sub s then Some (EmptyString, str_drop (String.length sub) s)
      else match find_first sub t with
           | Some (a, b) => Some (String c a, b)
           | None => None
           end
  end.

(** The query of a URL as [urlsplit] cuts it: what follows the first [?]
    in the text before the first [#]. *)
Definition query_part (s : string) : string :=
  snd (split_first "?" (fst (split_first "#" s))).

(** The first [/m/viewjob] of the URL lies in its path: no [?] and no [#]
    comes before it. *)
Definition mobile_in_path (url : string) : bool :=
  match find_first "/m/viewjob" url with
  | Some (a, _) => negb (char_in "?" a) && negb (char_in "#" a)
  | None => false
  end.

(** An input without job id on which the mobile-path rule is stable:
    there is nothing to rewrite, or the segment is in the path and one
    rewrite removes it. *)
Definition mobile_stable (url : string) : Prop :=
  str_contains "/m/viewjob" url = false
  \/ (mobile_in_path url = true
      /\ str_contains "/m/viewjob" (mobile_rewrite url) = false).

(** The inputs on which normalizing twice is normalizing once: the URL
    does not parse; or its job id is made of characters that survive a
    second parse; or it has no job id and the mobile-path rule is stable. *)
Definition stable_input {U : Urllib} (url : string) : Prop :=
  match urlparse url with
  | Raise _ => True
  | Ok parsed =>
      let jk := job_key (parse_qs parsed.(query)) in
      if opt_truthy jk then clean_id (or_empty jk) = true
      else mobile_stable url
  end.

(** A listing item as the API documents it: an object with a [url] string,
    or without one. *)
Definition item_of (u : option string) : json :=
  match u with
  | Some s => job_item s
  | None => JObj []
  end.

(** A documented listing page. *)
Definition page_of (items : list (option string)) : response :=
  listing_page (map item_of items).

(** ** [get_api_key] *)

(** How a call that may run [sys.exit] ends. *)
Inductive key_outcome : Type :=
| Key (api_key : string)
| SysExit (code : Z).

(** [env] is what [os.getenv('HASDATA_API_KEY')] returns. *)
Definition get_api_key (env : option string) : key_outcome :=
  match env with
  | Some k => if str_truthy k then Key k else SysExit 1
  | None => SysExit 1
  end.

(** ** [scrape_indeed_jobs] *)

(** How the loop of lines 201 to 210 ends: with the accumulated records, with
    an exception, or waiting for the answer to its last request. *)
Inductive details_end : Type :=
| DetailsDone (detailed : list json)
| DetailsRaised (e : exn)
| DetailsWaiting.

(** How a run ends: it returns, [sys.exit] ends the process, an exception
    leaves the function, or a script is used up while a request is
    outstanding. *)
Inductive termination : Type :=
| Finished
| Exited (code : Z)
| Failed (e : exn)
| Stalled.

(** A run: its end, the requests sent to the two endpoints, in order, and
    the file written, as a name and the value dumped into it. *)
Record run : Type := {
  ending : termination;
  listing_requests : list request;
  detail_requests : list request;
  written : option (string * json)
}.

Section Orchestrator.
Context {U : Urllib}.

(** Lines 201 to 210 against the responses of the detail endpoint.  An entry
    of the listing that is not a [str] makes [quote] raise [TypeError]
    before any request is sent. *)
Fixpoint details_loop (api_key : string) (job_urls : list json)
    (script : list response) (detailed : list json) : details_end * list request :=
  match job_urls with
  | [] => (DetailsDone detailed, [])
  | JStr u :: rest_urls =>
      match script with
      | [] => (DetailsWaiting, [detail_request api_key u])
      | resp :: rest =>
          match fetch_job_details api_key u resp with
          | Raise e => (DetailsRaised e, [detail_request api_key u])
          | Ok details =>
              let detailed' :=
                match details with
                | Some d => if truthy d then detailed ++ [d] else detailed
                | None => detailed
                end in
              let (o, reqs) := details_loop api_key rest_urls rest detailed' in
              (o, detail_request api_key u :: reqs)
          end
      end
  | _ :: _ => (DetailsRaised TypeError, [])
  end.

(** The function, given the environment variable, the responses of the two
    endpoints, the two readings of the clock and the file system. *)
Definition scrape_indeed_jobs (env : option string) (job_title location : string)
    (job_limit : option Z) (listing_script detail_script : list response)
    (now1 now2 : datetime) (d : disk) : run :=
  match get_api_key env with
  | SysExit code =>
      {| ending := Exited code; listing_requests := []; detail_requests := [];
         written := None |}
  | Key api_key =>
      let (o, lreqs) :=
        fetch_job_listings api_key job_title location job_limit "www.indeed.com"
          listing_script in
      match o with
      | Raised e =>
          {| ending := Failed e; listing_requests := lreqs; detail_requests := [];
             written := None |}
      | Waiting _ =>
          {| ending := Stalled; listing_requests := lreqs; detail_requests := [];
             written := None |}
      | Returned [] =>
          {| ending := Finished; listing_requests := lreqs; detail_requests := [];
             written := None |}
      | Returned job_urls =>
          let (de, dreqs) := details_loop api_key job_urls detail_script [] in
          match de with
          | DetailsRaised e =>
              {| ending := Failed e; listing_requests := lreqs;
                 detail_requests := dreqs; written := None |}
          | DetailsWaiting =>
              {| ending := Stalled; listing_requests := lreqs;
                 detail_requests := dreqs; written := None |}
          | DetailsDone [] =>
              {| ending := Finished; listing_requests := lreqs;
                 detail_requests := dreqs; written := None |}
          | DetailsDone detailed =>
              match save_jobs_to_json detailed job_title location now1 now2 d with
              | Raise e =>
                  {| ending := Failed e; listing_requests := lreqs;
                     detail_requests := dreqs; written := None |}
              | Ok (_, file) =>
                  {| ending := Finished; listing_requests := lreqs;
                     detail_requests := dreqs; written := file |}
              end
          end
      end
  end.

(** ** [main] *)

(** The exit status of the process: [None] while the run is stalled. *)
Definition exit_status (t : termination) : option Z :=
  match t with
  | Finished => Some 0%Z
  | Exited code => Some code
  | Failed _ => Some 1%Z
  | Stalled => None
  end.

End Orchestrator.

(** ** Vocabulary of the further statements *)

(** A value the listing loop keeps: truthy and hashable. *)
Definition is_url_value (v : json) : bool := truthy v && hashable v.

(** The records the detail endpoint yields for the URLs, in order: one for
    each response that gives a JobDetail. *)
Fixpoint successes {U : Urllib} (api_key : string) (urls : list string)
    (script : list response) : list json :=
  match urls, script with
  | u :: us, resp :: rest =>
      match fetch_job_details api_key u resp with
      | Ok (Some d) => d :: successes api_key us rest
      | _ => successes api_key us rest
      end
  | _, _ => []
  end.

(** A response on which [fetch_job_details] gives up without raising. *)
Definition failed_response (resp : response) : bool :=
  match resp with
  | Timeout | RequestFailed => true
  | Reply status_code _ => negb (status_code =? 200)%Z
  end.

(** A response on which the listing loop stops gracefully without looking
    at a page: a transport failure or a status other than 200. *)
Definition stops_listing (resp : response) : bool := failed_response resp.

(** Characters [quote] emits: the always-safe ones, the slash and the
    percent sign. *)
Definition is_quoted_char (a : ascii) : bool :=
  is_always_safe a || Ascii.eqb a "/" || Ascii.eqb a "%".

(** A 200 reply whose body has no jobs: the normal end of the pagination. *)
Definition no_jobs (resp : response) : bool :=
  match resp with
  | Reply status_code (Some v) =>
      (status_code =? 200)%Z
      && match py_get (py_or v (JObj [])) "jobs" (JArr []) with
         | Ok got => negb (truthy got)
         | Raise _ => false
         end
  | _ => false
  end.

(** The request of the listing loop at an offset. *)
Definition request_at (api_key job_title location domain : string) (offset : nat)
  : request :=
  {| req_url := listing_url job_title location domain offset;
     req_api_key := api_key |}.

(** The exception an item of a page makes the scan raise: an item that is
    not a dict has no [get]; a truthy [url] that is a list or a dict cannot
    enter a set. *)
Definition item_fault (j : json) : option exn :=
  match j with
  | JObj _ =>
      if truthy (item_url j) && negb (hashable (item_url j)) then Some TypeError
      else None
  | _ => Some AttributeError
  end.

(** The four fields are all found at the top level of the response. *)
Definition top_complete (top : list (string * json)) : bool :=
  truthy (first_match top [] [(TopLevel, "title")])
  && truthy (first_match top [] [(TopLevel, "company")])
  && truthy (first_match top [] [(TopLevel, "location")])
  && truthy (first_match top []
               [(TopLevel, "description"); (TopLevel, "jobDescription");
                (TopLevel, "full_description")]).

(** The detail endpoint answers every one of the URLs, in order, without
    an exception leaving [fetch_job_details]. *)
Fixpoint all_answered {U : Urllib} (api_key : string) (urls : list string)
    (script : list response) : bool :=
  match urls, script with
  | [], _ => true
  | u :: us, resp :: rest =>
      match fetch_job_details api_key u resp with
      | Ok _ => all_answered api_key us rest
      | Raise _ => false
      end
  | _ :: _, [] => false
  end.

(** What a run does once the key is there and the listing has returned a
    non-empty list: the part of [scrape_indeed_jobs] from line 198 on. *)
Definition after_listing {U : Urllib} (api_key job_title location : string)
    (job_urls : list json) (lreqs : list request) (detail_script : list response)
    (now1 now2 : datetime) (d : disk) : run :=
  let (de, dreqs) := details_loop api_key job_urls detail_script [] in
  match de with
  | DetailsRaised e =>
      {| ending := Failed e; listing_requests := lreqs;
         detail_requests := dreqs; written := None |}
  | DetailsWaiting =>
      {| ending := Stalled; listing_requests := lreqs;
         detail_requests := dreqs; written := None |}
  | DetailsDone [] =>
      {| ending := Finished; listing_requests := lreqs;
         detail_requests := dreqs; written := None |}
  | DetailsDone detailed =>
      match save_jobs_to_json detailed job_title location now1 now2 d with
      | Raise e =>
          {| ending := Failed e; listing_requests := lreqs;
             detail_requests := dreqs; written := None |}
      | Ok (_, file) =>
          {| ending := Finished; listing_requests := lreqs;
             detail_requests := dreqs; written := file |}
      end
  end.

(** A 200 reply of the detail endpoint with a title at the top level. *)
Definition detail_page (title : string) : response :=
  Reply 200 (Some (JObj [("title", JStr title)])).

(** A listing of two URLs, ended by an empty page. *)
Definition two_jobs_script : list response := [five_urls_first; listing_page []].

(** The run that leaves on [sys.exit(1)] before any request. *)
Definition exited_run : run :=
  {| ending := Exited 1; listing_requests := []; detail_requests := [];
     written := None |}.

(** A reading of the clock whose year has four digits. *)
Definition valid_datetime (t : datetime) : Prop :=
  1000 <= t.(year) < 100 * 100 /\ 1 <= t.(month) <= 12 /\ 1 <= t.(day) <= 31
  /\ t.(hour) <= 23 /\ t.(minute) <= 59 /\ t.(second) <= 59.

(** Two readings of the clock within the same second. *)
Definition same_second (a b : datetime) : Prop :=
  a.(year) = b.(year) /\ a.(month) = b.(month) /\ a.(day) = b.(day)
  /\ a.(hour) = b.(hour) /\ a.(minute) = b.(minute) /\ a.(second) = b.(second).

(** ** The extraction in the words of the specification *)

(** The ordered fallback keys of a field. *)
Definition fallback_keys (f : field) : list string :=
  match f with
  | Title => ["title"; "jobTitle"]
  | Company => ["company"; "companyName"; "company_name"]
  | Location => ["location"; "jobLocation"]
  | Description => ["description"; "jobDescription"; "full_description"]
  end.

(** The search as the specification words it: the top-level object first
    and then the object under ["job"], each of them with the ordered
    fallback keys of the field. *)
Definition claimed_candidates (f : field) : list (container * string) :=
  map (pair TopLevel) (fallback_keys f) ++ map (pair UnderJob) (fallback_keys f).

Definition claimed_job_detail {U : Urllib} (top nested : list (string * json))
    (job_url : string) : json :=
  JObj [("title", first_match top nested (claimed_candidates Title));
        ("company", first_match top nested (claimed_candidates Company));
        ("location", first_match top nested (claimed_candidates Location));
        ("description", first_match top nested (claimed_candidates Description));
        ("url", JStr (normalize_job_url job_url));
        ("source_url", JStr job_url)].

(** The top level gives nothing under an alternate key of the title, the
    company or the location. *)
Definition no_top_alternates (top : list (string * json)) : bool :=
  forallb (fun k => match dict_get k top with
                    | Some v => negb (truthy v)
                    | None => true
                    end)
    ["jobTitle"; "companyName"; "company_name"; "jobLocation"].

(** ** The parameters of a query, piece by piece *)

(** The pieces of a query between its [&]. *)
Definition query_segments (qs : string) : list string :=
  if str_truthy qs then str_split "&" qs else [].

(** A piece without a value: it is empty, has no [=], or has nothing after
    its first [=]. *)
Definition blank_segment (seg : string) : bool :=
  match str_partition "=" seg with
  | Some (_, v) => negb (str_truthy v)
  | None => true
  end.

(** The name and the value of a piece, decoded. *)
Definition segment_pair {U : Urllib} (seg : string) : string * string :=
  match str_partition "=" seg with
  | Some (n, v) => (unquote (str_replace "+" " " None n),
                    unquote (str_replace "+" " " None v))
  | None => (unquote (str_replace "+" " " None seg), EmptyString)
  end.

(** The decoded parameters of a query that have a value, in order. *)
Definition filled_pairs {U : Urllib} (qs : string) : list (string * string) :=
  map segment_pair (filter (fun seg => negb (blank_segment seg)) (query_segments qs)).

(** The value of the first pair named [k]. *)
Definition first_named (k : string) (pairs : list (string * string))
  : option string :=
  match find (fun nv => String.eqb (fst nv) k) pairs with
  | Some nv => Some (snd nv)
  | None => None
  end.

(** The values, in order, of the pairs named [k]. *)
Definition values_named (k : string) (pairs : list (string * string))
  : list string :=
  map snd (filter (fun nv => String.eqb (fst nv) k) pairs).

(** The text after [k=] in a piece that starts with it. *)
Definition raw_value (k seg : string) : option string :=
  if prefix (k ++ "=") seg then Some (str_drop (String.length k + 1) seg) else None.

(** The first value of the parameter [k] as the query spells it, empty or
    not. *)
Fixpoint first_raw_value (k : string) (segs : list string) : option string :=
  match segs with
  | [] => None
  | seg :: rest =>
      match raw_value k seg with
      | Some v => Some v
      | None => first_raw_value k rest
      end
  end.

(** What the specification says of a URL with query [qs] whose first [jk]
    value is empty: the first [vjk] value when it is there and not empty,
    else the mobile-path rewrite, else the input. *)
Definition claimed_empty_jk_result (url qs : string) : string :=
  match first_raw_value "vjk" (query_segments qs) with
  | Some v => if str_truthy v then canonical_url v else mobile_rewrite url
  | None => mobile_rewrite url
  end.

(** The number a decimal numeral denotes. *)
Definition decimal_value (s : string) : option nat :=
  option_map Nat.of_uint (NilZero.uint_of_string s).

(** * Properties *)

(** ** Input validation *)

Lemma str_truthy_false (s : string) : str_truthy s = false <-> s = EmptyString.
Proof.
  unfold str_truthy. destruct (String.eqb_spec s EmptyString); simpl; split;
    congruence.
Qed.

Lemma str_truthy_true (s : string) : str_truthy s = true <-> s <> EmptyString.
Proof.
  unfold str_truthy. destruct (String.eqb_spec s EmptyString); simpl; split;
    congruence.
Qed.

Lemma get_user_input_unfold (job_title location : option string)
    (limit : option int_outcome) :
  get_user_input job_title location limit =
  let t := str_strip (or_empty job_title) in
  let l := str_strip (or_empty location) in
  if negb (str_truthy t)
  then Raise (ValueError "job_title is required and cannot be empty.")
  else if negb (str_truthy l)
  then Raise (ValueError "location is required and cannot be empty.")
  else match limit with
       | None => Ok (t, l, None)
       | Some (IntValue n) =>
           if (n <? 1)%Z then Raise (ValueError "limit must be >= 1 when provided.")
           else Ok (t, l, Some n)
       | Some IntOverflowError => Raise OverflowError
       | Some _ => Raise (ValueError "limit must be an integer (or None).")
       end.
Proof. reflexivity. Qed.

Lemma get_user_input_low (job_title location : option string) (n : Z) :
  (n < 1)%Z ->
  exists msg, get_user_input job_title location (Some (IntValue n))
              = Raise (ValueError msg).
Proof.
  intros Hn. rewrite get_user_input_unfold. cbv zeta.
  destruct (str_truthy (str_strip (or_empty job_title))); simpl; [|eauto].
  destruct (str_truthy (str_strip (or_empty location))); simpl; [|eauto].
  apply Z.ltb_lt in Hn. rewrite Hn. eauto.
Qed.

(** The three ways in which the function ends: it refuses invalid
    arguments with [ValueError]; or, on two valid strings and a limit on
    which [int] overflows, it lets [OverflowError] escape; or it accepts. *)
Lemma get_user_input_cases (job_title location : option string)
    (limit : option int_outcome) :
  (invalid_input job_title location limit
   /\ exists msg, get_user_input job_title location limit = Raise (ValueError msg))
  \/ (limit = Some IntOverflowError
      /\ str_strip (or_empty job_title) <> EmptyString
      /\ str_strip (or_empty location) <> EmptyString
      /\ get_user_input job_title location limit = Raise OverflowError)
  \/ (~ invalid_input job_title location limit
      /\ get_user_input job_title location limit =
         Ok (str_strip (or_empty job_title), str_strip (or_empty location),
             converted_limit limit)).
Proof.
  rewrite get_user_input_unfold. cbv zeta. unfold invalid_input.
  destruct (str_truthy (str_strip (or_empty job_title))) eqn:Ht; simpl.
  2:{ apply str_truthy_false in Ht. left. split; [now left|eauto]. }
  destruct (str_truthy (str_strip (or_empty location))) eqn:Hl; simpl.
  2:{ apply str_truthy_false in Hl. left. split; [right; now left|eauto]. }
  apply str_truthy_true in Ht, Hl.
  destruct limit as [[n| | |]|]; simpl.
  - destruct (Z.ltb_spec n 1).
    + left. split; [|eauto]. do 5 right. exists n. now split.
    + right; right. split; [|reflexivity].
      intros [?|[?|[?|[?|[?|[m [Hm ?]]]]]]]; try congruence.
      inversion Hm; subst. lia.
  - left. split; [|eauto]. right. right. now left.
  - left. split; [|eauto]. right. right. right. now left.
  - right; left. repeat split; assumption.
  - right; right. split; [|reflexivity].
    intros [?|[?|[?|[?|[?|[m [Hm ?]]]]]]]; congruence.
Qed.

(** Apart from the overflow, the function does what the specification
    says: it returns the trimmed strings and the converted limit exactly
    on valid arguments and raises [ValueError] exactly on invalid ones;
    the limits 0 and -1 always fail and whitespace-only strings always
    fail. *)
Lemma get_user_input_convertible (job_title location : option string)
    (limit : option int_outcome) :
  limit <> Some IntOverflowError ->
  (invalid_input job_title location limit <->
   exists msg, get_user_input job_title location limit = Raise (ValueError msg))
  /\ (~ invalid_input job_title location limit <->
      get_user_input job_title location limit =
      Ok (str_strip (or_empty job_title), str_strip (or_empty location),
          converted_limit limit))
  /\ (exists msg, get_user_input job_title location (Some (IntValue 0))
                  = Raise (ValueError msg))
  /\ (exists msg, get_user_input job_title location (Some (IntValue (-1)))
                  = Raise (ValueError msg))
  /\ (whitespace_only (or_empty job_title) \/ whitespace_only (or_empty location) ->
      exists msg, get_user_input job_title location limit = Raise (ValueError msg)).
Proof.
  intros Hconv.
  split; [|split; [|split; [|split]]].
  - destruct (get_user_input_cases job_title location limit)
      as [[Hi He]|[[Ho _]|[Hv Hk]]]; [tauto|contradiction|].
    split; [tauto|]. intros [msg Hm]. congruence.
  - destruct (get_user_input_cases job_title location limit)
      as [[Hi [msg He]]|[[Ho _]|[Hv Hk]]]; [|contradiction|tauto].
    split; [tauto|]. congruence.
  - apply get_user_input_low. lia.
  - apply get_user_input_low. lia.
  - intros Hw. rewrite get_user_input_unfold. cbv zeta.
    unfold whitespace_only in Hw. unfold str_strip.
    destruct Hw as [Hw|Hw]; rewrite Hw; cbn.
    + eauto.
    + destruct (str_truthy (rstrip_ws (lstrip_ws (or_empty job_title)))); cbn; eauto.
Qed.

(** C7.  The code misses a case of the claim: a limit that does not
    convert to an integer is invalid, and the function is to raise
    [ValueError] on it; but on a limit on which [int] raises
    [OverflowError] - a float infinity - with a valid job title and location
    the [except (TypeError, ValueError)] of lines 32 to 35 does not apply and
    [OverflowError] leaves the function. *)
Theorem get_user_input_overflow :
  invalid_input (Some "Data Engineer") (Some "Dhaka") (Some IntOverflowError)
  /\ get_user_input (Some "Data Engineer") (Some "Dhaka") (Some IntOverflowError)
     = Raise OverflowError
  /\ ~ (exists msg, get_user_input (Some "Data Engineer") (Some "Dhaka")
                      (Some IntOverflowError) = Raise (ValueError msg)).
Proof.
  split; [|split].
  - unfold invalid_input. do 4 right. now left.
  - reflexivity.
  - intros [msg H]. discriminate H.
Qed.

(** ** The JSON writer *)

(** C6.  The envelope written by the JSON Writer holds the records it was
    given, in their order, under [data.job]; their number under
    [metadata.total_jobs]; and the job title followed by ["_detailed"]
    under [metadata.search_job_title]. *)
Theorem envelope_spec (jobs : list json) (job_title location : string)
    (now1 now2 : datetime) :
  (exists filename env,
      save_jobs_to_json jobs job_title location now1 now2 DiskOk
      = Ok (Some filename, Some (filename, env)))
  /\ (forall d ret filename env,
        save_jobs_to_json jobs job_title location now1 now2 d
        = Ok (ret, Some (filename, env)) ->
        json_path ["data"; "job"] env = Some (JArr jobs)
        /\ json_path ["metadata"; "total_jobs"] env
           = Some (JNum (Z.of_nat (List.length jobs)))
        /\ json_path ["metadata"; "search_job_title"] env
           = Some (JStr (job_title ++ "_detailed")%string)).
Proof.
  split.
  - do 2 eexists. reflexivity.
  - intros d ret filename env H. destruct d; simpl in H; try discriminate.
    inversion H; subst. repeat split; reflexivity.
Qed.

Lemma prefix_char (c a : ascii) (t : string) :
  prefix (String c EmptyString) (String a t) = Ascii.eqb a c.
Proof.
  simpl. destruct (ascii_dec c a) as [->|Hne].
  - rewrite Ascii.eqb_refl. now destruct t.
  - symmetry. apply Ascii.eqb_neq. congruence.
Qed.

(** Replacing a character by a character is a map. *)
Lemma replace_char_map (c d : ascii) (s : string) :
  str_replace (String c EmptyString) (String d EmptyString) None s
  = str_map (fun a => if Ascii.eqb a c then d else a) s.
Proof.
  unfold str_replace. induction s as [|a t IH]; [reflexivity|].
  cbn [replace_from str_map]. rewrite prefix_char. cbn.
  destruct (Ascii.eqb a c); cbn; now rewrite IH.
Qed.

(** Replacing a character by nothing is a filter. *)
Lemma replace_char_filter (c : ascii) (s : string) :
  str_replace (String c EmptyString) EmptyString None s
  = str_filter (fun a => negb (Ascii.eqb a c)) s.
Proof.
  unfold str_replace. induction s as [|a t IH]; [reflexivity|].
  cbn [replace_from str_filter]. rewrite prefix_char. cbn.
  destruct (Ascii.eqb a c); cbn; now rewrite IH.
Qed.

Lemma str_map_map (f g : ascii -> ascii) (s : string) :
  str_map g (str_map f s) = str_map (fun a => g (f a)) s.
Proof. induction s as [|a t IH]; simpl; [reflexivity|now rewrite IH]. Qed.

Lemma str_map_ext (f g : ascii -> ascii) (s : string) :
  (forall a, f a = g a) -> str_map f s = str_map g s.
Proof. intros H. induction s as [|a t IH]; simpl; [reflexivity|now rewrite H, IH]. Qed.

Lemma job_title_clean_map (s : string) :
  job_title_clean s = str_map underscore_space_slash s.
Proof.
  unfold job_title_clean. rewrite !replace_char_map, str_map_map.
  apply str_map_ext. intros a. unfold underscore_space_slash.
  destruct (Ascii.eqb_spec a " ") as [->|]; [reflexivity|].
  destruct (Ascii.eqb a "/"); reflexivity.
Qed.

Lemma location_clean_map (s : string) :
  location_clean s = str_map underscore_space_slash (str_filter not_comma s).
Proof.
  unfold location_clean. rewrite !replace_char_map, replace_char_filter.
  induction s as [|a t IH]; [reflexivity|].
  cbn [str_map str_filter]. unfold not_comma at 1.
  destruct (Ascii.eqb_spec a " ") as [->|Hs]; [cbn; now rewrite IH|].
  destruct (Ascii.eqb_spec a ",") as [->|Hc]; [cbn; now rewrite IH|].
  cbn [negb str_map]. rewrite IH. f_equal.
  unfold underscore_space_slash.
  destruct (Ascii.eqb_spec a " "); [contradiction|].
  destruct (Ascii.eqb a "/"); reflexivity.
Qed.

Lemma digit_is_digit (n : nat) : is_digit (digit n) = true.
Proof.
  unfold digit. pose proof (Nat.mod_upper_bound n 10 ltac:(lia)) as H.
  remember (n mod 10) as r eqn:Hr. clear Hr.
  do 10 (destruct r as [|r]; [reflexivity|]). lia.
Qed.

Lemma strftime_compact_shape (now : datetime) :
  compact_shape (strftime_compact now) = true.
Proof.
  unfold strftime_compact, digits4, digits2. cbn [append compact_shape forallb].
  rewrite !digit_is_digit. reflexivity.
Qed.

(** C9, as the specification words it, fails: in a job title a slash
    becomes an underscore and a comma stays. *)
Lemma filename_strips_counterexample :
  output_filename "a/b,c" "x"
    {| year := 2024; month := 1; day := 2; hour := 3; minute := 4; second := 5;
       microsecond := 0 |}
  <> spec_filename "a/b,c" "x"
    {| year := 2024; month := 1; day := 2; hour := 3; minute := 4; second := 5;
       microsecond := 0 |}.
Proof. vm_compute. discriminate. Qed.

(** C9, amended.  The file name is [data/indeed_jobs_<title>_<location>_<stamp>.json]
    where <title> is the job title with every space and every slash turned
    into an underscore, <location> is the location with its commas removed
    and every space and every slash turned into an underscore, and <stamp>
    has the shape YYYYMMDD_HHMMSS. *)
Theorem output_filename_spec (job_title location : string) (now : datetime) :
  output_filename job_title location now
  = ("data/indeed_jobs_" ++ str_map underscore_space_slash job_title ++ "_"
     ++ str_map underscore_space_slash (str_filter not_comma location) ++ "_"
     ++ strftime_compact now ++ ".json")%string
  /\ compact_shape (strftime_compact now) = true.
Proof.
  split; [|apply strftime_compact_shape].
  unfold output_filename. now rewrite job_title_clean_map, location_clean_map.
Qed.

(** ** The detail fetcher *)

Lemma first_match_filled (top nested : list (string * json))
    (cands : list (container * string)) :
  truthy (first_match top nested cands) = true
  \/ first_match top nested cands = JStr "".
Proof.
  induction cands as [|[c k] rest IH]; simpl; [now right|].
  destruct (dict_get k _) as [v|]; [|exact IH].
  destruct (truthy v) eqn:Hv; [now left|exact IH].
Qed.

Lemma first_match_app (top nested : list (string * json))
    (c1 c2 : list (container * string)) :
  first_match top nested (c1 ++ c2)
  = if truthy (first_match top nested c1) then first_match top nested c1
    else first_match top nested c2.
Proof.
  induction c1 as [|[c k] rest IH]; simpl; [reflexivity|].
  destruct (dict_get k _) as [v|]; [|exact IH].
  destruct (truthy v) eqn:Hv; [now rewrite Hv|exact IH].
Qed.

(** On a dict, [pick] never raises and returns the first truthy value. *)
Lemma pick_object (top nested : list (string * json)) (c : container)
    (keys : list string) :
  pick (JObj (match c with TopLevel => top | UnderJob => nested end)) keys
  = Ok (first_match top nested (map (pair c) keys)).
Proof.
  induction keys as [|k rest IH]; simpl; [reflexivity|].
  destruct (dict_get k _) as [v|]; simpl; [|exact IH].
  destruct (truthy v); [reflexivity|exact IH].
Qed.

Lemma or_else_object (top nested : list (string * json)) (k1 k2 : list string) :
  or_else (pick (JObj top) k1) (pick (JObj nested) k2)
  = Ok (first_match top nested (map (pair TopLevel) k1 ++ map (pair UnderJob) k2)).
Proof.
  rewrite (pick_object top nested TopLevel k1), (pick_object top nested UnderJob k2).
  unfold or_else. simpl. rewrite first_match_app.
  destruct (truthy (first_match top nested (map (pair TopLevel) k1))); reflexivity.
Qed.

Lemma py_or_filled (v : json) :
  truthy v = true \/ v = JStr "" -> py_or v (JStr "") = v.
Proof. unfold py_or. intros [H| ->]; [now rewrite H|reflexivity]. Qed.

Lemma py_or_not_null (v : json) :
  py_or v (JStr "") <> JNull
  /\ (truthy (py_or v (JStr "")) = true \/ py_or v (JStr "") = JStr "").
Proof.
  unfold py_or. destruct (truthy v) eqn:Hv.
  - split; [|now left]. intros ->. discriminate.
  - split; [discriminate|now right].
Qed.

(** A response whose top level is a dict and whose ["job"] entry, if any, is
    a dict yields the JobDetail of the candidate table. *)
Lemma fetch_job_details_object {U : Urllib} (api_key job_url : string) (v : json)
    (top nested : list (string * json)) :
  py_or v (JObj []) = JObj top ->
  nested_object top = JObj nested ->
  fetch_job_details api_key job_url (Reply 200 (Some v))
  = Ok (Some (job_detail top nested job_url)).
Proof.
  intros Hv Hn. unfold fetch_job_details.
  cbn [Z.eqb Pos.eqb negb]. rewrite Hv. cbn [py_get bind].
  fold (nested_object top). rewrite Hn.
  rewrite !or_else_object. cbn [bind map app].
  unfold job_detail, candidates.
  rewrite !py_or_filled by apply first_match_filled.
  reflexivity.
Qed.

(** Whatever the response, a returned JobDetail has its four fields, none of
    them null. *)
Lemma fetch_job_details_fields {U : Urllib} (api_key job_url : string)
    (resp : response) (detail : json) (f : field) :
  fetch_job_details api_key job_url resp = Ok (Some detail) ->
  exists v, json_field (field_name f) detail = Some v
            /\ v <> JNull
            /\ (truthy v = true \/ v = JStr "").
Proof.
  unfold fetch_job_details.
  destruct resp as [| |status_code [v|]]; try discriminate.
  2:{ destruct (negb (status_code =? 200)%Z); discriminate. }
  destruct (negb (status_code =? 200)%Z); [discriminate|].
  destruct (py_get _ "job" _) as [nested|]; [|discriminate]. cbn [bind].
  destruct (or_else _ _) as [title|]; [|discriminate]. cbn [bind].
  destruct (or_else _ _) as [company|]; [|discriminate]. cbn [bind].
  destruct (or_else _ _) as [location|]; [|discriminate]. cbn [bind].
  destruct (or_else _ _) as [description|]; [|discriminate]. cbn [bind].
  intros H. inversion H; subst detail. clear H.
  destruct f; cbn; eexists; (split; [reflexivity|apply py_or_not_null]).
Qed.

Lemma first_match_cons (top nested : list (string * json))
    (c : container * string) (x y : list (container * string)) :
  first_match top nested x = first_match top nested y ->
  first_match top nested (c :: x) = first_match top nested (c :: y).
Proof. intros H. destruct c as [c k]. simpl. now rewrite H. Qed.

Lemma first_match_skip (top nested : list (string * json)) (k : string)
    (rest : list (container * string)) :
  match dict_get k top with Some v => negb (truthy v) | None => true end = true ->
  first_match top nested ((TopLevel, k) :: rest) = first_match top nested rest.
Proof.
  simpl. destruct (dict_get k top) as [v|]; [|reflexivity].
  intros H. apply negb_true_iff in H. now rewrite H.
Qed.

(** Where the top level gives nothing under an alternate key, the search
    of the specification and the search of the code find the same. *)
Lemma claimed_job_detail_agrees {U : Urllib} (top nested : list (string * json))
    (job_url : string) :
  no_top_alternates top = true ->
  claimed_job_detail top nested job_url = job_detail top nested job_url.
Proof.
  unfold no_top_alternates. cbn [forallb]. intros H.
  apply andb_prop in H. destruct H as [H1 H].
  apply andb_prop in H. destruct H as [H2 H].
  apply andb_prop in H. destruct H as [H3 H].
  apply andb_prop in H. destruct H as [H4 _].
  assert (E1 : first_match top nested (claimed_candidates Title)
               = first_match top nested (candidates Title)).
  { apply first_match_cons. now apply first_match_skip. }
  assert (E2 : first_match top nested (claimed_candidates Company)
               = first_match top nested (candidates Company)).
  { apply first_match_cons.
    change (first_match top nested
              ((TopLevel, "companyName") :: (TopLevel, "company_name")
               :: map (pair UnderJob) (fallback_keys Company))
            = first_match top nested (map (pair UnderJob) (fallback_keys Company))).
    rewrite first_match_skip by exact H2. now apply first_match_skip. }
  assert (E3 : first_match top nested (claimed_candidates Location)
               = first_match top nested (candidates Location)).
  { apply first_match_cons. now apply first_match_skip. }
  unfold claimed_job_detail, job_detail. now rewrite E1, E2, E3.
Qed.

(** C5, as the specification words it, fails: a company name that the top
    level holds under the alternate key [companyName] is not found, since
    at the top level line 136 looks under [company] only. *)
Lemma fetch_job_details_top_alternate_counterexample :
  @fetch_job_details plain_urllib "key" "https://www.indeed.com/viewjob?jk=1"
    (Reply 200 (Some (JObj [("companyName", JStr "Y")])))
  <> Ok (Some (@claimed_job_detail plain_urllib [("companyName", JStr "Y")] []
                 "https://www.indeed.com/viewjob?jk=1"))
  /\ (exists detail,
        @fetch_job_details plain_urllib "key" "https://www.indeed.com/viewjob?jk=1"
          (Reply 200 (Some (JObj [("companyName", JStr "Y")])))
        = Ok (Some detail)
        /\ json_field "company" detail = Some (JStr ""))
  /\ json_field "company"
       (@claimed_job_detail plain_urllib [("companyName", JStr "Y")] []
          "https://www.indeed.com/viewjob?jk=1")
     = Some (JStr "Y").
Proof.
  split; [|split].
  - vm_compute. discriminate.
  - eexists. split; vm_compute; reflexivity.
  - vm_compute. reflexivity.
Qed.

(** C5, amended.  A 200 response whose body is an object (a falsy body
    counts as the empty object) and whose ["job"] entry is absent or an
    object yields the JobDetail in which every field is the first truthy
    value among its lookups in the order of the code - at the top level
    under the field's own key only (for the description under its three
    keys), then under ["job"] under the field's key and its alternates - and
    the empty string when there is none; this is the search of the
    specification whenever the top level gives nothing under an alternate
    key of the title, the company or the location;
    [{"job": {"jobTitle": "X", "company_name": "Y"}}] gives title "X" and
    company "Y"; [{}] gives four empty strings; and in every JobDetail the
    function returns the four fields are present and not null. *)
Theorem fetch_job_details_spec {U : Urllib} (api_key job_url : string) :
  (forall v top nested,
      py_or v (JObj []) = JObj top ->
      nested_object top = JObj nested ->
      fetch_job_details api_key job_url (Reply 200 (Some v))
      = Ok (Some (job_detail top nested job_url))
      /\ (no_top_alternates top = true ->
          fetch_job_details api_key job_url (Reply 200 (Some v))
          = Ok (Some (claimed_job_detail top nested job_url))))
  /\ (forall resp detail f,
        fetch_job_details api_key job_url resp = Ok (Some detail) ->
        exists v, json_field (field_name f) detail = Some v
                  /\ v <> JNull
                  /\ (truthy v = true \/ v = JStr ""))
  /\ (exists detail,
        fetch_job_details api_key job_url
          (Reply 200 (Some (JObj [("job", JObj [("jobTitle", JStr "X");
                                                ("company_name", JStr "Y")])])))
        = Ok (Some detail)
        /\ json_field "title" detail = Some (JStr "X")
        /\ json_field "company" detail = Some (JStr "Y"))
  /\ (exists detail,
        fetch_job_details api_key job_url (Reply 200 (Some (JObj [])))
        = Ok (Some detail)
        /\ forall f, json_field (field_name f) detail = Some (JStr "")).
Proof.
  split; [|split; [|split]].
  - intros v top nested Hv Hn.
    pose proof (fetch_job_details_object api_key job_url v top nested Hv Hn) as H.
    split; [exact H|]. intros Ha. now rewrite claimed_job_detail_agrees.
  - intros resp detail f. apply fetch_job_details_fields.
  - eexists. split; [|split].
    + apply fetch_job_details_object with
        (top := [("job", JObj [("jobTitle", JStr "X"); ("company_name", JStr "Y")])]);
        reflexivity.
    + reflexivity.
    + reflexivity.
  - eexists. split.
    + apply fetch_job_details_object with (top := []) (nested := []); reflexivity.
    + intros []; reflexivity.
Qed.

(** Witness of C5: a title at the top level, a company under ["job"]. *)
Lemma fetch_job_details_spec_witness :
  @fetch_job_details plain_urllib "key" "https://www.indeed.com/viewjob?jk=1"
    (Reply 200 (Some (JObj [("title", JStr "T");
                            ("job", JObj [("companyName", JStr "Y")])])))
  = Ok (Some (@claimed_job_detail plain_urllib
                [("title", JStr "T"); ("job", JObj [("companyName", JStr "Y")])]
                [("companyName", JStr "Y")]
                "https://www.indeed.com/viewjob?jk=1")).
Proof.
  exact (proj2 (proj1 (@fetch_job_details_spec plain_urllib "key"
                         "https://www.indeed.com/viewjob?jk=1")
                  (JObj [("title", JStr "T");
                         ("job", JObj [("companyName", JStr "Y")])])
                  [("title", JStr "T"); ("job", JObj [("companyName", JStr "Y")])]
                  [("companyName", JStr "Y")] eq_refl eq_refl)
           eq_refl).
Defined.

(** ** The URL normalizer *)

Lemma normalize_job_url_unfold {U : Urllib} (url : string) :
  normalize_job_url url
  = match urlparse url with
    | Ok parsed => or_input (normalize_parsed (parse_qs parsed.(query)) url) url
    | Raise _ => url
    end.
Proof. reflexivity. Qed.

Lemma normalize_parsed_unfold (qs : list (string * list string)) (url : string) :
  or_input (normalize_parsed qs url) url
  = match job_key qs with
    | Some jk => if str_truthy jk then canonical_url jk else mobile_rewrite url
    | None => mobile_rewrite url
    end.
Proof.
  unfold normalize_parsed, mobile_rewrite. destruct (job_key qs) as [jk|]; simpl.
  - destruct (str_truthy jk); [reflexivity|].
    now destruct (str_contains "/m/viewjob" url).
  - now destruct (str_contains "/m/viewjob" url).
Qed.

Lemma str_map_nonempty (f : ascii -> ascii) (s : string) :
  s <> EmptyString -> str_map f s <> EmptyString.
Proof. destruct s; [congruence|discriminate]. Qed.

Section ParseQs.
Context {U : Urllib}.

Lemma parse_pair_value (name_value n v : string) :
  In (n, v) (parse_pair name_value) -> v <> EmptyString.
Proof.
  unfold parse_pair. destruct (negb (str_truthy name_value)); [contradiction|].
  destruct (str_partition "=" name_value) as [[a b]|]; [|contradiction].
  destruct (str_truthy b) eqn:Hb; [|contradiction].
  intros [H|[]]. injection H as _ <-.
  apply unquote_nonempty.
  pose proof (replace_char_map "+" " " b) as E. unfold str_replace in E.
  rewrite E.
  apply str_map_nonempty. now apply str_truthy_true.
Qed.

Lemma parse_qsl_value (qs n v : string) :
  In (n, v) (parse_qsl qs) -> v <> EmptyString.
Proof.
  unfold parse_qsl. rewrite in_flat_map. intros [nv [_ H]].
  now apply parse_pair_value in H.
Qed.

Lemma dict_append_values (name value : string) (d : list (string * list string)) :
  value <> EmptyString -> values_nonempty d ->
  values_nonempty (dict_append name value d).
Proof.
  intros Hv. unfold values_nonempty.
  induction d as [|[k vs] r IH]; intros Hd; simpl.
  - repeat constructor; [discriminate|exact Hv].
  - inversion Hd as [|x l [Hne Hall] Hr]; subst.
    destruct (String.eqb k name).
    + constructor; [|exact Hr]. simpl in *. split.
      * now destruct vs.
      * apply Forall_app. split; [exact Hall|now constructor].
    + constructor; [now split|now apply IH].
Qed.

Lemma fold_append_values (pairs : list (string * string))
    (d : list (string * list string)) :
  (forall n v, In (n, v) pairs -> v <> EmptyString) ->
  values_nonempty d ->
  values_nonempty (fold_left (fun d nv => dict_append (fst nv) (snd nv) d) pairs d).
Proof.
  revert d. induction pairs as [|[n v] r IH]; intros d Hp Hd; simpl; [exact Hd|].
  apply IH.
  - intros n' v' Hin. apply (Hp n' v'). now right.
  - apply dict_append_values; [|exact Hd]. apply (Hp n v). now left.
Qed.

(** [parse_qs] keeps no blank value: every key it reports has a non-empty
    list of non-empty strings. *)
Lemma parse_qs_values (qs : string) : values_nonempty (parse_qs qs).
Proof.
  unfold parse_qs. apply fold_append_values; [|constructor].
  intros n v. apply parse_qsl_value.
Qed.
End ParseQs.

Lemma dict_get_in {V : Type} (k : string) (d : list (string * V)) (v : V) :
  dict_get k d = Some v -> In (k, v) d.
Proof.
  induction d as [|[a w] r IH]; simpl; [discriminate|].
  destruct (String.eqb_spec a k) as [->|].
  - intros H. inversion H. now left.
  - intros H. right. now apply IH.
Qed.

Lemma values_nonempty_get (d : list (string * list string)) (k : string)
    (vs : list string) :
  values_nonempty d -> dict_get k d = Some vs ->
  exists v rest, vs = v :: rest /\ v <> EmptyString.
Proof.
  intros Hd Hg. apply dict_get_in in Hg.
  unfold values_nonempty in Hd. rewrite Forall_forall in Hd.
  destruct (Hd _ Hg) as [Hne Hall]. simpl in *.
  destruct vs as [|v rest]; [congruence|].
  exists v, rest. split; [reflexivity|]. now inversion Hall.
Qed.

(** The job id read from [jk], else from [vjk]. *)
Lemma job_key_present {U : Urllib} (q : string) (vs : list string) :
  dict_get "jk" (parse_qs q) = Some vs
  \/ (dict_get "jk" (parse_qs q) = None /\ dict_get "vjk" (parse_qs q) = Some vs) ->
  exists v rest, vs = v :: rest /\ v <> EmptyString
                 /\ job_key (parse_qs q) = Some v.
Proof.
  intros [Hjk|[Hjk Hvjk]].
  - destruct (values_nonempty_get _ _ _ (parse_qs_values q) Hjk) as [v [rest [-> Hv]]].
    exists v, rest. repeat split; [exact Hv|].
    unfold job_key. rewrite Hjk. cbn [first_value opt_truthy].
    apply str_truthy_true in Hv. now rewrite Hv.
  - destruct (values_nonempty_get _ _ _ (parse_qs_values q) Hvjk) as [v [rest [-> Hv]]].
    exists v, rest. repeat split; [exact Hv|].
    unfold job_key. now rewrite Hjk, Hvjk.
Qed.

Lemma normalize_with_job_id {U : Urllib} (url : string) (parsed : SplitResult)
    (vs : list string) :
  urlparse url = Ok parsed ->
  dict_get "jk" (parse_qs parsed.(query)) = Some vs
  \/ (dict_get "jk" (parse_qs parsed.(query)) = None
      /\ dict_get "vjk" (parse_qs parsed.(query)) = Some vs) ->
  exists v rest, vs = v :: rest /\ v <> EmptyString
                 /\ normalize_job_url url = canonical_url v.
Proof.
  intros Hp Hq. destruct (job_key_present _ _ Hq) as [v [rest [-> [Hv Hk]]]].
  exists v, rest. repeat split; [exact Hv|].
  rewrite normalize_job_url_unfold, Hp, normalize_parsed_unfold, Hk.
  apply str_truthy_true in Hv. now rewrite Hv.
Qed.

Ltac eval_normalize :=
  cbv -[unquote]; rewrite ?unquote_plain by reflexivity;
  cbv -[unquote]; rewrite ?unquote_plain by reflexivity;
  try reflexivity.

Lemma normalize_click_url {U : Urllib} :
  normalize_job_url "https://www.indeed.com/rc/clk?jk=abc123&other=1"
  = "https://www.indeed.com/viewjob?jk=abc123".
Proof. eval_normalize. Qed.

Lemma normalize_mobile_with_id {U : Urllib} :
  normalize_job_url "https://www.indeed.com/m/viewjob?jk=xyz"
  = "https://www.indeed.com/viewjob?jk=xyz".
Proof. eval_normalize. Qed.

(** An empty [jk=] in the URL is dropped by [parse_qs]; the id comes from
    [vjk]. *)
Lemma normalize_blank_jk_url {U : Urllib} :
  normalize_job_url "https://www.indeed.com/viewjob?jk=&vjk=abc"
  = "https://www.indeed.com/viewjob?jk=abc".
Proof. eval_normalize. Qed.

(** An empty [jk=] and no [vjk]: the mobile-path rule applies. *)
Lemma normalize_blank_jk_mobile {U : Urllib} :
  normalize_job_url "https://www.indeed.com/m/viewjob?jk="
  = "https://www.indeed.com/viewjob?jk=".
Proof. eval_normalize. Qed.

(** An empty [jk=], no [vjk] and no mobile path: the input comes back. *)
Lemma normalize_blank_jk_unchanged {U : Urllib} :
  normalize_job_url "https://www.indeed.com/viewjob?jk="
  = "https://www.indeed.com/viewjob?jk=".
Proof. eval_normalize. Qed.

Section FilledPairs.
Context {U : Urllib}.

(** [parse_qsl] drops the pieces without a value and decodes the others. *)
Lemma parse_pair_segment (seg : string) :
  parse_pair seg = if blank_segment seg then [] else [segment_pair seg].
Proof.
  unfold parse_pair, blank_segment, segment_pair.
  destruct (str_truthy seg) eqn:Ht; cbn [negb].
  - destruct (str_partition "=" seg) as [[n v]|]; [|reflexivity].
    destruct (str_truthy v); reflexivity.
  - apply str_truthy_false in Ht. subst seg. reflexivity.
Qed.

Lemma parse_qsl_filled (qs : string) : parse_qsl qs = filled_pairs qs.
Proof.
  unfold parse_qsl, filled_pairs, query_segments.
  generalize (if str_truthy qs then str_split "&" qs else []). intros segs.
  induction segs as [|seg rest IH]; [reflexivity|].
  cbn [flat_map filter]. rewrite parse_pair_segment.
  destruct (blank_segment seg); cbn [negb map app]; now rewrite IH.
Qed.

Lemma dict_get_append (k n v : string) (d : list (string * list string)) :
  dict_get k (dict_append n v d)
  = if String.eqb n k
    then Some (match dict_get k d with Some vs => vs ++ [v] | None => [v] end)
    else dict_get k d.
Proof.
  induction d as [|[a vs] r IH]; cbn [dict_append dict_get].
  - destruct (String.eqb n k); reflexivity.
  - destruct (String.eqb_spec a n) as [->|Han]; cbn [dict_get].
    + destruct (String.eqb n k); reflexivity.
    + rewrite IH. destruct (String.eqb_spec a k) as [->|Hak]; [|reflexivity].
      destruct (String.eqb_spec n k) as [->|]; [now elim Han|reflexivity].
Qed.

Lemma dict_get_fold (k : string) (pairs : list (string * string)) :
  forall d,
    dict_get k (fold_left (fun d nv => dict_append (fst nv) (snd nv) d) pairs d)
    = match dict_get k d, values_named k pairs with
      | Some vs, l => Some (vs ++ l)
      | None, [] => None
      | None, l => Some l
      end.
Proof.
  unfold values_named.
  induction pairs as [|[n v] rest IH]; intros d; cbn [fold_left filter map fst snd].
  - destruct (dict_get k d) as [vs|]; [now rewrite app_nil_r|reflexivity].
  - rewrite IH, dict_get_append. cbn [fst snd].
    destruct (String.eqb n k); cbn [map].
    + destruct (dict_get k d) as [vs|]; [now rewrite <- app_assoc|reflexivity].
    + reflexivity.
Qed.

(** The first value [parse_qs] reports for a name is the value of the
    first piece with that name that has a value. *)
Lemma first_value_parse_qs (k qs : string) :
  first_value (dict_get k (parse_qs qs)) = first_named k (filled_pairs qs).
Proof.
  unfold parse_qs. rewrite dict_get_fold, parse_qsl_filled. cbn [dict_get].
  unfold values_named, first_named.
  induction (filled_pairs qs) as [|[n v] rest IH]; [reflexivity|].
  cbn [filter find fst snd]. destruct (String.eqb n k); [reflexivity|exact IH].
Qed.

Lemma first_named_filled (k qs v : string) :
  first_named k (filled_pairs qs) = Some v -> v <> EmptyString.
Proof.
  unfold first_named.
  destruct (find _ (filled_pairs qs)) as [[n w]|] eqn:Hf; [|discriminate].
  intros H. inversion H; subst w. apply find_some in Hf. destruct Hf as [Hin _].
  rewrite <- parse_qsl_filled in Hin. now apply (parse_qsl_value qs n v).
Qed.

(** The job id of a query: the first [jk] with a value, else the first
    [vjk] with a value. *)
Lemma job_key_filled (qs : string) :
  job_key (parse_qs qs)
  = match first_named "jk" (filled_pairs qs) with
    | Some v => Some v
    | None => first_named "vjk" (filled_pairs qs)
    end.
Proof.
  unfold job_key. rewrite !first_value_parse_qs.
  destruct (first_named "jk" (filled_pairs qs)) as [v|] eqn:Hjk; [|reflexivity].
  apply first_named_filled in Hjk. apply str_truthy_true in Hjk.
  cbn [opt_truthy]. now rewrite Hjk.
Qed.

(** C10, amended.  A parameter with an empty value is dropped before the
    job id is looked for - it behaves as if absent: for every URL that
    parses, the result is the canonical URL of the first [jk] that has a
    value, a later one included; else that of the first [vjk] that has a
    value; else the mobile-path rewrite; else the input.  A value that is
    used is never empty, and on URLs with an empty [jk=] the three outcomes
    of the specification are observed. *)
Theorem empty_jk_falls_through :
  (forall url parsed,
      urlparse url = Ok parsed ->
      normalize_job_url url
      = match first_named "jk" (filled_pairs parsed.(query)) with
        | Some v => canonical_url v
        | None =>
            match first_named "vjk" (filled_pairs parsed.(query)) with
            | Some v => canonical_url v
            | None => mobile_rewrite url
            end
        end)
  /\ (forall k qs v, first_named k (filled_pairs qs) = Some v -> v <> EmptyString)
  /\ normalize_job_url "https://www.indeed.com/viewjob?jk=&vjk=abc"
     = "https://www.indeed.com/viewjob?jk=abc"
  /\ normalize_job_url "https://www.indeed.com/m/viewjob?jk="
     = "https://www.indeed.com/viewjob?jk="
  /\ normalize_job_url "https://www.indeed.com/viewjob?jk="
     = "https://www.indeed.com/viewjob?jk=".
Proof.
  split; [|split; [exact first_named_filled|
                   split; [apply normalize_blank_jk_url|
                           split; [apply normalize_blank_jk_mobile|
                                   apply normalize_blank_jk_unchanged]]]].
  intros url parsed Hp.
  rewrite normalize_job_url_unfold, Hp, normalize_parsed_unfold, job_key_filled.
  destruct (first_named "jk" (filled_pairs parsed.(query))) as [v|] eqn:Hjk.
  - apply first_named_filled in Hjk. apply str_truthy_true in Hjk. now rewrite Hjk.
  - destruct (first_named "vjk" (filled_pairs parsed.(query))) as [v|] eqn:Hv;
      [|reflexivity].
    apply first_named_filled in Hv. apply str_truthy_true in Hv. now rewrite Hv.
Qed.
End FilledPairs.

(** C10, as the specification words it, fails: behind an empty [jk=] a
    later [jk=abc] gives the job id, not the [vjk] value. *)
Lemma empty_jk_later_value_counterexample :
  first_raw_value "jk" (query_segments "jk=&jk=abc&vjk=zzz") = Some EmptyString
  /\ @normalize_job_url plain_urllib
       "https://www.indeed.com/viewjob?jk=&jk=abc&vjk=zzz"
     = "https://www.indeed.com/viewjob?jk=abc"
  /\ claimed_empty_jk_result "https://www.indeed.com/viewjob?jk=&jk=abc&vjk=zzz"
       "jk=&jk=abc&vjk=zzz"
     = "https://www.indeed.com/viewjob?jk=zzz"
  /\ @normalize_job_url plain_urllib
       "https://www.indeed.com/viewjob?jk=&jk=abc&vjk=zzz"
     <> claimed_empty_jk_result "https://www.indeed.com/viewjob?jk=&jk=abc&vjk=zzz"
          "jk=&jk=abc&vjk=zzz".
Proof.
  split; [|split; [|split]]; vm_compute; first [reflexivity | discriminate].
Qed.

(** Witness of C10: an empty [jk=] before [vjk=abc] on a mobile path. *)
Lemma empty_jk_falls_through_witness :
  @normalize_job_url plain_urllib "https://www.indeed.com/m/viewjob?jk=&vjk=abc"
  = canonical_url "abc".
Proof.
  exact (proj1 (@empty_jk_falls_through plain_urllib)
           "https://www.indeed.com/m/viewjob?jk=&vjk=abc"
           {| scheme := "https"; netloc := "www.indeed.com"; path := "/m/viewjob";
              query := "jk=&vjk=abc"; fragment := "" |}
           eq_refl).
Defined.

(** C4.  When the parsed query of a URL has a [jk] parameter, or else a
    [vjk] parameter, the normalizer returns [https://www.indeed.com/viewjob?jk=]
    followed by the first value of that parameter, whatever the path and the
    other parameters are; the rule applies before the mobile-path rule; and
    the two URLs of the specification normalize as it says. *)
Theorem normalize_job_id_spec {U : Urllib} :
  (forall url parsed vs,
      urlparse url = Ok parsed ->
      dict_get "jk" (parse_qs parsed.(query)) = Some vs
      \/ (dict_get "jk" (parse_qs parsed.(query)) = None
          /\ dict_get "vjk" (parse_qs parsed.(query)) = Some vs) ->
      exists v rest, vs = v :: rest /\ v <> EmptyString
                     /\ normalize_job_url url = canonical_url v)
  /\ normalize_job_url "https://www.indeed.com/rc/clk?jk=abc123&other=1"
     = "https://www.indeed.com/viewjob?jk=abc123"
  /\ normalize_job_url "https://www.indeed.com/m/viewjob?jk=xyz"
     = "https://www.indeed.com/viewjob?jk=xyz".
Proof.
  split; [|split].
  - intros url parsed vs. apply normalize_with_job_id.
  - apply normalize_click_url.
  - apply normalize_mobile_with_id.
Qed.

(** Witness of C4: a URL whose id comes from [vjk]. *)
Lemma normalize_job_id_spec_witness :
  exists v rest,
    ["q1"; "q2"] = v :: rest /\ v <> EmptyString
    /\ @normalize_job_url plain_urllib "https://www.indeed.com/m/viewjob?x=1&vjk=q1&vjk=q2"
       = canonical_url v.
Proof.
  refine (proj1 (@normalize_job_id_spec plain_urllib)
            "https://www.indeed.com/m/viewjob?x=1&vjk=q1&vjk=q2"
            {| scheme := "https"; netloc := "www.indeed.com"; path := "/m/viewjob";
               query := "x=1&vjk=q1&vjk=q2"; fragment := "" |}
            ["q1"; "q2"] _ _).
  - vm_compute. reflexivity.
  - right. split; vm_compute; reflexivity.
Defined.

(** ** The listing fetcher *)

(** *** Equality of URL values *)

Lemma py_eqb_sym (a b : json) : py_eqb a b = py_eqb b a.
Proof.
  destruct a, b; simpl; try reflexivity.
  - now destruct b, b0.
  - apply Z.eqb_sym.
  - apply Z.eqb_sym.
  - apply Z.eqb_sym.
  - apply String.eqb_sym.
Qed.

Lemma py_eqb_trans (a b c : json) :
  py_eqb a b = true -> py_eqb b c = true -> py_eqb a c = true.
Proof.
  destruct a as [|x|n|s|l|m], b as [|y|p|t|l'|m']; simpl; try discriminate;
    destruct c as [|z|q|u|l''|m'']; simpl; try discriminate;
    rewrite ?Z.eqb_eq, ?String.eqb_eq, ?Bool.eqb_true_iff; intros; subst;
    repeat match goal with v : bool |- _ => destruct v end;
    simpl in *; try reflexivity; try congruence; try lia.
Qed.

(** Two strings are equal values exactly when they are the same string. *)
Lemma py_eqb_str (s t : string) : py_eqb (JStr s) (JStr t) = true <-> s = t.
Proof. simpl. apply String.eqb_eq. Qed.

Lemma set_mem_equal (x y : json) (seen : list json) :
  py_eqb x y = true -> set_mem x seen = true -> set_mem y seen = true.
Proof.
  unfold set_mem. rewrite !existsb_exists. intros Hxy [s [Hin Hs]].
  exists s. split; [exact Hin|].
  apply py_eqb_trans with x; [|exact Hs]. now rewrite py_eqb_sym.
Qed.

(** *** The running deduplication is first-seen order *)

Lemma filter_filter {A : Type} (p q : A -> bool) (l : list A) :
  filter p (filter q l) = filter (fun x => q x && p x) l.
Proof.
  induction l as [|x t IH]; simpl; [reflexivity|].
  destruct (q x); simpl; [destruct (p x)|]; now rewrite ?IH.
Qed.

Lemma filter_same {A : Type} (p q : A -> bool) (l : list A) :
  (forall x, In x l -> p x = q x) -> filter p l = filter q l.
Proof.
  induction l as [|x t IH]; intros H; simpl; [reflexivity|].
  rewrite (H x) by now left. rewrite IH; [reflexivity|].
  intros y Hy. apply H. now right.
Qed.

Lemma fresh_urls_first_seen (us seen : list json) :
  fresh_urls seen us = filter (fun u => negb (set_mem u seen)) (first_seen us).
Proof.
  revert seen. induction us as [|x r IH]; intros seen; simpl; [reflexivity|].
  destruct (set_mem x seen) eqn:Hx; simpl.
  - rewrite IH, filter_filter. apply filter_same. intros y _.
    destruct (py_eqb x y) eqn:Hxy; simpl; [|reflexivity].
    now rewrite (set_mem_equal x y seen Hxy Hx).
  - f_equal. rewrite IH, filter_filter. apply filter_same. intros y _.
    simpl. rewrite (py_eqb_sym y x).
    now destruct (py_eqb x y), (set_mem y seen).
Qed.

Lemma fresh_urls_nil (us : list json) : fresh_urls [] us = first_seen us.
Proof.
  rewrite fresh_urls_first_seen. simpl.
  induction (first_seen us) as [|x t IH]; simpl; [reflexivity|now rewrite IH].
Qed.

Lemma fresh_urls_app (a b seen : list json) :
  fresh_urls seen (a ++ b)
  = fresh_urls seen a ++ fresh_urls (rev (fresh_urls seen a) ++ seen) b.
Proof.
  revert seen. induction a as [|x r IH]; intros seen; simpl; [reflexivity|].
  destruct (set_mem x seen) eqn:Hx; [apply IH|].
  simpl. f_equal. rewrite IH. now rewrite <- app_assoc.
Qed.

(** *** One page *)

Lemma scan_jobs_spec (jobs seen new seen' new' : list json) :
  scan_jobs jobs seen new = Ok (seen', new') ->
  new' = new ++ fresh_urls seen (filter truthy (map item_url jobs))
  /\ seen' = rev (fresh_urls seen (filter truthy (map item_url jobs))) ++ seen.
Proof.
  revert seen new. induction jobs as [|j rest IH]; intros seen new; simpl.
  - intros H. inversion H; subst. now rewrite app_nil_r.
  - destruct j as [| | | | |items]; simpl; try discriminate.
    set (u := match dict_get "url" items with Some v => v | None => JNull end).
    destruct (truthy u) eqn:Hu; simpl; [|apply IH].
    destruct (hashable u); simpl; [|discriminate].
    destruct (set_mem u seen) eqn:Hm; [apply IH|].
    intros H. apply IH in H. destruct H as [-> ->]. simpl.
    now rewrite <- !app_assoc.
Qed.

(** What a turn of the loop does with a response: it stops with what was
    collected, or an exception leaves the function, or the page is scanned
    and the limit decides. *)
Lemma loop_body_cases (st : loop_state) (resp : response) :
  (page_urls resp = [] /\ forall limit, loop_body limit st resp = Break st.(collected))
  \/ (exists e, forall limit, loop_body limit st resp = Throw e)
  \/ (exists seen' new,
        scan_jobs (page_jobs resp) st.(seen) [] = Ok (seen', new)
        /\ forall limit,
            loop_body limit st resp =
            if limit_reached limit (st.(collected) ++ new)
            then Break (match limit with
                        | Some n => slice_to n (st.(collected) ++ new)
                        | None => st.(collected) ++ new
                        end)
            else Continue {| collected := st.(collected) ++ new;
                             seen := seen';
                             start := st.(start) + raw_length resp;
                             page_idx := S st.(page_idx) |}).
Proof.
  unfold page_urls, raw_length.
  destruct resp as [| |status_code [v|]]; simpl.
  - left. split; [reflexivity|]. reflexivity.
  - left. split; [reflexivity|]. reflexivity.
  - destruct (status_code =? 200)%Z; simpl.
    2:{ left. split; reflexivity. }
    destruct (py_or v (JObj [])) as [| | | | |items]; simpl;
      try (right; left; eexists; intros; reflexivity).
    set (got := match dict_get "jobs" items with Some w => w | None => JArr [] end).
    destruct got as [|b|n|s|l|m]; simpl.
    + left. split; reflexivity.
    + destruct b; simpl.
      * right. left. eexists. intros. reflexivity.
      * left. split; reflexivity.
    + destruct n as [|p|p]; simpl.
      * left. split; reflexivity.
      * right. left. eexists. intros. reflexivity.
      * right. left. eexists. intros. reflexivity.
    + unfold py_or. simpl. destruct s as [|c t]; simpl.
      * left. split; reflexivity.
      * right. left. eexists. intros. reflexivity.
    + unfold py_or. simpl. destruct l as [|j rest].
      * left. split; reflexivity.
      * cbn [negb truthy py_iter bind].
        destruct (scan_jobs (j :: rest) (seen st) []) as [[seen' new]|e] eqn:Hs.
        -- right. right. exists seen', new. split; [reflexivity|].
           intros limit. reflexivity.
        -- right. left. exists e. intros. reflexivity.
    + unfold py_or. simpl. destruct m as [|[k w] rest]; simpl.
      * left. split; reflexivity.
      * right. left. eexists. intros. reflexivity.
  - destruct (status_code =? 200)%Z; simpl.
    + right. left. eexists. intros. reflexivity.
    + left. split; reflexivity.
Qed.

Lemma page_urls_unfold (resp : response) :
  page_urls resp = filter truthy (map item_url (page_jobs resp)).
Proof. reflexivity. Qed.

(** A turn that goes on has appended the fresh URLs of the page and moved
    the offset by the raw length of the page. *)
Lemma loop_body_continue (limit : option Z) (st st' : loop_state) (resp : response) :
  loop_body limit st resp = Continue st' ->
  st'.(collected) = st.(collected) ++ fresh_urls st.(seen) (page_urls resp)
  /\ st'.(seen) = rev (fresh_urls st.(seen) (page_urls resp)) ++ st.(seen)
  /\ st'.(start) = st.(start) + raw_length resp
  /\ limit_reached limit st'.(collected) = false.
Proof.
  destruct (loop_body_cases st resp) as [[_ Hb]|[[e Hb]|[seen' [new [Hs Hb]]]]];
    rewrite (Hb limit); try discriminate.
  apply scan_jobs_spec in Hs. rewrite <- page_urls_unfold in Hs.
  destruct Hs as [-> ->]. simpl.
  destruct (limit_reached limit _) eqn:Hl; [discriminate|].
  intros H. inversion H; subst st'. simpl. auto.
Qed.

(** A turn that stops returns what was collected, the page adding nothing,
    or the first [n] URLs once the limit [n] is reached. *)
Lemma loop_body_break (limit : option Z) (st : loop_state) (resp : response)
    (urls : list json) :
  loop_body limit st resp = Break urls ->
  (page_urls resp = [] /\ urls = st.(collected))
  \/ (exists n, limit = Some n
                /\ limit_reached limit
                     (st.(collected) ++ fresh_urls st.(seen) (page_urls resp)) = true
                /\ urls = slice_to n (st.(collected)
                                      ++ fresh_urls st.(seen) (page_urls resp))).
Proof.
  destruct (loop_body_cases st resp) as [[Hu Hb]|[[e Hb]|[seen' [new [Hs Hb]]]]];
    rewrite (Hb limit); try discriminate.
  - intros H. inversion H. now left.
  - apply scan_jobs_spec in Hs. rewrite <- page_urls_unfold in Hs.
    destruct Hs as [-> ->]. simpl.
    destruct (limit_reached limit _) eqn:Hl; [|discriminate].
    intros H. inversion H. right.
    destruct limit as [n|]; [|discriminate]. exists n. auto.
Qed.

(** With a limit, a page that would have brought the count to the limit
    stops the loop with the first [n] URLs. *)
Lemma loop_body_reaches (n : Z) (st st2 : loop_state) (page : response) :
  loop_body None st page = Continue st2 ->
  limit_reached (Some n) st2.(collected) = true ->
  loop_body (Some n) st page = Break (slice_to n st2.(collected)).
Proof.
  destruct (loop_body_cases st page) as [[_ Hb]|[[e Hb]|[seen' [new [Hs Hb]]]]];
    rewrite (Hb None), ?(Hb (Some n)); try discriminate.
  simpl. intros H. inversion H; subst st2. simpl. intros ->. reflexivity.
Qed.

Lemma slice_to_firstn {A : Type} (n : Z) (l : list A) :
  exists k, slice_to n l = firstn k l.
Proof. unfold slice_to. destruct (n <? 0)%Z; eauto. Qed.

Lemma slice_to_length {A : Type} (n : Z) (l : list A) :
  (1 <= n)%Z -> (Z.of_nat (List.length (slice_to n l)) <= n)%Z.
Proof.
  intros Hn. unfold slice_to. destruct (Z.ltb_spec n 0); [lia|].
  rewrite length_firstn. lia.
Qed.

Lemma slice_to_reached {A : Type} (n : Z) (l : list A) :
  (1 <= n)%Z -> (n <= Z.of_nat (List.length l))%Z ->
  slice_to n l = firstn (Z.to_nat n) l /\ List.length (slice_to n l) = Z.to_nat n.
Proof.
  intros Hn Hl. unfold slice_to. destruct (Z.ltb_spec n 0); [lia|].
  split; [reflexivity|]. rewrite length_firstn. lia.
Qed.

(** *** The loop *)

Section ListingLoop.
Variables (api_key job_title location domain : string).

Abbreviation loop limit := (listing_loop api_key job_title location limit domain).
Abbreviation request_of st := (listing_request api_key job_title location domain st).

Lemma listing_loop_nil (limit : option Z) (st : loop_state) :
  loop limit st [] = (Waiting st, [request_of st]).
Proof. reflexivity. Qed.

Lemma listing_loop_cons (limit : option Z) (st : loop_state) (resp : response)
    (rest : list response) :
  loop limit st (resp :: rest)
  = match loop_body limit st resp with
    | Continue st' =>
        let (o, reqs) := loop limit st' rest in (o, request_of st :: reqs)
    | Break urls => (Returned urls, [request_of st])
    | Throw e => (Raised e, [request_of st])
    end.
Proof. reflexivity. Qed.

(** What is returned is a prefix of what the consumed pages accumulate,
    and all of it when there is no limit. *)
Lemma listing_loop_returned (limit : option Z) (script : list response) :
  forall st urls reqs,
    loop limit st script = (Returned urls, reqs) ->
    let acc := st.(collected)
               ++ fresh_urls st.(seen)
                    (flat_map page_urls (firstn (List.length reqs) script)) in
    (exists k, urls = firstn k acc) /\ (limit = None -> urls = acc).
Proof.
  induction script as [|resp rest IH]; intros st urls reqs.
  - rewrite listing_loop_nil. discriminate.
  - rewrite listing_loop_cons.
    destruct (loop_body limit st resp) as [st'|urls'|e] eqn:Hb.
    + destruct (loop limit st' rest) as [o reqs'] eqn:Hl.
      intros H. inversion H; subst o reqs. clear H.
      apply loop_body_continue in Hb. destruct Hb as [Hc [Hs _]].
      specialize (IH _ _ _ Hl). cbn zeta in IH. rewrite Hc, Hs in IH.
      cbn [List.length firstn flat_map]. cbn zeta.
      now rewrite fresh_urls_app, app_assoc.
    + intros H. inversion H; subst urls' reqs. clear H.
      cbn [List.length firstn flat_map]. cbn zeta. rewrite app_nil_r.
      apply loop_body_break in Hb.
      destruct Hb as [[Hu ->]|[n [-> [_ ->]]]].
      * rewrite Hu. simpl. rewrite app_nil_r. split; [|reflexivity].
        exists (List.length st.(collected)). now rewrite firstn_all.
      * split; [apply slice_to_firstn|discriminate].
    + discriminate.
Qed.

(** With a limit of at least 1, no more than the limit is returned. *)
Lemma listing_loop_bound (n : Z) (script : list response) :
  (1 <= n)%Z ->
  forall st urls reqs,
    limit_reached (Some n) st.(collected) = false ->
    loop (Some n) st script = (Returned urls, reqs) ->
    (Z.of_nat (List.length urls) <= n)%Z.
Proof.
  intros Hn. induction script as [|resp rest IH]; intros st urls reqs Hst.
  - rewrite listing_loop_nil. discriminate.
  - rewrite listing_loop_cons.
    destruct (loop_body (Some n) st resp) as [st'|urls'|e] eqn:Hb.
    + destruct (loop (Some n) st' rest) as [o reqs'] eqn:Hl.
      intros H. inversion H; subst o reqs. clear H.
      apply loop_body_continue in Hb. destruct Hb as [_ [_ [_ Hr]]].
      exact (IH _ _ _ Hr Hl).
    + intros H. inversion H; subst urls' reqs. clear H.
      apply loop_body_break in Hb.
      destruct Hb as [[_ ->]|[m [Hm [_ ->]]]].
      * simpl in Hst. apply Z.leb_gt in Hst. lia.
      * inversion Hm; subst m. now apply slice_to_length.
    + discriminate.
Qed.

(** The loop stops at the page on which the body breaks: the responses
    after it are not consumed and no further request is issued. *)
Lemma listing_loop_stops (limit : option Z) (pre : list response) :
  forall st st' reqs page rest urls,
    loop limit st pre = (Waiting st', reqs) ->
    loop_body limit st' page = Break urls ->
    loop limit st (pre ++ page :: rest) = (Returned urls, reqs).
Proof.
  induction pre as [|resp pre' IH]; intros st st' reqs page rest urls.
  - rewrite listing_loop_nil. intros H Hb. inversion H; subst st' reqs.
    simpl app. rewrite listing_loop_cons, Hb. reflexivity.
  - rewrite listing_loop_cons. simpl app. rewrite listing_loop_cons.
    destruct (loop_body limit st resp) as [st1|urls1|e]; try discriminate.
    destruct (loop limit st1 pre') as [o reqs1] eqn:Hl.
    intros H Hb. inversion H; subst o reqs. clear H.
    now rewrite (IH _ _ _ page rest _ Hl Hb).
Qed.

(** Every request carries the offset reached by the raw lengths of the
    pages before it. *)
Lemma listing_loop_offsets (limit : option Z) (script : list response) :
  forall st o reqs k req,
    loop limit st script = (o, reqs) ->
    nth_error reqs k = Some req ->
    req = {| req_url := listing_url job_title location domain
                          (st.(start) + sum_list (map raw_length (firstn k script)));
             req_api_key := api_key |}.
Proof.
  assert (Hhere : forall st k req (l : list response),
             nth_error [request_of st] k = Some req ->
             req = {| req_url := listing_url job_title location domain
                                   (st.(start) + sum_list (map raw_length (firstn k l)));
                      req_api_key := api_key |}).
  { intros st [|k] req l; simpl.
    - intros H. inversion H. unfold request_of, listing_request.
      now rewrite Nat.add_0_r.
    - destruct k; discriminate. }
  induction script as [|resp rest IH]; intros st o reqs k req.
  - rewrite listing_loop_nil. intros H. inversion H; subst. apply Hhere.
  - rewrite listing_loop_cons.
    destruct (loop_body limit st resp) as [st'|urls'|e] eqn:Hb.
    + destruct (loop limit st' rest) as [o' reqs'] eqn:Hl.
      intros H. inversion H; subst o reqs. clear H.
      destruct k as [|k]; simpl.
      * intros H. inversion H. unfold request_of, listing_request.
        now rewrite Nat.add_0_r.
      * intros Hk. rewrite (IH _ _ _ _ _ Hl Hk).
        apply loop_body_continue in Hb. destruct Hb as [_ [_ [-> _]]].
        now rewrite Nat.add_assoc.
    + intros H. inversion H; subst. apply Hhere.
    + intros H. inversion H; subst. apply Hhere.
Qed.
End ListingLoop.

(** *** First-seen order has no duplicates *)

Lemma firstn_incl {A : Type} (k : nat) (l : list A) (y : A) :
  In y (firstn k l) -> In y l.
Proof.
  revert k. induction l as [|x t IH]; intros [|k]; simpl; try tauto.
  intros [H|H]; [now left|right; now apply (IH k)].
Qed.

Lemma Forall_filter_keep {A : Type} (P : A -> Prop) (p : A -> bool) (l : list A) :
  Forall P l -> Forall P (filter p l).
Proof.
  induction 1 as [|x t Hx Ht IH]; simpl; [constructor|].
  destruct (p x); [now constructor|exact IH].
Qed.

Lemma ordpairs_filter (p : json -> bool) (l : list json) :
  ForallOrdPairs differ l -> ForallOrdPairs differ (filter p l).
Proof.
  induction 1 as [|x t Hx Ht IH]; simpl; [constructor|].
  destruct (p x); [|exact IH].
  constructor; [now apply Forall_filter_keep|exact IH].
Qed.

Lemma ordpairs_firstn (k : nat) (l : list json) :
  ForallOrdPairs differ l -> ForallOrdPairs differ (firstn k l).
Proof.
  intros H. revert k. induction H as [|x t Hx Ht IH]; intros [|k]; simpl;
    try constructor.
  - rewrite Forall_forall in *. intros y Hy. apply Hx.
    now apply (firstn_incl k).
  - apply IH.
Qed.

Lemma first_seen_ordpairs (l : list json) : ForallOrdPairs differ (first_seen l).
Proof.
  induction l as [|x t IH]; simpl; constructor.
  - rewrite Forall_forall. intros y Hy. apply filter_In in Hy.
    destruct Hy as [_ Hy]. unfold differ. now destruct (py_eqb x y).
  - now apply ordpairs_filter.
Qed.

Lemma ordpairs_distinct (l : list json) :
  ForallOrdPairs differ l -> pairwise_distinct l.
Proof.
  unfold pairwise_distinct.
  induction 1 as [|x t Hx Ht IH]; intros i j a b Hij Ha Hb.
  - now destruct i.
  - destruct j as [|j]; [lia|]. simpl in Hb. destruct i as [|i]; simpl in Ha.
    + inversion Ha; subst a. rewrite Forall_forall in Hx.
      apply Hx. now apply nth_error_In with j.
    + apply (IH i j); [lia|assumption|assumption].
Qed.

Lemma first_seen_prefix_distinct (k : nat) (l : list json) :
  pairwise_distinct (firstn k (first_seen l)).
Proof. apply ordpairs_distinct, ordpairs_firstn, first_seen_ordpairs. Qed.

(** In a list without equal values a string occurs at one place at most. *)
Lemma distinct_string_once (l : list json) (s : string) (i j : nat) :
  pairwise_distinct l ->
  nth_error l i = Some (JStr s) -> nth_error l j = Some (JStr s) -> i = j.
Proof.
  intros Hd Hi Hj.
  assert (Hs : py_eqb (JStr s) (JStr s) = true) by now apply py_eqb_str.
  destruct (Nat.lt_trichotomy i j) as [H|[H|H]]; [|exact H|].
  - rewrite (Hd i j _ _ H Hi Hj) in Hs. discriminate.
  - rewrite (Hd j i _ _ H Hj Hi) in Hs. discriminate.
Qed.

(** While the loop waits, it has issued one request more than it has had
    responses. *)
Lemma listing_loop_waiting (api_key job_title location : string) (limit : option Z)
    (domain : string) (pre : list response) :
  forall st st' reqs,
    listing_loop api_key job_title location limit domain st pre = (Waiting st', reqs) ->
    List.length reqs = S (List.length pre).
Proof.
  induction pre as [|resp pre' IH]; intros st st' reqs.
  - rewrite listing_loop_nil. intros H. now inversion H.
  - rewrite listing_loop_cons.
    destruct (loop_body limit st resp) as [st1|urls1|e]; try discriminate.
    destruct (listing_loop _ _ _ _ _ st1 pre') as [o reqs1] eqn:Hl.
    intros H. inversion H; subst o reqs. simpl. f_equal. exact (IH _ _ _ Hl).
Qed.

(** Documented pages never make the scan raise. *)
Lemma scan_jobs_documented (items : list (option string)) :
  forall seen new, exists seen' new',
    scan_jobs (map item_of items) seen new = Ok (seen', new').
Proof.
  induction items as [|[u|] rest IH]; intros seen new; cbn [map scan_jobs].
  - eauto.
  - cbn [item_of job_item py_get dict_get String.eqb Ascii.eqb Bool.eqb bind].
    destruct (truthy (JStr u)); cbn [negb hashable]; [|apply IH].
    destruct (set_mem (JStr u) seen); apply IH.
  - cbn [item_of py_get dict_get bind truthy negb]. apply IH.
Qed.

Lemma loop_body_documented (limit : option Z) (st : loop_state)
    (items : list (option string)) :
  (exists st', loop_body limit st (page_of items) = Continue st')
  \/ (exists urls, loop_body limit st (page_of items) = Break urls).
Proof.
  destruct (loop_body_cases st (page_of items)) as [[_ Hb]|[[e Hb]|[s' [n [_ Hb]]]]].
  - right. eexists. apply Hb.
  - exfalso. specialize (Hb limit). revert Hb.
    unfold page_of, listing_page, loop_body.
    cbn [Z.eqb Pos.eqb negb py_or truthy py_get dict_get String.eqb Ascii.eqb
         Bool.eqb].
    destruct items as [|i rest]; [discriminate|].
    cbn [map truthy negb py_iter bind].
    destruct (scan_jobs_documented (i :: rest) st.(seen) []) as [s' [n' Hs]].
    cbn [map] in Hs.
    change (py_or (JArr (item_of i :: map item_of rest)) (JArr []))
      with (JArr (item_of i :: map item_of rest)).
    cbn [truthy negb py_iter py_len bind]. rewrite Hs.
    destruct (limit_reached limit _); discriminate.
  - rewrite (Hb limit). destruct (limit_reached limit _); eauto.
Qed.

(** Against documented pages that end with an empty page the loop returns. *)
Lemma listing_loop_returns (api_key job_title location : string) (limit : option Z)
    (domain : string) (pages : list (list (option string))) :
  forall st, exists urls reqs,
    listing_loop api_key job_title location limit domain st
      (map page_of pages ++ [listing_page []])
    = (Returned urls, reqs).
Proof.
  induction pages as [|items rest IH]; intros st.
  - do 2 eexists. reflexivity.
  - cbn [map app]. rewrite listing_loop_cons.
    destruct (loop_body_documented limit st items) as [[st' ->]|[urls ->]].
    + destruct (IH st') as [urls [reqs ->]]. eauto.
    + eauto.
Qed.

Lemma firstn_length_again {A : Type} (k m : nat) (l x : list A) :
  x = firstn k l -> List.length x = m -> x = firstn m l.
Proof.
  intros -> Hm. rewrite length_firstn in Hm. subst m.
  destruct (Nat.le_ge_cases k (List.length l)) as [H|H].
  - now rewrite Nat.min_l.
  - rewrite Nat.min_r by exact H. now rewrite firstn_all, firstn_all2.
Qed.

Lemma firstn_consumed {A : Type} (pre : list A) (page : A) (rest : list A) :
  firstn (S (List.length pre)) (pre ++ page :: rest) = pre ++ [page].
Proof.
  induction pre as [|x t IH]; [reflexivity|].
  cbn [List.length app]. rewrite firstn_cons. now rewrite IH.
Qed.

(** C1.  The list returned by [fetch_job_listings] is a prefix of the raw
    URLs of the pages it consumed taken in first-seen order, and all of them
    when there is no limit; no two of its entries are equal, a raw URL
    string occurs in it at most once, and two strings count as equal only
    when they are the same string.  Against documented pages followed by an
    empty page the function does return. *)
Theorem fetch_job_listings_first_seen (api_key job_title location : string)
    (limit : option Z) (domain : string) :
  (forall script urls reqs,
      fetch_job_listings api_key job_title location limit domain script
      = (Returned urls, reqs) ->
      (exists k, urls = firstn k (first_seen
                                    (flat_map page_urls
                                       (firstn (List.length reqs) script))))
      /\ (limit = None ->
          urls = first_seen (flat_map page_urls (firstn (List.length reqs) script)))
      /\ pairwise_distinct urls
      /\ (forall s i j, nth_error urls i = Some (JStr s) ->
                        nth_error urls j = Some (JStr s) -> i = j))
  /\ (forall s t, py_eqb (JStr s) (JStr t) = true <-> s = t)
  /\ (forall pages, exists urls reqs,
        fetch_job_listings api_key job_title location limit domain
          (map page_of pages ++ [listing_page []])
        = (Returned urls, reqs)).
Proof.
  split; [|split; [apply py_eqb_str|intros pages; apply listing_loop_returns]].
  intros script urls reqs. unfold fetch_job_listings. intros H.
  apply listing_loop_returned in H. cbn zeta in H. simpl in H.
  rewrite fresh_urls_nil in H. destruct H as [[k Hk] Hall].
  assert (Hd : pairwise_distinct urls).
  { rewrite Hk. apply first_seen_prefix_distinct. }
  split; [now exists k|]. split; [exact Hall|]. split; [exact Hd|].
  intros s i j. now apply distinct_string_once.
Qed.

(** C2.  With a limit [n >= 1] the returned list has at most [n] entries;
    and when the page after the responses [pre] brings the number of unique
    URLs to [n] or more, the function returns exactly the first [n] of them
    in first-seen order and has issued no request beyond the one that page
    answered, whatever responses follow. *)
Theorem fetch_job_listings_limit (api_key job_title location domain : string) (n : Z) :
  (1 <= n)%Z ->
  (forall script urls reqs,
      fetch_job_listings api_key job_title location (Some n) domain script
      = (Returned urls, reqs) ->
      (Z.of_nat (List.length urls) <= n)%Z)
  /\ (forall pre page rest st st2 reqs,
        fetch_job_listings api_key job_title location (Some n) domain pre
        = (Waiting st, reqs) ->
        loop_body None st page = Continue st2 ->
        (n <= Z.of_nat (List.length st2.(collected)))%Z ->
        fetch_job_listings api_key job_title location (Some n) domain
          (pre ++ page :: rest)
        = (Returned (firstn (Z.to_nat n) st2.(collected)), reqs)
        /\ firstn (Z.to_nat n) st2.(collected)
           = firstn (Z.to_nat n) (first_seen (flat_map page_urls (pre ++ [page])))
        /\ List.length (firstn (Z.to_nat n) st2.(collected)) = Z.to_nat n
        /\ List.length reqs = S (List.length pre)).
Proof.
  intros Hn. split.
  - intros script urls reqs. unfold fetch_job_listings.
    apply listing_loop_bound; [exact Hn|]. simpl. apply Z.leb_gt. lia.
  - intros pre page rest st st2 reqs Hpre Hpage Hlen.
    unfold fetch_job_listings in *.
    destruct (slice_to_reached n st2.(collected) Hn Hlen) as [Hs Hl].
    rewrite <- Hs.
    assert (Hw : List.length reqs = S (List.length pre))
      by exact (listing_loop_waiting _ _ _ _ _ _ _ _ _ Hpre).
    assert (Hr : listing_loop api_key job_title location (Some n) domain
                   (initial_state) (pre ++ page :: rest)
                 = (Returned (slice_to n st2.(collected)), reqs)).
    { apply listing_loop_stops with st; [exact Hpre|].
      apply loop_body_reaches; [exact Hpage|]. simpl. now apply Z.leb_le. }
    split; [exact Hr|]. split; [|split; [exact Hl|exact Hw]].
    apply listing_loop_returned in Hr. cbn zeta in Hr. simpl in Hr.
    rewrite fresh_urls_nil, Hw, firstn_consumed in Hr.
    destruct Hr as [[k Hk] _].
    exact (firstn_length_again _ _ _ _ Hk Hl).
Qed.

(** [str] of a number is its decimal numeral. *)
Lemma str_of_nat_value (n : nat) : decimal_value (str_of_nat n) = Some n.
Proof.
  unfold decimal_value, str_of_nat.
  assert (Hn : Nat.to_uint n <> Decimal.Nil).
  { intros H. pose proof (Unsigned.of_to n) as E. rewrite H in E.
    simpl in E. subst n. discriminate H. }
  rewrite (NilZero.usu _ Hn). cbn [option_map]. now rewrite Unsigned.of_to.
Qed.

(** C8.  The request for page [k+1] is sent to the listing URL whose
    [start] parameter is the decimal numeral of the sum of the raw lengths -
    the lengths of the [jobs] arrays - of the [k] pages before it, whatever
    number of new URLs those pages brought. *)
Theorem fetch_job_listings_offsets (api_key job_title location : string)
    (limit : option Z) (domain : string) (script : list response) (k : nat) :
  k < List.length (snd (fetch_job_listings api_key job_title location limit
                          domain script)) ->
  nth_error (snd (fetch_job_listings api_key job_title location limit domain
                    script)) k
  = Some {| req_url :=
              ("https://api.hasdata.com/scrape/indeed/listing?keyword="
               ++ quote job_title ++ "&location=" ++ quote location
               ++ "&domain=" ++ domain ++ "&start="
               ++ str_of_nat (sum_list (map raw_length (firstn k script))))%string;
            req_api_key := api_key |}
  /\ decimal_value (str_of_nat (sum_list (map raw_length (firstn k script))))
     = Some (sum_list (map raw_length (firstn k script))).
Proof.
  intros Hk. split; [|apply str_of_nat_value]. revert Hk.
  unfold fetch_job_listings.
  destruct (listing_loop api_key job_title location limit domain initial_state
              script) as [o reqs] eqn:H.
  cbn [snd]. intros Hk.
  destruct (nth_error reqs k) as [req|] eqn:Hn.
  - now rewrite (listing_loop_offsets _ _ _ _ _ _ _ _ _ _ _ H Hn).
  - apply nth_error_None in Hn. lia.
Qed.

(** Witness of C1: two overlapping pages; URLs that differ as strings are
    both kept although they normalize to the same URL. *)
Lemma fetch_job_listings_first_seen_witness :
  fetch_job_listings "key" "dev" "Dhaka" None "www.indeed.com" overlapping_script
  = (Returned [JStr "https://www.indeed.com/m/viewjob?jk=1";
               JStr "https://www.indeed.com/viewjob?jk=1";
               JStr "https://www.indeed.com/viewjob?jk=2"],
     snd (fetch_job_listings "key" "dev" "Dhaka" None "www.indeed.com"
            overlapping_script))
  /\ pairwise_distinct [JStr "https://www.indeed.com/m/viewjob?jk=1";
                        JStr "https://www.indeed.com/viewjob?jk=1";
                        JStr "https://www.indeed.com/viewjob?jk=2"].
Proof.
  assert (H : fetch_job_listings "key" "dev" "Dhaka" None "www.indeed.com"
                overlapping_script
              = (Returned [JStr "https://www.indeed.com/m/viewjob?jk=1";
                           JStr "https://www.indeed.com/viewjob?jk=1";
                           JStr "https://www.indeed.com/viewjob?jk=2"],
                 snd (fetch_job_listings "key" "dev" "Dhaka" None "www.indeed.com"
                        overlapping_script))) by (vm_compute; reflexivity).
  split; [exact H|].
  exact (proj1 (proj2 (proj2
           (proj1 (fetch_job_listings_first_seen "key" "dev" "Dhaka" None
                     "www.indeed.com")
              overlapping_script _ _ H)))).
Defined.

(** Witness of C2: limit 3 and pages with five unique URLs. *)
Lemma fetch_job_listings_limit_witness :
  fetch_job_listings "key" "dev" "Dhaka" (Some 3%Z) "www.indeed.com"
    ([five_urls_first] ++ five_urls_second :: [five_urls_third])
  = (Returned [JStr "u1"; JStr "u2"; JStr "u3"],
     [{| req_url := listing_url "dev" "Dhaka" "www.indeed.com" 0; req_api_key := "key" |};
      {| req_url := listing_url "dev" "Dhaka" "www.indeed.com" 2; req_api_key := "key" |}]).
Proof.
  assert (Hn : (1 <= 3)%Z) by lia.
  destruct (fetch_job_listings_limit "key" "dev" "Dhaka" "www.indeed.com" 3%Z Hn)
    as [_ H].
  refine (proj1 (H [five_urls_first] five_urls_second [five_urls_third]
                   {| collected := [JStr "u1"; JStr "u2"];
                      seen := [JStr "u2"; JStr "u1"];
                      start := 2; page_idx := 2 |}
                   {| collected := [JStr "u1"; JStr "u2"; JStr "u3"; JStr "u4"; JStr "u5"];
                      seen := [JStr "u5"; JStr "u4"; JStr "u3"; JStr "u2"; JStr "u1"];
                      start := 5; page_idx := 3 |}
                   _ _ _ _)).
  - vm_compute. reflexivity.
  - vm_compute. reflexivity.
  - simpl. lia.
Defined.

(** Witness of C8: the first page has four raw items and two unique URLs;
    the second request starts at 4. *)
Lemma fetch_job_listings_offsets_witness :
  nth_error (snd (fetch_job_listings "key" "dev" "Dhaka" None "www.indeed.com"
                    overlapping_script)) 1
  = Some {| req_url :=
              "https://api.hasdata.com/scrape/indeed/listing?keyword=dev&location=Dhaka&domain=www.indeed.com&start=4";
            req_api_key := "key" |}.
Proof.
  refine (proj1 (fetch_job_listings_offsets "key" "dev" "Dhaka" None
                   "www.indeed.com" overlapping_script 1 _)).
  vm_compute. repeat constructor.
Defined.

(** *** Idempotence of the normalizer *)

(** Strings without a given character. *)
Lemma char_in_forall (p : ascii -> bool) (c : ascii) (s : string) :
  p c = false -> str_forall p s = true -> char_in c s = false.
Proof.
  intros Hc. induction s as [|a t IH]; simpl; [reflexivity|].
  intros H. apply andb_prop in H. destruct H as [Ha Ht].
  rewrite (IH Ht), orb_false_r. apply Ascii.eqb_neq. intros ->. congruence.
Qed.

Lemma str_partition_none (c : ascii) (s : string) :
  char_in c s = false -> str_partition c s = None.
Proof.
  induction s as [|a t IH]; simpl; [reflexivity|].
  destruct (Ascii.eqb a c); simpl; [discriminate|].
  intros H. now rewrite IH.
Qed.

Lemma str_split_none (c : ascii) (s : string) :
  char_in c s = false -> str_split c s = [s].
Proof.
  induction s as [|a t IH]; simpl; [reflexivity|].
  destruct (Ascii.eqb a c); simpl; [discriminate|].
  intros H. now rewrite IH.
Qed.

Lemma str_filter_all (p : ascii -> bool) (s : string) :
  str_forall p s = true -> str_filter p s = s.
Proof.
  induction s as [|a t IH]; simpl; [reflexivity|].
  intros H. apply andb_prop in H. destruct H as [-> Ht]. now rewrite IH.
Qed.

Lemma str_filter_app (p : ascii -> bool) (s t : string) :
  str_filter p (s ++ t) = (str_filter p s ++ str_filter p t)%string.
Proof.
  induction s as [|a r IH]; simpl; [reflexivity|].
  destruct (p a); simpl; now rewrite IH.
Qed.

Lemma char_in_filter_all (c : ascii) (s : string) :
  char_in c s = false -> str_filter (fun a => negb (Ascii.eqb a c)) s = s.
Proof.
  induction s as [|a t IH]; simpl; [reflexivity|].
  destruct (Ascii.eqb a c); simpl; [discriminate|]. intros H. now rewrite IH.
Qed.

Lemma strip_unsafe_filter (s : string) :
  strip_unsafe s
  = str_filter (fun a => negb (Ascii.eqb a char_lf))
      (str_filter (fun a => negb (Ascii.eqb a char_cr))
         (str_filter (fun a => negb (Ascii.eqb a char_tab)) s)).
Proof. unfold strip_unsafe. now rewrite !replace_char_filter. Qed.

Lemma strip_unsafe_app (s t : string) :
  strip_unsafe (s ++ t) = (strip_unsafe s ++ strip_unsafe t)%string.
Proof. rewrite !strip_unsafe_filter. now rewrite !str_filter_app. Qed.

Lemma clean_id_chars (id : string) (c : ascii) :
  id_char_ok c = false -> clean_id id = true -> char_in c id = false.
Proof. intros Hc. now apply char_in_forall. Qed.

Lemma strip_unsafe_clean (id : string) :
  clean_id id = true -> strip_unsafe id = id.
Proof.
  intros H. rewrite strip_unsafe_filter.
  rewrite (char_in_filter_all char_tab) by now apply clean_id_chars.
  rewrite (char_in_filter_all char_cr) by now apply clean_id_chars.
  now rewrite (char_in_filter_all char_lf) by now apply clean_id_chars.
Qed.

Lemma replace_plus_clean (id : string) :
  clean_id id = true -> str_replace "+" " " None id = id.
Proof.
  intros H. rewrite replace_char_map.
  assert (Hp : char_in "+" id = false) by now apply clean_id_chars.
  clear H. induction id as [|a t IH]; simpl in *; [reflexivity|].
  destruct (Ascii.eqb a "+"); simpl in *; [discriminate|]. now rewrite IH.
Qed.

Lemma str_partition_app (c : ascii) (s t : string) :
  char_in c s = false ->
  str_partition c (s ++ t)
  = match str_partition c t with
    | Some (l, r) => Some ((s ++ l)%string, r)
    | None => None
    end.
Proof.
  induction s as [|a r IH]; simpl.
  - intros _. now destruct (str_partition c t) as [[l r]|].
  - destruct (Ascii.eqb a c); simpl; [discriminate|].
    intros H. rewrite (IH H). now destruct (str_partition c t) as [[l r']|].
Qed.

Lemma split_first_absent (c : ascii) (s : string) :
  char_in c s = false -> split_first c s = (s, EmptyString).
Proof. intros H. unfold split_first. now rewrite str_partition_none. Qed.

Lemma char_in_app (c : ascii) (s t : string) :
  char_in c (s ++ t) = char_in c s || char_in c t.
Proof.
  induction s as [|a r IH]; simpl; [reflexivity|]. now rewrite IH, orb_assoc.
Qed.

Section Canonical.
Context {U : Urllib}.

(** A canonical URL with a clean id parses into that id. *)
Lemma urlsplit_canonical (id : string) :
  clean_id id = true ->
  urlsplit (canonical_url id)
  = Ok {| scheme := "https"; netloc := "www.indeed.com"; path := "/viewjob";
          query := "jk=" ++ id; fragment := "" |}.
Proof.
  intros H. unfold urlsplit, canonical_url.
  change (str_lstrip is_c0_control_or_space ("https://www.indeed.com/viewjob?jk=" ++ id))
    with ("https://www.indeed.com/viewjob?jk=" ++ id)%string.
  rewrite strip_unsafe_app, (strip_unsafe_clean id H).
  change (strip_unsafe "https://www.indeed.com/viewjob?jk=")
    with "https://www.indeed.com/viewjob?jk=".
  change (split_scheme ("https://www.indeed.com/viewjob?jk=" ++ id))
    with ("https", ("//www.indeed.com/viewjob?jk=" ++ id)%string).
  cbv beta iota.
  change (take_netloc ("//www.indeed.com/viewjob?jk=" ++ id))
    with (Ok ("www.indeed.com", ("/viewjob?jk=" ++ id)%string)).
  cbn [bind].
  rewrite split_first_absent.
  2:{ rewrite char_in_app. now rewrite (clean_id_chars id "#"). }
  change (split_first "?" ("/viewjob?jk=" ++ id))
    with ("/viewjob", ("jk=" ++ id)%string).
  reflexivity.
Qed.

Lemma parse_qs_canonical (id : string) :
  clean_id id = true -> id <> EmptyString ->
  parse_qs ("jk=" ++ id) = [("jk", [id])].
Proof.
  intros H Hne. unfold parse_qs, parse_qsl.
  change (str_truthy ("jk=" ++ id)) with true. cbv iota.
  rewrite str_split_none.
  2:{ rewrite char_in_app. now rewrite (clean_id_chars id "&"). }
  cbn [flat_map]. unfold parse_pair.
  change (str_truthy ("jk=" ++ id)) with true. cbn [negb].
  change (str_partition "=" ("jk=" ++ id)) with (Some ("jk", id)).
  cbv iota. apply str_truthy_true in Hne. rewrite Hne.
  rewrite (replace_plus_clean id H).
  change (str_replace "+" " " None "jk") with "jk".
  rewrite !unquote_plain; [reflexivity| |reflexivity].
  now apply clean_id_chars.
Qed.

Lemma normalize_canonical (id : string) :
  clean_id id = true -> id <> EmptyString ->
  normalize_job_url (canonical_url id) = canonical_url id.
Proof.
  intros H Hne. rewrite normalize_job_url_unfold. unfold urlparse.
  rewrite (urlsplit_canonical id H). cbn [query].
  rewrite (parse_qs_canonical id H Hne), normalize_parsed_unfold.
  unfold job_key. change (dict_get "jk" [("jk", [id])]) with (Some [id]).
  cbn [first_value opt_truthy].
  apply str_truthy_true in Hne. now rewrite !Hne.
Qed.
End Canonical.

(** The first occurrence of a pattern. *)
Lemma prefix_drop (p s : string) :
  prefix p s = true -> s = (p ++ str_drop (String.length p) s)%string.
Proof.
  revert s. induction p as [|a r IH]; intros s; [reflexivity|].
  destruct s as [|b t]; simpl; [discriminate|].
  destruct (ascii_dec a b) as [->|]; [|discriminate].
  intros H. f_equal. now apply IH.
Qed.

Lemma find_first_spec (sub s a b : string) :
  find_first sub s = Some (a, b) -> s = (a ++ sub ++ b)%string.
Proof.
  revert a. induction s as [|c t IH]; intros a; cbn [find_first].
  - destruct sub; simpl; [|discriminate]. intros H. now inversion H.
  - destruct (prefix sub (String c t)) eqn:Hp.
    + intros H. inversion H; subst. cbn [append]. now apply prefix_drop.
    + destruct (find_first sub t) as [[a' b']|]; [|discriminate].
      intros H. inversion H; subst. cbn [append]. f_equal. now apply IH.
Qed.

Lemma find_first_contains (sub s a b : string) :
  find_first sub s = Some (a, b) -> str_contains sub s = true.
Proof.
  revert a. induction s as [|c t IH]; intros a; cbn [find_first str_contains].
  - destruct (prefix sub ""); [reflexivity|discriminate].
  - destruct (prefix sub (String c t)); [reflexivity|]. cbn [orb].
    destruct (find_first sub t) as [[a' b']|]; [|discriminate].
    intros H. inversion H; subst. now apply (IH a').
Qed.

Lemma replace_spent (old new t : string) (k : nat) :
  replace_from old new k (Some 0) t = str_drop k t.
Proof.
  revert k. induction t as [|c t IH]; intros [|k]; simpl; try reflexivity.
  - now rewrite IH.
  - apply IH.
Qed.

(** Replacing the first occurrence. *)
Lemma replace_first (o : ascii) (os new s : string) :
  str_replace (String o os) new (Some 1) s
  = match find_first (String o os) s with
    | Some (a, b) => (a ++ new ++ b)%string
    | None => s
    end.
Proof.
  unfold str_replace. induction s as [|c t IH]; [reflexivity|].
  cbn [replace_from find_first count_spent negb andb].
  destruct (prefix (String o os) (String c t)) eqn:Hp.
  - cbn [count_pred pred String.length str_drop append]. now rewrite replace_spent.
  - rewrite IH. now destruct (find_first (String o os) t) as [[a b]|].
Qed.

Lemma str_lstrip_app (p : ascii -> bool) (a : string) (c : ascii) (t : string) :
  p c = false ->
  str_lstrip p (a ++ String c t) = (str_lstrip p a ++ String c t)%string.
Proof.
  intros Hc. induction a as [|x r IH]; simpl; [now rewrite Hc|].
  destruct (p x); [exact IH|reflexivity].
Qed.

Lemma char_in_lstrip (c : ascii) (p : ascii -> bool) (s : string) :
  char_in c s = false -> char_in c (str_lstrip p s) = false.
Proof.
  induction s as [|a t IH]; simpl; [reflexivity|].
  intros H. apply orb_false_elim in H. destruct H as [Ha Ht].
  destruct (p a); [now apply IH|]. simpl. now rewrite Ha, Ht.
Qed.

Lemma char_in_filter (c : ascii) (p : ascii -> bool) (s : string) :
  char_in c s = false -> char_in c (str_filter p s) = false.
Proof.
  induction s as [|a t IH]; simpl; [reflexivity|].
  intros H. apply orb_false_elim in H. destruct H as [Ha Ht].
  destruct (p a); [|now apply IH]. simpl. now rewrite Ha, IH.
Qed.

Lemma char_in_strip_unsafe (c : ascii) (s : string) :
  char_in c s = false -> char_in c (strip_unsafe s) = false.
Proof.
  intros H. rewrite strip_unsafe_filter. now repeat apply char_in_filter.
Qed.

(** The query does not depend on the text before it. *)
Lemma split_first_app (c : ascii) (x y : string) :
  char_in c x = false ->
  split_first c (x ++ y)
  = ((x ++ fst (split_first c y))%string, snd (split_first c y)).
Proof.
  intros H. unfold split_first. rewrite (str_partition_app c x y H).
  now destruct (str_partition c y) as [[l r]|].
Qed.

Lemma query_part_app (x y : string) :
  char_in "?" x = false -> char_in "#" x = false ->
  query_part (x ++ y) = query_part y.
Proof.
  intros Hq Hh. unfold query_part.
  rewrite (split_first_app "#" x y Hh). cbn [fst].
  now rewrite (split_first_app "?" x _ Hq).
Qed.

Lemma str_partition_some (c : ascii) (s l r : string) :
  str_partition c s = Some (l, r) -> s = (l ++ String c r)%string.
Proof.
  revert l. induction s as [|a t IH]; intros l; simpl; [discriminate|].
  destruct (Ascii.eqb_spec a c) as [->|].
  - intros H. now inversion H.
  - destruct (str_partition c t) as [[l' r']|]; [|discriminate].
    intros H. inversion H; subst. simpl. f_equal. now apply IH.
Qed.

Lemma scheme_chars_plain (c : ascii) (s : string) :
  is_scheme_char c = false -> str_forall is_scheme_char s = true ->
  char_in c s = false.
Proof. apply char_in_forall. Qed.

Lemma split_scheme_query (s : string) :
  query_part (snd (split_scheme s)) = query_part s.
Proof.
  unfold split_scheme.
  destruct (str_partition ":" s) as [[[|c0 pre] post]|] eqn:Hp; try reflexivity.
  destruct (is_alpha c0 && str_forall is_scheme_char (String c0 pre)) eqn:Ht;
    [|reflexivity].
  apply andb_prop in Ht. destruct Ht as [_ Hs].
  apply str_partition_some in Hp. subst s. cbn [snd].
  change (String c0 pre ++ String ":" post)%string
    with (String c0 pre ++ (String ":" "" ++ post))%string.
  rewrite query_part_app; [now rewrite query_part_app| |];
    now apply scheme_chars_plain.
Qed.

Lemma splitnetloc_spec (s nl rest : string) :
  splitnetloc s = (nl, rest) ->
  s = (nl ++ rest)%string /\ char_in "?" nl = false /\ char_in "#" nl = false.
Proof.
  revert nl. induction s as [|a t IH]; intros nl; simpl.
  - intros H. now inversion H.
  - destruct (Ascii.eqb a "/" || Ascii.eqb a "?" || Ascii.eqb a "#") eqn:Hd.
    + intros H. now inversion H.
    + destruct (splitnetloc t) as [n r]. intros H. inversion H; subst.
      destruct (IH n eq_refl) as [-> [Hq Hh]].
      apply orb_false_elim in Hd. destruct Hd as [Hd Hh'].
      apply orb_false_elim in Hd. destruct Hd as [_ Hq'].
      simpl. now rewrite Hq, Hh, Hq', Hh'.
Qed.

Section QueryPart.
Context {U : Urllib}.

Lemma take_netloc_query (s nl rest : string) :
  take_netloc s = Ok (nl, rest) -> query_part rest = query_part s.
Proof.
  unfold take_netloc. destruct (prefix "//" s) eqn:Hp.
  2:{ intros H. now inversion H. }
  apply prefix_drop in Hp. cbn [String.length] in Hp.
  destruct (splitnetloc (str_drop 2 s)) as [n r] eqn:Hn.
  destruct (_ || _); [discriminate|].
  destruct (_ && _); [discriminate|].
  intros H. inversion H; subst n r.
  apply splitnetloc_spec in Hn. destruct Hn as [Hs [Hq Hh]].
  rewrite Hp, Hs.
  rewrite (query_part_app "//") by reflexivity. now rewrite query_part_app.
Qed.

Lemma urlsplit_query (url : string) (p : SplitResult) :
  urlsplit url = Ok p ->
  p.(query) = query_part (strip_unsafe (str_lstrip is_c0_control_or_space url)).
Proof.
  unfold urlsplit.
  rewrite <- (split_scheme_query (strip_unsafe _)).
  destruct (split_scheme (strip_unsafe _)) as [sch rest1]. cbn [snd].
  destruct (take_netloc rest1) as [[nl rest2]|e] eqn:Hn; [|discriminate].
  cbn [bind]. rewrite <- (take_netloc_query _ _ _ Hn). unfold query_part.
  destruct (split_first "#" rest2) as [u1 frag]. cbn [fst].
  destruct (split_first "?" u1) as [u2 q]. cbn [snd].
  destruct (checknetloc nl); [|discriminate].
  intros H. now inversion H.
Qed.
End QueryPart.

Lemma char_in_clean (c : ascii) (s : string) :
  char_in c s = false ->
  char_in c (strip_unsafe (str_lstrip is_c0_control_or_space s)) = false.
Proof. intros H. now apply char_in_strip_unsafe, char_in_lstrip. Qed.

(** The query of a URL does not depend on a segment of its path. *)
Lemma query_part_segment (a seg b : string) :
  char_in "?" a = false -> char_in "#" a = false ->
  prefix "/" seg = true -> strip_unsafe seg = seg ->
  char_in "?" seg = false -> char_in "#" seg = false ->
  query_part (strip_unsafe (str_lstrip is_c0_control_or_space (a ++ seg ++ b)))
  = query_part (strip_unsafe b).
Proof.
  intros Hq Hh Hp Hs Hsq Hsh.
  destruct seg as [|c t]; [discriminate|].
  assert (Hc : c = "/"%char).
  { rewrite prefix_char in Hp. now apply Ascii.eqb_eq in Hp. }
  subst c. cbn [append].
  rewrite str_lstrip_app by reflexivity.
  change (String "/" (t ++ b)) with (String "/" t ++ b)%string.
  rewrite !strip_unsafe_app, Hs.
  rewrite query_part_app by now apply char_in_clean.
  now rewrite query_part_app.
Qed.

Lemma mobile_rewrite_none (s : string) :
  str_contains "/m/viewjob" s = false -> mobile_rewrite s = s.
Proof. intros H. unfold mobile_rewrite. now rewrite H. Qed.

Section Idempotence.
Context {U : Urllib}.

(** One rewrite of a mobile path that leaves no mobile path is final. *)
Lemma mobile_rewrite_final (url : string) (parsed : SplitResult) :
  urlparse url = Ok parsed ->
  opt_truthy (job_key (parse_qs parsed.(query))) = false ->
  mobile_in_path url = true ->
  str_contains "/m/viewjob" (mobile_rewrite url) = false ->
  normalize_job_url (mobile_rewrite url) = mobile_rewrite url.
Proof.
  intros Hp Hk Hm Hr. unfold mobile_in_path in Hm.
  destruct (find_first "/m/viewjob" url) as [[a b]|] eqn:Hf; [|discriminate].
  apply andb_prop in Hm. destruct Hm as [Hq Hh].
  apply negb_true_iff in Hq, Hh.
  assert (Hu : url = (a ++ "/m/viewjob" ++ b)%string) by now apply find_first_spec.
  assert (Hw : mobile_rewrite url = (a ++ "/viewjob" ++ b)%string).
  { unfold mobile_rewrite. rewrite (find_first_contains _ _ _ _ Hf).
    now rewrite replace_first, Hf. }
  rewrite normalize_job_url_unfold.
  destruct (urlparse (mobile_rewrite url)) as [parsed'|e] eqn:Hp'; [|reflexivity].
  assert (Hsame : parsed'.(query) = parsed.(query)).
  { unfold urlparse in Hp, Hp'.
    rewrite (urlsplit_query _ _ Hp), (urlsplit_query _ _ Hp'), Hw, Hu.
    now rewrite !query_part_segment. }
  rewrite Hsame, normalize_parsed_unfold.
  rewrite (mobile_rewrite_none _ Hr).
  destruct (job_key (parse_qs parsed.(query))) as [id|]; [|reflexivity].
  cbn [opt_truthy] in Hk. now rewrite Hk.
Qed.

Lemma normalize_stable (url : string) :
  stable_input url ->
  normalize_job_url (normalize_job_url url) = normalize_job_url url.
Proof.
  unfold stable_input.
  destruct (urlparse url) as [parsed|e] eqn:Hp.
  2:{ intros _. assert (H : normalize_job_url url = url).
      { now rewrite normalize_job_url_unfold, Hp. }
      now rewrite !H. }
  assert (Hn : normalize_job_url url
               = match job_key (parse_qs parsed.(query)) with
                 | Some jk => if str_truthy jk then canonical_url jk
                              else mobile_rewrite url
                 | None => mobile_rewrite url
                 end).
  { now rewrite normalize_job_url_unfold, Hp, normalize_parsed_unfold. }
  cbv zeta.
  destruct (opt_truthy (job_key (parse_qs parsed.(query)))) eqn:Hk.
  - destruct (job_key (parse_qs parsed.(query))) as [id|]; [|discriminate].
    cbn [opt_truthy or_empty] in *. rewrite Hk in Hn. intros Hc.
    rewrite Hn. apply normalize_canonical; [exact Hc|].
    now apply str_truthy_true.
  - assert (Hm : normalize_job_url url = mobile_rewrite url).
    { rewrite Hn. destruct (job_key (parse_qs parsed.(query))) as [id|];
        [|reflexivity]. cbn [opt_truthy] in Hk. now rewrite Hk. }
    intros [Hnone|[Hpath Hfinal]].
    + rewrite Hm, (mobile_rewrite_none _ Hnone).
      now rewrite <- (mobile_rewrite_none _ Hnone) at 2.
    + rewrite Hm. now apply (mobile_rewrite_final url parsed).
Qed.
End Idempotence.

(** C3, as stated, fails: after one rewrite of [/m/m/viewjob] the mobile
    segment is there again, and a second application rewrites it again. *)
Lemma normalize_idempotent_counterexample :
  @normalize_job_url plain_urllib
    (@normalize_job_url plain_urllib "https://www.indeed.com/m/m/viewjob")
  <> @normalize_job_url plain_urllib "https://www.indeed.com/m/m/viewjob".
Proof. vm_compute. discriminate. Qed.

(** The same happens for every library. *)
Lemma normalize_nested_mobile {U : Urllib} :
  normalize_job_url "https://www.indeed.com/m/m/viewjob"
  = "https://www.indeed.com/m/viewjob"
  /\ normalize_job_url "https://www.indeed.com/m/viewjob"
     = "https://www.indeed.com/viewjob".
Proof. split; eval_normalize. Qed.

(** A job id with an escaped [&] is cut by the second application. *)
Lemma normalize_escaped_id :
  @normalize_job_url plain_urllib "https://www.indeed.com/viewjob?jk=a%26b"
  = "https://www.indeed.com/viewjob?jk=a&b"
  /\ @normalize_job_url plain_urllib "https://www.indeed.com/viewjob?jk=a&b"
     = "https://www.indeed.com/viewjob?jk=a".
Proof. split; vm_compute; reflexivity. Qed.

(** C3, amended.  Normalizing twice is normalizing once on every input that
    does not parse, or whose job id has none of the characters tab, CR, LF,
    [#], [&], [+], [%], or that has no job id and either contains no
    [/m/viewjob] or has its first [/m/viewjob] in the path and none left
    after the rewrite. *)
Theorem normalize_job_url_idempotent_stable {U : Urllib} (url : string) :
  stable_input url ->
  normalize_job_url (normalize_job_url url) = normalize_job_url url.
Proof. intros H. now apply normalize_stable. Qed.

(** Witness of C3 amended: a mobile URL without job id. *)
Lemma normalize_job_url_idempotent_stable_witness :
  @normalize_job_url plain_urllib
    (@normalize_job_url plain_urllib "https://www.indeed.com/m/viewjob?from=app")
  = @normalize_job_url plain_urllib "https://www.indeed.com/m/viewjob?from=app".
Proof.
  apply (@normalize_job_url_idempotent_stable plain_urllib).
  right. split; vm_compute; reflexivity.
Defined.

(** * Further properties *)

(** ** The listing fetcher: stops, failures and bounds *)

(** The state in which the loop waits after a run of continuing pages. *)
Lemma listing_loop_waiting_state (api_key job_title location : string)
    (limit : option Z) (domain : string) (pre : list response) :
  forall st st' reqs,
    listing_loop api_key job_title location limit domain st pre = (Waiting st', reqs) ->
    st'.(collected) = st.(collected) ++ fresh_urls st.(seen) (flat_map page_urls pre)
    /\ st'.(seen) = rev (fresh_urls st.(seen) (flat_map page_urls pre)) ++ st.(seen)
    /\ st'.(start) = st.(start) + sum_list (map raw_length pre)
    /\ (limit_reached limit st.(collected) = false ->
        limit_reached limit st'.(collected) = false).
Proof.
  induction pre as [|resp pre' IH]; intros st st' reqs.
  - rewrite listing_loop_nil. intros H. inversion H; subst st'.
    simpl. rewrite app_nil_r, Nat.add_0_r. auto.
  - rewrite listing_loop_cons.
    destruct (loop_body limit st resp) as [st1|urls1|e] eqn:Hb; try discriminate.
    destruct (listing_loop _ _ _ _ _ st1 pre') as [o reqs1] eqn:Hl.
    intros H. inversion H; subst o reqs. clear H.
    apply loop_body_continue in Hb. destruct Hb as [Hc [Hs [Ht Hr]]].
    destruct (IH _ _ _ Hl) as [Hc' [Hs' [Ht' Hr']]].
    specialize (Hr' Hr).
    cbn [flat_map map sum_list fold_right].
    split; [|split; [|split; [|intros _; exact Hr']]].
    + rewrite Hc', Hs, Hc, fresh_urls_app. now rewrite <- !app_assoc.
    + rewrite Hs', Hs, fresh_urls_app, rev_app_distr. now rewrite <- !app_assoc.
    + rewrite Ht', Ht. unfold sum_list. simpl. lia.
Qed.

(** An exception in the body leaves the function. *)
Lemma listing_loop_throws (api_key job_title location : string) (limit : option Z)
    (domain : string) (pre : list response) :
  forall st st' reqs page rest e,
    listing_loop api_key job_title location limit domain st pre = (Waiting st', reqs) ->
    loop_body limit st' page = Throw e ->
    listing_loop api_key job_title location limit domain st (pre ++ page :: rest)
    = (Raised e, reqs).
Proof.
  induction pre as [|resp pre' IH]; intros st st' reqs page rest e.
  - rewrite listing_loop_nil. intros H Hb. inversion H; subst st' reqs.
    simpl app. now rewrite listing_loop_cons, Hb.
  - rewrite listing_loop_cons. simpl app. rewrite listing_loop_cons.
    destruct (loop_body limit st resp) as [st1|urls1|e1]; try discriminate.
    destruct (listing_loop _ _ _ _ _ st1 pre') as [o reqs1] eqn:Hl.
    intros H Hb. inversion H; subst o reqs. clear H.
    now rewrite (IH _ _ _ page rest _ Hl Hb).
Qed.

Lemma loop_body_graceful (limit : option Z) (st : loop_state) (resp : response) :
  stops_listing resp = true \/ no_jobs resp = true ->
  loop_body limit st resp = Break st.(collected).
Proof.
  intros [H|H].
  - destruct resp as [| |code body]; try reflexivity.
    unfold stops_listing, failed_response in H. unfold loop_body. now rewrite H.
  - destruct resp as [| |code [v|]]; try discriminate.
    unfold no_jobs in H. apply andb_prop in H. destruct H as [Hc Hg].
    unfold loop_body. rewrite Hc. cbn [negb].
    destruct (py_get (py_or v (JObj [])) "jobs" (JArr [])) as [got|e];
      [|discriminate].
    apply negb_true_iff in Hg. unfold py_or at 1. rewrite Hg. reflexivity.
Qed.

(** X1.  A transport failure, a status other than 200 or a page without
    jobs ends the pagination gracefully: the function returns all that the
    pages before it had collected, in first-seen order, and sends no further
    request; when it is the first response the result is the empty list and
    one request was sent. *)
Theorem fetch_job_listings_graceful_stop (api_key job_title location : string)
    (limit : option Z) (domain : string) (pre : list response) (st : loop_state)
    (reqs : list request) (resp : response) (rest : list response) :
  fetch_job_listings api_key job_title location limit domain pre = (Waiting st, reqs) ->
  stops_listing resp = true \/ no_jobs resp = true ->
  fetch_job_listings api_key job_title location limit domain (pre ++ resp :: rest)
  = (Returned (first_seen (flat_map page_urls pre)), reqs)
  /\ List.length reqs = S (List.length pre)
  /\ (pre = [] ->
      fetch_job_listings api_key job_title location limit domain (resp :: rest)
      = (Returned [], [request_at api_key job_title location domain 0])).
Proof.
  unfold fetch_job_listings. intros Hpre Hstop.
  destruct (listing_loop_waiting_state _ _ _ _ _ _ _ _ _ Hpre) as [Hc _].
  simpl in Hc. rewrite fresh_urls_nil in Hc.
  assert (Hr : listing_loop api_key job_title location limit domain initial_state
                 (pre ++ resp :: rest) = (Returned st.(collected), reqs)).
  { apply listing_loop_stops with st; [exact Hpre|].
    now apply loop_body_graceful. }
  rewrite Hc in Hr. split; [exact Hr|]. split.
  - exact (listing_loop_waiting _ _ _ _ _ _ _ _ _ Hpre).
  - intros ->. rewrite listing_loop_nil in Hpre. inversion Hpre; subst.
    exact Hr.
Qed.

(** Witness of X1: a timeout after one page. *)
Lemma fetch_job_listings_graceful_stop_witness :
  fetch_job_listings "key" "dev" "Dhaka" (Some 5%Z) "www.indeed.com"
    ([five_urls_first] ++ Timeout :: [five_urls_second])
  = (Returned [JStr "u1"; JStr "u2"],
     [request_at "key" "dev" "Dhaka" "www.indeed.com" 0;
      request_at "key" "dev" "Dhaka" "www.indeed.com" 2]).
Proof.
  refine (proj1 (fetch_job_listings_graceful_stop "key" "dev" "Dhaka" (Some 5%Z)
                   "www.indeed.com" [five_urls_first]
                   {| collected := [JStr "u1"; JStr "u2"];
                      seen := [JStr "u2"; JStr "u1"]; start := 2; page_idx := 2 |}
                   _ Timeout [five_urls_second] _ _)).
  - vm_compute. reflexivity.
  - left. reflexivity.
Defined.

Lemma scan_jobs_fault (good : list json) (bad : json) (more : list json) (e : exn) :
  Forall (fun j => item_fault j = None) good ->
  item_fault bad = Some e ->
  forall seen new, scan_jobs (good ++ bad :: more) seen new = Raise e.
Proof.
  intros Hgood Hbad. induction Hgood as [|j good Hj Hgood IH]; intros seen new.
  - cbn [app scan_jobs]. unfold item_fault in Hbad.
    destruct bad as [| | | | |items]; try (inversion Hbad; reflexivity).
    cbn [py_get bind].
    change (match dict_get "url" items with Some v => v | None => JNull end)
      with (item_url (JObj items)).
    revert Hbad.
    destruct (truthy (item_url (JObj items))); cbn [andb negb]; [|discriminate].
    destruct (hashable (item_url (JObj items))); cbn [negb]; [discriminate|].
    intros H. inversion H. reflexivity.
  - cbn [app scan_jobs]. unfold item_fault in Hj.
    destruct j as [| | | | |items]; try discriminate.
    cbn [py_get bind].
    change (match dict_get "url" items with Some v => v | None => JNull end)
      with (item_url (JObj items)).
    revert Hj.
    destruct (truthy (item_url (JObj items))); cbn [andb negb]; [|intros _; apply IH].
    destruct (hashable (item_url (JObj items))); cbn [negb]; [|discriminate].
    intros _. destruct (set_mem _ seen); apply IH.
Qed.

Lemma loop_body_fault (limit : option Z) (st : loop_state) (good : list json)
    (bad : json) (more : list json) (e : exn) :
  Forall (fun j => item_fault j = None) good ->
  item_fault bad = Some e ->
  loop_body limit st (listing_page (good ++ bad :: more)) = Throw e.
Proof.
  intros Hgood Hbad. unfold listing_page, loop_body.
  cbn [Z.eqb Pos.eqb negb py_or truthy py_get dict_get String.eqb Ascii.eqb
       Bool.eqb].
  assert (Hne : exists j t, good ++ bad :: more = j :: t).
  { destruct good; simpl; eauto. }
  destruct Hne as [j [t Hjt]].
  rewrite Hjt. cbn [py_or truthy negb py_iter bind]. rewrite <- Hjt.
  now rewrite (scan_jobs_fault good bad more e Hgood Hbad).
Qed.

(** X2.  A 200 response whose body is not JSON, or whose page holds, after
    sound items, an item that is not an object or whose [url] is a list or
    a dict, makes the function raise ([JSONDecodeError], [AttributeError],
    [TypeError]): nothing is returned, not even what the pages before had
    collected. *)
Theorem fetch_job_listings_raises (api_key job_title location : string)
    (limit : option Z) (domain : string) (pre : list response) (st : loop_state)
    (reqs : list request) (page : response) (rest : list response) (e : exn) :
  fetch_job_listings api_key job_title location limit domain pre = (Waiting st, reqs) ->
  (page = Reply 200 None /\ e = JSONDecodeError)
  \/ (exists good bad more,
        page = listing_page (good ++ bad :: more)
        /\ Forall (fun j => item_fault j = None) good
        /\ item_fault bad = Some e) ->
  fetch_job_listings api_key job_title location limit domain (pre ++ page :: rest)
  = (Raised e, reqs).
Proof.
  unfold fetch_job_listings. intros Hpre Hpage.
  apply listing_loop_throws with st; [exact Hpre|].
  destruct Hpage as [[-> ->]|[good [bad [more [-> [Hg Hb]]]]]].
  - reflexivity.
  - now apply loop_body_fault.
Qed.

(** Witness of X2: after a sound page, a page whose second item is null. *)
Lemma fetch_job_listings_raises_witness :
  fetch_job_listings "key" "dev" "Dhaka" None "www.indeed.com"
    ([five_urls_first] ++ listing_page ([job_item "u3"] ++ JNull :: []) :: [])
  = (Raised AttributeError,
     [request_at "key" "dev" "Dhaka" "www.indeed.com" 0;
      request_at "key" "dev" "Dhaka" "www.indeed.com" 2]).
Proof.
  refine (fetch_job_listings_raises "key" "dev" "Dhaka" None "www.indeed.com"
            [five_urls_first]
            {| collected := [JStr "u1"; JStr "u2"];
               seen := [JStr "u2"; JStr "u1"]; start := 2; page_idx := 2 |}
            _ _ [] AttributeError _ _).
  - vm_compute. reflexivity.
  - right. exists [job_item "u3"], JNull, []. split; [reflexivity|].
    split; [|reflexivity]. repeat constructor.
Defined.

(** X3.  The function does not check its limit: with limit 0 the first page
    that holds jobs ends the call with the empty list, and with a negative
    limit [-k] it ends the call with the unique URLs of that page less the
    last [k]. *)
Theorem fetch_job_listings_nonpositive_limit (api_key job_title location domain : string)
    (n : Z) (page : response) (rest : list response) (st2 : loop_state) :
  (n <= 0)%Z ->
  loop_body None initial_state page = Continue st2 ->
  let unique := first_seen (page_urls page) in
  fetch_job_listings api_key job_title location (Some n) domain (page :: rest)
  = (Returned (if (n =? 0)%Z then []
               else firstn (List.length unique - Z.to_nat (- n)) unique),
     [request_at api_key job_title location domain 0]).
Proof.
  intros Hn Hpage. cbv zeta.
  assert (Hc : st2.(collected) = first_seen (page_urls page)).
  { apply loop_body_continue in Hpage. destruct Hpage as [Hc _].
    simpl in Hc. now rewrite fresh_urls_nil in Hc. }
  unfold fetch_job_listings. rewrite listing_loop_cons.
  rewrite (loop_body_reaches n initial_state st2 page Hpage).
  2:{ simpl. apply Z.leb_le. lia. }
  rewrite Hc. unfold slice_to, request_at, listing_request. simpl start.
  f_equal. f_equal. destruct (Z.eqb_spec n 0) as [->|Hne]; [reflexivity|].
  destruct (Z.ltb_spec n 0); [|lia]. f_equal. lia.
Qed.

(** Witness of X3: limit -1 on a page with three unique URLs. *)
Lemma fetch_job_listings_nonpositive_limit_witness :
  fetch_job_listings "key" "dev" "Dhaka" (Some (-1)%Z) "www.indeed.com"
    (five_urls_second :: [five_urls_third])
  = (Returned [JStr "u3"; JStr "u4"],
     [request_at "key" "dev" "Dhaka" "www.indeed.com" 0]).
Proof.
  refine (fetch_job_listings_nonpositive_limit "key" "dev" "Dhaka" "www.indeed.com"
            (-1)%Z five_urls_second [five_urls_third]
            {| collected := [JStr "u3"; JStr "u4"; JStr "u5"];
               seen := [JStr "u5"; JStr "u4"; JStr "u3"]; start := 3; page_idx := 2 |}
            _ _).
  - lia.
  - vm_compute. reflexivity.
Defined.

(** ** The listing fetcher: what the result holds *)

Lemma first_seen_incl (l : list json) (u : json) :
  In u (first_seen l) -> In u l.
Proof.
  induction l as [|x t IH]; simpl; [tauto|].
  intros [H|H]; [now left|]. right. apply IH.
  apply filter_In in H. tauto.
Qed.

Lemma py_eqb_str_right (x : json) (s : string) :
  py_eqb x (JStr s) = true -> x = JStr s.
Proof.
  destruct x; simpl; try discriminate. intros H.
  apply String.eqb_eq in H. now subst.
Qed.

Lemma first_seen_keeps_strings (l : list json) (s : string) :
  In (JStr s) l -> In (JStr s) (first_seen l).
Proof.
  induction l as [|x t IH]; simpl; [tauto|].
  intros [H|H]; [now left|].
  destruct (py_eqb x (JStr s)) eqn:Hx.
  - left. now apply py_eqb_str_right.
  - right. apply filter_In. split; [now apply IH|]. now rewrite Hx.
Qed.

Lemma scan_jobs_hashable (jobs : list json) :
  forall seen new seen' new',
    scan_jobs jobs seen new = Ok (seen', new') ->
    Forall (fun u => hashable u = true) (filter truthy (map item_url jobs)).
Proof.
  induction jobs as [|j rest IH]; intros seen new seen' new'; simpl.
  - constructor.
  - destruct j as [| | | | |items]; simpl; try discriminate.
    set (u := match dict_get "url" items with Some v => v | None => JNull end).
    destruct (truthy u) eqn:Hu; simpl; [|apply IH].
    destruct (hashable u) eqn:Hh; simpl; [|discriminate].
    intros H. constructor; [exact Hh|].
    destruct (set_mem u seen); exact (IH _ _ _ _ H).
Qed.

(** A page the loop gets past, or stops on, has none but hashable URLs. *)
Lemma loop_body_page_sound (limit : option Z) (st : loop_state) (resp : response) :
  (forall e, loop_body limit st resp <> Throw e) ->
  Forall (fun u => hashable u = true) (page_urls resp).
Proof.
  intros Hno.
  destruct (loop_body_cases st resp) as [[Hu _]|[[e Hb]|[seen' [new [Hs _]]]]].
  - rewrite Hu. constructor.
  - exfalso. exact (Hno e (Hb limit)).
  - rewrite page_urls_unfold. exact (scan_jobs_hashable _ _ _ _ _ Hs).
Qed.

Lemma listing_loop_pages_sound (api_key job_title location : string)
    (limit : option Z) (domain : string) (script : list response) :
  forall st urls reqs,
    listing_loop api_key job_title location limit domain st script
    = (Returned urls, reqs) ->
    Forall (fun u => hashable u = true)
      (flat_map page_urls (firstn (List.length reqs) script)).
Proof.
  induction script as [|resp rest IH]; intros st urls reqs.
  - rewrite listing_loop_nil. discriminate.
  - rewrite listing_loop_cons.
    destruct (loop_body limit st resp) as [st'|urls'|e] eqn:Hb; try discriminate.
    + destruct (listing_loop _ _ _ _ _ st' rest) as [o reqs'] eqn:Hl.
      intros H. inversion H; subst o reqs. clear H.
      cbn [List.length firstn flat_map]. apply Forall_app. split.
      * apply (loop_body_page_sound limit st). intros e. rewrite Hb. discriminate.
      * exact (IH _ _ _ Hl).
    + intros H. inversion H; subst urls' reqs. clear H.
      cbn [List.length firstn flat_map]. rewrite app_nil_r.
      apply (loop_body_page_sound limit st). intros e. rewrite Hb. discriminate.
Qed.

(** X4.  Every value in the returned list is truthy and hashable - never
    [None], never an empty string - and is the [url] of an item of a page
    the function consumed. *)
Theorem fetch_job_listings_values (api_key job_title location : string)
    (limit : option Z) (domain : string) (script : list response)
    (urls : list json) (reqs : list request) (u : json) :
  fetch_job_listings api_key job_title location limit domain script
  = (Returned urls, reqs) ->
  In u urls ->
  is_url_value u = true
  /\ exists resp j, In resp (firstn (List.length reqs) script)
                    /\ In j (page_jobs resp) /\ item_url j = u.
Proof.
  unfold fetch_job_listings. intros H Hu.
  pose proof (listing_loop_pages_sound _ _ _ _ _ _ _ _ _ H) as Hs.
  apply listing_loop_returned in H. cbn zeta in H. simpl in H.
  rewrite fresh_urls_nil in H. destruct H as [[k Hk] _]. subst urls.
  apply firstn_incl, first_seen_incl in Hu.
  rewrite Forall_forall in Hs. specialize (Hs u Hu).
  apply in_flat_map in Hu. destruct Hu as [resp [Hr Hin]].
  rewrite page_urls_unfold in Hin. apply filter_In in Hin.
  destruct Hin as [Hin Ht]. apply in_map_iff in Hin. destruct Hin as [j [Hj Hjin]].
  split; [unfold is_url_value; now rewrite Ht, Hs|].
  exists resp, j. auto.
Qed.

(** Witness of X4. *)
Lemma fetch_job_listings_values_witness :
  is_url_value (JStr "https://www.indeed.com/viewjob?jk=2") = true.
Proof.
  refine (proj1 (fetch_job_listings_values "key" "dev" "Dhaka" None "www.indeed.com"
                   overlapping_script
                   [JStr "https://www.indeed.com/m/viewjob?jk=1";
                    JStr "https://www.indeed.com/viewjob?jk=1";
                    JStr "https://www.indeed.com/viewjob?jk=2"]
                   (snd (fetch_job_listings "key" "dev" "Dhaka" None "www.indeed.com"
                           overlapping_script))
                   (JStr "https://www.indeed.com/viewjob?jk=2") _ _)).
  - vm_compute. reflexivity.
  - right. right. left. reflexivity.
Defined.

(** X5.  Without a limit nothing is lost: a URL string is in the returned
    list exactly when it is the [url] of some item of a consumed page. *)
Theorem fetch_job_listings_complete (api_key job_title location domain : string)
    (script : list response) (urls : list json) (reqs : list request) (s : string) :
  fetch_job_listings api_key job_title location None domain script
  = (Returned urls, reqs) ->
  (In (JStr s) urls <->
   exists resp, In resp (firstn (List.length reqs) script)
                /\ In (JStr s) (page_urls resp)).
Proof.
  unfold fetch_job_listings. intros H.
  apply listing_loop_returned in H. cbn zeta in H. simpl in H.
  rewrite fresh_urls_nil in H. destruct H as [_ Hall].
  rewrite (Hall eq_refl). split.
  - intros Hin. apply first_seen_incl, in_flat_map in Hin. exact Hin.
  - intros Hex. apply first_seen_keeps_strings, in_flat_map. exact Hex.
Qed.

(** Witness of X5. *)
Lemma fetch_job_listings_complete_witness :
  In (JStr "https://www.indeed.com/viewjob?jk=2")
     [JStr "https://www.indeed.com/m/viewjob?jk=1";
      JStr "https://www.indeed.com/viewjob?jk=1";
      JStr "https://www.indeed.com/viewjob?jk=2"].
Proof.
  refine (proj2 (fetch_job_listings_complete "key" "dev" "Dhaka" "www.indeed.com"
                   overlapping_script _
                   (snd (fetch_job_listings "key" "dev" "Dhaka" None "www.indeed.com"
                           overlapping_script))
                   "https://www.indeed.com/viewjob?jk=2" _) _).
  - vm_compute. reflexivity.
  - exists (listing_page [job_item "https://www.indeed.com/viewjob?jk=1";
                          job_item "https://www.indeed.com/viewjob?jk=2"]).
    split; vm_compute; tauto.
Defined.

(** A page without raw items never lets the loop go on. *)
Lemma loop_body_empty_page (limit : option Z) (st st' : loop_state) (resp : response) :
  loop_body limit st resp = Continue st' -> 1 <= raw_length resp.
Proof.
  unfold raw_length, loop_body, page_jobs.
  destruct resp as [| |status_code [v|]]; try discriminate.
  2:{ destruct (status_code =? 200)%Z; discriminate. }
  destruct (status_code =? 200)%Z; cbn [negb]; [|discriminate].
  destruct (py_get (py_or v (JObj [])) "jobs" (JArr [])) as [got|e]; [|discriminate].
  destruct got as [|b|n|s|l|m].
  - discriminate.
  - destruct b; discriminate.
  - destruct n; discriminate.
  - destruct s as [|c t]; [discriminate|]. cbn. discriminate.
  - destruct l as [|j rest]; [discriminate|]. intros _. simpl. lia.
  - destruct m as [|[k w] rest]; [discriminate|]. cbn. discriminate.
Qed.

Lemma listing_loop_starts (api_key job_title location : string) (limit : option Z)
    (domain : string) (script : list response) :
  forall st o reqs,
    listing_loop api_key job_title location limit domain st script = (o, reqs) ->
    exists starts,
      reqs = map (request_at api_key job_title location domain) (st.(start) :: starts)
      /\ Sorted lt (st.(start) :: starts).
Proof.
  induction script as [|resp rest IH]; intros st o reqs.
  - rewrite listing_loop_nil. intros H. inversion H; subst.
    exists []. split; [reflexivity|]. repeat constructor.
  - rewrite listing_loop_cons.
    destruct (loop_body limit st resp) as [st'|urls'|e] eqn:Hb.
    + destruct (listing_loop _ _ _ _ _ st' rest) as [o' reqs'] eqn:Hl.
      intros H. inversion H; subst o reqs. clear H.
      destruct (IH _ _ _ Hl) as [starts [-> Hs]].
      pose proof (loop_body_empty_page _ _ _ _ Hb) as Hraw.
      apply loop_body_continue in Hb. destruct Hb as [_ [_ [Ht _]]].
      exists (st'.(start) :: starts). split; [reflexivity|].
      constructor; [exact Hs|]. constructor. lia.
    + intros H. inversion H; subst. exists []. split; [reflexivity|].
      repeat constructor.
    + intros H. inversion H; subst. exists []. split; [reflexivity|].
      repeat constructor.
Qed.

(** X6.  The pagination always moves forward: the first request has offset
    0 and the offsets of the requests grow strictly, so no page is asked
    for twice. *)
Theorem fetch_job_listings_progress (api_key job_title location : string)
    (limit : option Z) (domain : string) (script : list response) :
  exists starts,
    snd (fetch_job_listings api_key job_title location limit domain script)
    = map (request_at api_key job_title location domain) (0 :: starts)
    /\ StronglySorted lt (0 :: starts)
    /\ List.length starts <= List.length script.
Proof.
  unfold fetch_job_listings.
  destruct (listing_loop api_key job_title location limit domain initial_state script)
    as [o reqs] eqn:H.
  destruct (listing_loop_starts _ _ _ _ _ _ _ _ _ H) as [starts [Hr Hs]].
  exists starts. cbn [snd]. split; [exact Hr|]. split.
  - apply Sorted_StronglySorted; [|exact Hs]. intros a b c. apply Nat.lt_trans.
  - assert (Hlen : forall sc st o' rq,
               listing_loop api_key job_title location limit domain st sc = (o', rq) ->
               List.length rq <= S (List.length sc)).
    { induction sc as [|resp rest IH]; intros st o' rq.
      - rewrite listing_loop_nil. intros E. inversion E. simpl. lia.
      - rewrite listing_loop_cons.
        destruct (loop_body limit st resp) as [st'|urls'|e].
        + destruct (listing_loop _ _ _ _ _ st' rest) as [o2 rq2] eqn:Hl.
          intros E. inversion E; subst. simpl. specialize (IH _ _ _ Hl). lia.
        + intros E. inversion E. simpl. lia.
        + intros E. inversion E. simpl. lia. }
    specialize (Hlen _ _ _ _ H). rewrite Hr in Hlen.
    rewrite length_map in Hlen. simpl in Hlen. lia.
Qed.

(** ** The detail fetcher: failures and odd responses *)

Section DetailEdges.
Context {U : Urllib}.

(** What a 200 reply with a JSON body gives: a JobDetail with the six keys,
    or an exception; never [None]. *)
Lemma fetch_job_details_reply (api_key job_url : string) (v : json) :
  (exists e, fetch_job_details api_key job_url (Reply 200 (Some v)) = Raise e)
  \/ (exists title company location description,
        fetch_job_details api_key job_url (Reply 200 (Some v))
        = Ok (Some (JObj [("title", title); ("company", company);
                          ("location", location); ("description", description);
                          ("url", JStr (normalize_job_url job_url));
                          ("source_url", JStr job_url)]))).
Proof.
  unfold fetch_job_details. cbn [Z.eqb Pos.eqb negb].
  destruct (py_get _ "job" _) as [nested|e]; cbn [bind]; [|eauto].
  destruct (or_else _ _) as [title|e]; cbn [bind]; [|eauto].
  destruct (or_else _ _) as [company|e]; cbn [bind]; [|eauto].
  destruct (or_else _ _) as [location|e]; cbn [bind]; [|eauto].
  destruct (or_else _ _) as [description|e]; cbn [bind]; [|eauto].
  right. eauto 10.
Qed.

(** X7.  [fetch_job_details] returns [None] exactly on a transport failure
    or a status other than 200; on a 200 response it returns a JobDetail or
    raises. *)
Theorem fetch_job_details_none_iff (api_key job_url : string) (resp : response) :
  fetch_job_details api_key job_url resp = Ok None <-> failed_response resp = true.
Proof.
  destruct resp as [| |status_code body]; try (split; reflexivity).
  unfold failed_response.
  destruct (Z.eqb_spec status_code 200) as [->|Hne].
  - split; [|discriminate]. destruct body as [v|]; [|discriminate].
    destruct (fetch_job_details_reply api_key job_url v)
      as [[e ->]|[t [c [l [d ->]]]]]; discriminate.
  - split; [reflexivity|]. intros _. unfold fetch_job_details.
    apply Z.eqb_neq in Hne. now rewrite Hne.
Qed.

(** X8.  A JobDetail the function returns is a dict with exactly the keys
    title, company, location, description, url and source_url, in this
    order; [url] is the normalized URL, [source_url] the URL as it was
    given; and the dict is truthy, so that a caller testing it keeps it. *)
Theorem fetch_job_details_shape (api_key job_url : string) (resp : response)
    (detail : json) :
  fetch_job_details api_key job_url resp = Ok (Some detail) ->
  (exists title company location description,
      detail = JObj [("title", title); ("company", company);
                     ("location", location); ("description", description);
                     ("url", JStr (normalize_job_url job_url));
                     ("source_url", JStr job_url)])
  /\ truthy detail = true
  /\ failed_response resp = false.
Proof.
  intros H.
  assert (Hf : failed_response resp = false).
  { destruct (failed_response resp) eqn:Hf; [|reflexivity].
    apply (proj2 (fetch_job_details_none_iff api_key job_url resp)) in Hf.
    congruence. }
  destruct resp as [| |status_code [v|]]; try discriminate.
  2:{ unfold fetch_job_details in H.
      destruct (negb (status_code =? 200)%Z); discriminate. }
  assert (Hc : status_code = 200%Z).
  { unfold failed_response in Hf. apply negb_false_iff in Hf.
    now apply Z.eqb_eq. }
  subst status_code.
  destruct (fetch_job_details_reply api_key job_url v)
    as [[e He]|[t [c [l [d Hd]]]]]; [congruence|].
  rewrite Hd in H. inversion H; subst detail.
  split; [eauto 10|]. split; [reflexivity|exact Hf].
Qed.

End DetailEdges.

(** Witness of X8. *)
Lemma fetch_job_details_shape_witness :
  truthy (job_detail (U := plain_urllib) [("title", JStr "T")] []
            "https://www.indeed.com/m/viewjob?jk=1") = true.
Proof.
  refine (proj1 (proj2 (@fetch_job_details_shape plain_urllib "key"
                          "https://www.indeed.com/m/viewjob?jk=1"
                          (Reply 200 (Some (JObj [("title", JStr "T")]))) _ _))).
  apply fetch_job_details_object; reflexivity.
Defined.

Section DetailBodies.
Context {U : Urllib}.

(** X9.  A 200 response whose JSON body is falsy - [null], [{}], [[]], [0],
    [false], [""] - is treated as an empty object: the function returns a
    JobDetail whose four fields are empty strings. *)
Theorem fetch_job_details_falsy_body (api_key job_url : string) (v : json) :
  truthy v = false ->
  fetch_job_details api_key job_url (Reply 200 (Some v))
  = Ok (Some (job_detail [] [] job_url))
  /\ forall f, json_field (field_name f) (job_detail [] [] job_url) = Some (JStr "").
Proof.
  intros Hv. split.
  - apply fetch_job_details_object; [|reflexivity]. unfold py_or. now rewrite Hv.
  - intros []; reflexivity.
Qed.

Lemma or_else_top (top : list (string * json)) (keys : list string)
    (other : result json) :
  or_else (pick (JObj top) keys) other
  = if truthy (first_match top [] (map (pair TopLevel) keys))
    then Ok (first_match top [] (map (pair TopLevel) keys))
    else other.
Proof. now rewrite (pick_object top [] TopLevel keys). Qed.

Lemma first_match_top_only (top nested : list (string * json)) (k1 : list string)
    (c2 : list (container * string)) :
  truthy (first_match top [] (map (pair TopLevel) k1)) = true ->
  first_match top nested (map (pair TopLevel) k1 ++ c2)
  = first_match top [] (map (pair TopLevel) k1).
Proof.
  assert (Hsame : forall ks, first_match top nested (map (pair TopLevel) ks)
                             = first_match top [] (map (pair TopLevel) ks)).
  { induction ks as [|k ks IH]; simpl; [reflexivity|].
    destruct (dict_get k top) as [v|]; [|exact IH].
    destruct (truthy v); [reflexivity|exact IH]. }
  intros Ht. rewrite first_match_app, Hsame. now rewrite Ht.
Qed.

(** X10.  The nested object is looked at only for a field the top level
    does not give.  When the top level gives all four fields the value
    under ["job"] is never inspected, whatever it is; when some field is not
    given at the top level and ["job"] is [null], the function raises
    [TypeError]. *)
Theorem fetch_job_details_null_job (api_key job_url : string)
    (top : list (string * json)) (job : json) :
  dict_get "job" top = Some job ->
  (top_complete top = true ->
   fetch_job_details api_key job_url (Reply 200 (Some (JObj top)))
   = Ok (Some (job_detail top [] job_url)))
  /\ (top_complete top = false -> job = JNull ->
      fetch_job_details api_key job_url (Reply 200 (Some (JObj top)))
      = Raise TypeError).
Proof.
  intros Hjob.
  assert (Hdata : py_or (JObj top) (JObj []) = JObj top).
  { destruct top as [|kv t]; [discriminate|reflexivity]. }
  unfold fetch_job_details. cbn [Z.eqb Pos.eqb negb]. rewrite Hdata.
  cbn [py_get bind]. rewrite Hjob. rewrite !or_else_top.
  unfold top_complete. cbn [map].
  destruct (truthy (first_match top [] [(TopLevel, "title")])) eqn:H1;
    cbn [andb bind].
  2:{ split; [discriminate|]. intros _ ->. reflexivity. }
  destruct (truthy (first_match top [] [(TopLevel, "company")])) eqn:H2;
    cbn [andb bind].
  2:{ split; [discriminate|]. intros _ ->. reflexivity. }
  destruct (truthy (first_match top [] [(TopLevel, "location")])) eqn:H3;
    cbn [andb bind].
  2:{ split; [discriminate|]. intros _ ->. reflexivity. }
  destruct (truthy (first_match top []
                      [(TopLevel, "description"); (TopLevel, "jobDescription");
                       (TopLevel, "full_description")])) eqn:H4; cbn [andb bind].
  2:{ split; [discriminate|]. intros _ ->. reflexivity. }
  split; [intros _|discriminate].
  unfold job_detail, candidates.
  pose proof (first_match_top_only top [] ["title"]
                [(UnderJob, "title"); (UnderJob, "jobTitle")] H1) as E1.
  pose proof (first_match_top_only top [] ["company"]
                [(UnderJob, "company"); (UnderJob, "companyName");
                 (UnderJob, "company_name")] H2) as E2.
  pose proof (first_match_top_only top [] ["location"]
                [(UnderJob, "location"); (UnderJob, "jobLocation")] H3) as E3.
  pose proof (first_match_top_only top []
                ["description"; "jobDescription"; "full_description"]
                [(UnderJob, "description"); (UnderJob, "jobDescription");
                 (UnderJob, "full_description")] H4) as E4.
  cbn [map app] in E1, E2, E3, E4. rewrite E1, E2, E3, E4.
  unfold py_or. now rewrite H1, H2, H3, H4.
Qed.
End DetailBodies.

(** Witness of X9. *)
Lemma fetch_job_details_falsy_body_witness :
  @fetch_job_details plain_urllib "key" "https://www.indeed.com/viewjob?jk=1"
    (Reply 200 (Some JNull))
  = Ok (Some (job_detail (U := plain_urllib) [] []
                "https://www.indeed.com/viewjob?jk=1")).
Proof.
  exact (proj1 (@fetch_job_details_falsy_body plain_urllib "key"
                  "https://www.indeed.com/viewjob?jk=1" JNull eq_refl)).
Defined.

(** Witness of X10: a null ["job"] beside a title only. *)
Lemma fetch_job_details_null_job_witness :
  @fetch_job_details plain_urllib "key" "https://www.indeed.com/viewjob?jk=1"
    (Reply 200 (Some (JObj [("title", JStr "T"); ("job", JNull)])))
  = Raise TypeError.
Proof.
  exact (proj2 (@fetch_job_details_null_job plain_urllib "key"
                  "https://www.indeed.com/viewjob?jk=1"
                  [("title", JStr "T"); ("job", JNull)] JNull eq_refl)
           eq_refl eq_refl).
Defined.

(** ** What the requests carry *)

Lemma quote_step_decode (a : ascii) (t : string) :
  unquote_bytes (quote (String a t)) = String a (unquote_bytes (quote t)).
Proof. destruct a as [[] [] [] [] [] [] [] []]; reflexivity. Qed.

Lemma quote_step_chars (a : ascii) (t : string) :
  str_forall is_quoted_char (quote (String a t))
  = str_forall is_quoted_char (quote t).
Proof. destruct a as [[] [] [] [] [] [] [] []]; reflexivity. Qed.

Lemma quote_decode (s : string) : unquote_bytes (quote s) = s.
Proof.
  induction s as [|a t IH]; [reflexivity|]. now rewrite quote_step_decode, IH.
Qed.

Lemma quote_chars (s : string) : str_forall is_quoted_char (quote s) = true.
Proof.
  induction s as [|a t IH]; [reflexivity|]. now rewrite quote_step_chars.
Qed.

Lemma quote_without (c : ascii) (s : string) :
  is_quoted_char c = false -> char_in c (quote s) = false.
Proof. intros Hc. apply (char_in_forall is_quoted_char); [exact Hc|apply quote_chars]. Qed.

Lemma quote_truthy (s : string) : s <> EmptyString -> str_truthy (quote s) = true.
Proof.
  destruct s as [|a t]; [congruence|]. intros _. cbn [quote].
  now destruct (is_always_safe a || Ascii.eqb a "/").
Qed.

Lemma append_empty (s : string) : (s ++ "")%string = s.
Proof. induction s as [|a t IH]; simpl; [reflexivity|now rewrite IH]. Qed.

Lemma replace_char_absent (c d : ascii) (s : string) :
  char_in c s = false ->
  str_replace (String c EmptyString) (String d EmptyString) None s = s.
Proof.
  rewrite replace_char_map. induction s as [|a t IH]; simpl; [reflexivity|].
  destruct (Ascii.eqb a c); simpl; [discriminate|]. intros H. now rewrite IH.
Qed.

Lemma strip_unsafe_absent (s : string) :
  char_in char_tab s = false -> char_in char_cr s = false ->
  char_in char_lf s = false -> strip_unsafe s = s.
Proof.
  intros Ht Hc Hl. rewrite strip_unsafe_filter.
  rewrite (char_in_filter_all char_tab) by exact Ht.
  rewrite (char_in_filter_all char_cr) by exact Hc.
  now rewrite (char_in_filter_all char_lf) by exact Hl.
Qed.

Lemma str_split_app (c : ascii) (a b : string) :
  char_in c a = false ->
  str_split c (a ++ String c b) = a :: str_split c b.
Proof.
  induction a as [|x r IH]; simpl.
  - intros _. now rewrite Ascii.eqb_refl.
  - destruct (Ascii.eqb x c); simpl; [discriminate|].
    intros H. now rewrite (IH H).
Qed.

(** One [name=value] pair of a query, decoded on the bytes. *)
Lemma parse_pair_decodes (n v : string) :
  char_in "=" n = false -> char_in "+" n = false -> char_in "%" n = false ->
  char_in "+" v = false -> str_truthy v = true ->
  @parse_pair plain_urllib (n ++ String "=" v) = [(n, unquote_bytes v)].
Proof.
  intros He Hp Hx Hv Hne. unfold parse_pair.
  assert (Ht : str_truthy (n ++ String "=" v) = true) by now destruct n.
  rewrite Ht. cbn [negb].
  rewrite (str_partition_app "=" n _ He). cbn [str_partition].
  rewrite Ascii.eqb_refl, append_empty, Hne.
  rewrite !replace_char_absent by assumption.
  cbn [unquote plain_urllib]. now rewrite (unquote_bytes_plain n Hx).
Qed.

Lemma digits_only (d : Decimal.uint) :
  str_forall is_digit (NilEmpty.string_of_uint d) = true.
Proof. induction d; simpl; [reflexivity|exact IHd..]. Qed.

Lemma str_of_nat_digits (n : nat) :
  str_forall is_digit (str_of_nat n) = true /\ str_truthy (str_of_nat n) = true.
Proof.
  unfold str_of_nat, NilZero.string_of_uint.
  destruct (Nat.to_uint n) eqn:E; try (split; [apply (digits_only (_ _))|reflexivity]).
  split; reflexivity.
Qed.

Section RequestUrls.
Context {U : Urllib}.

Lemma urlsplit_detail_url (norm : string) :
  urlsplit (detail_url norm)
  = Ok {| scheme := "https"; netloc := "api.hasdata.com";
          path := "/scrape/indeed/job"; query := "url=" ++ quote norm;
          fragment := "" |}.
Proof.
  unfold urlsplit, detail_url.
  change (str_lstrip is_c0_control_or_space
            ("https://api.hasdata.com/scrape/indeed/job?url=" ++ quote norm))
    with ("https://api.hasdata.com/scrape/indeed/job?url=" ++ quote norm)%string.
  rewrite strip_unsafe_app.
  rewrite (strip_unsafe_absent (quote norm)) by (now apply quote_without).
  change (strip_unsafe "https://api.hasdata.com/scrape/indeed/job?url=")
    with "https://api.hasdata.com/scrape/indeed/job?url=".
  change (split_scheme ("https://api.hasdata.com/scrape/indeed/job?url=" ++ quote norm))
    with ("https", ("//api.hasdata.com/scrape/indeed/job?url=" ++ quote norm)%string).
  cbv beta iota.
  change (take_netloc ("//api.hasdata.com/scrape/indeed/job?url=" ++ quote norm))
    with (Ok ("api.hasdata.com", ("/scrape/indeed/job?url=" ++ quote norm)%string)).
  cbn [bind].
  rewrite split_first_absent.
  2:{ rewrite char_in_app. now rewrite (quote_without "#"). }
  change (split_first "?" ("/scrape/indeed/job?url=" ++ quote norm))
    with ("/scrape/indeed/job", ("url=" ++ quote norm)%string).
  reflexivity.
Qed.
End RequestUrls.

Lemma parse_qs_detail_url (norm : string) :
  norm <> EmptyString ->
  @parse_qs plain_urllib ("url=" ++ quote norm) = [("url", [norm])].
Proof.
  intros Hne. unfold parse_qs, parse_qsl.
  change (str_truthy ("url=" ++ quote norm)) with true. cbv iota.
  rewrite str_split_none.
  2:{ rewrite char_in_app. now rewrite (quote_without "&"). }
  cbn [flat_map].
  change ("url=" ++ quote norm)%string with ("url" ++ String "=" (quote norm))%string.
  rewrite parse_pair_decodes; try reflexivity.
  - now rewrite quote_decode.
  - now apply quote_without.
  - now apply quote_truthy.
Qed.

(** ** The normalizer: every result, and the URLs that do not parse *)

Lemma splitnetloc_app (h r : string) :
  char_in "/" h = false -> char_in "?" h = false -> char_in "#" h = false ->
  splitnetloc (h ++ String "/" r) = (h, String "/" r).
Proof.
  induction h as [|a t IH]; cbn [append splitnetloc char_in]; [reflexivity|].
  intros H1 H2 H3.
  apply orb_false_elim in H1, H2, H3.
  destruct H1 as [A1 B1], H2 as [A2 B2], H3 as [A3 B3].
  rewrite A1, A2, A3. cbn [orb]. now rewrite (IH B1 B2 B3).
Qed.

Lemma char_in_filter_kept (c : ascii) (p : ascii -> bool) (s : string) :
  p c = true -> char_in c (str_filter p s) = char_in c s.
Proof.
  intros Hc. induction s as [|a t IH]; simpl; [reflexivity|].
  destruct (p a) eqn:Ha; simpl; [now rewrite IH|].
  destruct (Ascii.eqb_spec a c) as [->|]; [congruence|exact IH].
Qed.

Lemma char_in_strip_unsafe_kept (c : ascii) (s : string) :
  Ascii.eqb c char_tab = false -> Ascii.eqb c char_cr = false ->
  Ascii.eqb c char_lf = false ->
  char_in c (strip_unsafe s) = char_in c s.
Proof.
  intros Ht Hc Hl. rewrite strip_unsafe_filter.
  rewrite !char_in_filter_kept; try reflexivity; apply negb_true_iff; assumption.
Qed.

Section NormalizerResults.
Context {U : Urllib}.

(** X11.  Whatever the input, [normalize_job_url] returns one of three
    things: the input itself, the canonical URL of a non-empty job id, or
    the input with its first [/m/viewjob] turned into [/viewjob].  It never
    returns the empty string for a non-empty input. *)
Theorem normalize_job_url_shape (url : string) :
  (normalize_job_url url = url
   \/ (exists id, id <> EmptyString /\ normalize_job_url url = canonical_url id)
   \/ (exists a b, find_first "/m/viewjob" url = Some (a, b)
                   /\ normalize_job_url url = (a ++ "/viewjob" ++ b)%string))
  /\ (url <> EmptyString -> normalize_job_url url <> EmptyString).
Proof.
  assert (H : normalize_job_url url = url
   \/ (exists id, id <> EmptyString /\ normalize_job_url url = canonical_url id)
   \/ (exists a b, find_first "/m/viewjob" url = Some (a, b)
                   /\ normalize_job_url url = (a ++ "/viewjob" ++ b)%string)).
  { rewrite normalize_job_url_unfold.
    destruct (urlparse url) as [parsed|e]; [|now left].
    rewrite normalize_parsed_unfold.
    assert (Hm : mobile_rewrite url = url
                 \/ exists a b, find_first "/m/viewjob" url = Some (a, b)
                      /\ mobile_rewrite url = (a ++ "/viewjob" ++ b)%string).
    { unfold mobile_rewrite. destruct (str_contains "/m/viewjob" url); [|now left].
      rewrite replace_first.
      destruct (find_first "/m/viewjob" url) as [[a b]|]; [|now left].
      right. now exists a, b. }
    destruct (job_key (parse_qs (query parsed))) as [jk|].
    - destruct (str_truthy jk) eqn:Hjk.
      + right; left. exists jk. split; [now apply str_truthy_true|reflexivity].
      + destruct Hm as [Hm|Hm]; [now left|now right; right].
    - destruct Hm as [Hm|Hm]; [now left|now right; right]. }
  split; [exact H|]. intros Hne.
  destruct H as [->|[[id [_ ->]]|[a [b [_ ->]]]]]; [exact Hne|discriminate|].
  destruct a; discriminate.
Qed.

(** X12.  A URL whose host has an opening bracket without a closing one
    does not parse ([urlparse] raises [ValueError]); the exception is
    swallowed and the URL is returned unchanged, also when it carries a job
    id or a mobile path. *)
Theorem normalize_job_url_unparsable (host rest : string) :
  char_in "[" host = true -> char_in "]" host = false ->
  char_in "/" host = false -> char_in "?" host = false -> char_in "#" host = false ->
  urlparse ("https://" ++ host ++ "/" ++ rest) = Raise (ValueError "Invalid IPv6 URL")
  /\ normalize_job_url ("https://" ++ host ++ "/" ++ rest)
     = ("https://" ++ host ++ "/" ++ rest)%string.
Proof.
  intros Ho Hc Hs Hq Hh.
  assert (Hp : urlparse ("https://" ++ host ++ "/" ++ rest)
               = Raise (ValueError "Invalid IPv6 URL")).
  { unfold urlparse, urlsplit.
    change (str_lstrip is_c0_control_or_space ("https://" ++ host ++ "/" ++ rest))
      with ("https://" ++ host ++ "/" ++ rest)%string.
    rewrite !strip_unsafe_app.
    change (strip_unsafe "https://") with "https://".
    change (strip_unsafe "/") with "/".
    change (split_scheme ("https://" ++ strip_unsafe host ++ "/" ++ strip_unsafe rest))
      with ("https", ("//" ++ strip_unsafe host ++ "/" ++ strip_unsafe rest)%string).
    cbv beta iota. unfold take_netloc.
    assert (Hpre : forall x, prefix "//" ("//" ++ x) = true)
      by (intros [|? ?]; reflexivity).
    rewrite Hpre.
    change (str_drop 2 ("//" ++ strip_unsafe host ++ "/" ++ strip_unsafe rest))
      with (strip_unsafe host ++ String "/" (strip_unsafe rest))%string.
    rewrite splitnetloc_app by now apply char_in_strip_unsafe.
    rewrite !char_in_strip_unsafe_kept by reflexivity.
    now rewrite Ho, Hc. }
  split; [exact Hp|]. now rewrite normalize_job_url_unfold, Hp.
Qed.
End NormalizerResults.

(** Witness of X11. *)
Lemma normalize_job_url_shape_witness :
  @normalize_job_url plain_urllib "https://www.indeed.com/m/viewjob" <> EmptyString.
Proof.
  refine (proj2 (@normalize_job_url_shape plain_urllib
                   "https://www.indeed.com/m/viewjob") _).
  discriminate.
Defined.

(** Witness of X12: a job id behind a malformed host. *)
Lemma normalize_job_url_unparsable_witness :
  @normalize_job_url plain_urllib "https://[::1/viewjob?jk=abc"
  = "https://[::1/viewjob?jk=abc".
Proof.
  exact (proj2 (@normalize_job_url_unparsable plain_urllib "[::1" "viewjob?jk=abc"
                  eq_refl eq_refl eq_refl eq_refl eq_refl)).
Defined.

Lemma str_app_assoc (a b c : string) : ((a ++ b) ++ c = a ++ (b ++ c))%string.
Proof. induction a as [|x r IH]; simpl; [reflexivity|now rewrite IH]. Qed.

Lemma digits_without (c : ascii) (n : nat) :
  is_digit c = false -> char_in c (str_of_nat n) = false.
Proof.
  intros Hc. apply (char_in_forall is_digit); [exact Hc|].
  apply str_of_nat_digits.
Qed.

(** X13.  The request for the details of a job carries the normalized URL
    losslessly: the request URL parses, its host and path are those of the
    API, and its query has the one parameter [url] whose decoded value is
    the normalized job URL, whatever characters that URL contains. *)
Theorem detail_request_round_trip (api_key job_url : string) :
  job_url <> EmptyString ->
  @urlparse plain_urllib (req_url (@detail_request plain_urllib api_key job_url))
  = Ok {| scheme := "https"; netloc := "api.hasdata.com";
          path := "/scrape/indeed/job";
          query := "url=" ++ quote (@normalize_job_url plain_urllib job_url);
          fragment := "" |}
  /\ @parse_qs plain_urllib ("url=" ++ quote (@normalize_job_url plain_urllib job_url))
     = [("url", [@normalize_job_url plain_urllib job_url])]
  /\ req_api_key (@detail_request plain_urllib api_key job_url) = api_key.
Proof.
  intros Hne. split; [|split; [|reflexivity]].
  - unfold detail_request, urlparse. cbn [req_url]. apply urlsplit_detail_url.
  - apply parse_qs_detail_url.
    now apply (proj2 (@normalize_job_url_shape plain_urllib job_url)).
Qed.

(** Witness of X13: a URL with a space and an ampersand. *)
Lemma detail_request_round_trip_witness :
  @parse_qs plain_urllib
    ("url=" ++ quote (@normalize_job_url plain_urllib "https://x.org/a b?q=1&r=2"))
  = [("url", [@normalize_job_url plain_urllib "https://x.org/a b?q=1&r=2"])].
Proof.
  refine (proj1 (proj2 (detail_request_round_trip "key" "https://x.org/a b?q=1&r=2" _))).
  discriminate.
Defined.

(** X14.  The request for a page of the listing carries the search
    losslessly: the request URL parses, and its query has exactly the four
    parameters keyword, location, domain and start, whose decoded values
    are the job title, the location, the domain and the offset in decimal,
    whatever characters the title and the location contain. *)
Theorem listing_url_round_trip (job_title location domain : string) (offset : nat) :
  job_title <> EmptyString -> location <> EmptyString ->
  domain <> EmptyString -> clean_id domain = true ->
  @urlparse plain_urllib (listing_url job_title location domain offset)
  = Ok {| scheme := "https"; netloc := "api.hasdata.com";
          path := "/scrape/indeed/listing";
          query := "keyword=" ++ quote job_title ++ "&location=" ++ quote location
                   ++ "&domain=" ++ domain ++ "&start=" ++ str_of_nat offset;
          fragment := "" |}
  /\ @parse_qs plain_urllib
       ("keyword=" ++ quote job_title ++ "&location=" ++ quote location
        ++ "&domain=" ++ domain ++ "&start=" ++ str_of_nat offset)
     = [("keyword", [job_title]); ("location", [location]);
        ("domain", [domain]); ("start", [str_of_nat offset])].
Proof.
  intros Ht Hl Hd Hc.
  set (N := str_of_nat offset).
  set (T := (quote job_title ++ "&location=" ++ quote location
             ++ "&domain=" ++ domain ++ "&start=" ++ N)%string).
  assert (Hout : forall c, is_quoted_char c = false -> id_char_ok c = false ->
                           is_digit c = false ->
                           char_in c "&location=" = false ->
                           char_in c "&domain=" = false ->
                           char_in c "&start=" = false ->
                           char_in c T = false).
  { intros c H1 H2 H3 H4 H5 H6. unfold T. rewrite !char_in_app.
    rewrite !(quote_without c) by exact H1.
    rewrite (clean_id_chars domain c H2 Hc).
    unfold N. now rewrite (digits_without c offset H3), H4, H5, H6. }
  split.
  - change (listing_url job_title location domain offset)
      with ("https://api.hasdata.com/scrape/indeed/listing?keyword=" ++ T)%string.
    unfold urlparse, urlsplit.
    change (str_lstrip is_c0_control_or_space
              ("https://api.hasdata.com/scrape/indeed/listing?keyword=" ++ T))
      with ("https://api.hasdata.com/scrape/indeed/listing?keyword=" ++ T)%string.
    rewrite strip_unsafe_app.
    rewrite (strip_unsafe_absent T) by (apply Hout; reflexivity).
    change (strip_unsafe "https://api.hasdata.com/scrape/indeed/listing?keyword=")
      with "https://api.hasdata.com/scrape/indeed/listing?keyword=".
    change (split_scheme ("https://api.hasdata.com/scrape/indeed/listing?keyword=" ++ T))
      with ("https", ("//api.hasdata.com/scrape/indeed/listing?keyword=" ++ T)%string).
    cbv beta iota.
    change (take_netloc ("//api.hasdata.com/scrape/indeed/listing?keyword=" ++ T))
      with (Ok ("api.hasdata.com", ("/scrape/indeed/listing?keyword=" ++ T)%string)).
    cbn [bind].
    rewrite split_first_absent.
    2:{ rewrite char_in_app. now rewrite (Hout "#"%char). }
    change (split_first "?" ("/scrape/indeed/listing?keyword=" ++ T))
      with ("/scrape/indeed/listing", ("keyword=" ++ T)%string).
    cbv beta iota. reflexivity.
  - unfold parse_qs, parse_qsl.
    change (str_truthy ("keyword=" ++ T)) with true. cbv iota.
    change ("keyword=" ++ T)%string
      with ("keyword=" ++ (quote job_title ++ String "&"
              ("location=" ++ (quote location ++ String "&"
                 ("domain=" ++ (domain ++ String "&" ("start=" ++ N)))))))%string.
    rewrite <- (str_app_assoc "keyword=").
    rewrite str_split_app.
    2:{ rewrite char_in_app. now rewrite (quote_without "&"). }
    rewrite <- (str_app_assoc "location=").
    rewrite str_split_app.
    2:{ rewrite char_in_app. now rewrite (quote_without "&"). }
    rewrite <- (str_app_assoc "domain=").
    rewrite str_split_app.
    2:{ rewrite char_in_app. now rewrite (clean_id_chars domain "&"). }
    rewrite str_split_none.
    2:{ rewrite char_in_app. unfold N. now rewrite (digits_without "&"). }
    cbn [flat_map].
    change ("keyword=" ++ quote job_title)%string
      with ("keyword" ++ String "=" (quote job_title))%string.
    change ("location=" ++ quote location)%string
      with ("location" ++ String "=" (quote location))%string.
    change ("domain=" ++ domain)%string with ("domain" ++ String "=" domain)%string.
    change ("start=" ++ N)%string with ("start" ++ String "=" N)%string.
    rewrite !parse_pair_decodes;
      try first [ reflexivity
                | now apply quote_without
                | now apply quote_truthy
                | now apply clean_id_chars
                | now apply str_truthy_true
                | unfold N; now apply digits_without
                | unfold N; apply str_of_nat_digits ].
    rewrite !quote_decode.
    rewrite (unquote_bytes_plain domain) by now apply clean_id_chars.
    rewrite (unquote_bytes_plain N) by (unfold N; now apply digits_without).
    reflexivity.
Qed.

(** Witness of X14. *)
Lemma listing_url_round_trip_witness :
  @parse_qs plain_urllib
    ("keyword=" ++ quote "C++ & C#" ++ "&location=" ++ quote "Dhaka, Bangladesh"
     ++ "&domain=" ++ "www.indeed.com" ++ "&start=" ++ str_of_nat 15)
  = [("keyword", ["C++ & C#"]); ("location", ["Dhaka, Bangladesh"]);
     ("domain", ["www.indeed.com"]); ("start", [str_of_nat 15])].
Proof.
  refine (proj2 (listing_url_round_trip "C++ & C#" "Dhaka, Bangladesh"
                   "www.indeed.com" 15 _ _ _ _));
    first [discriminate | reflexivity].
Defined.
(** ** The orchestrator *)

Section Runs.
Context {U : Urllib}.

Lemma fetch_job_details_truthy (api_key job_url : string) (resp : response)
    (detail : json) :
  fetch_job_details api_key job_url resp = Ok (Some detail) -> truthy detail = true.
Proof.
  destruct resp as [| |status_code [v|]]; try discriminate.
  - destruct (Z.eqb_spec status_code 200) as [->|Hne].
    + destruct (fetch_job_details_reply api_key job_url v)
        as [[e ->]|[t [c [l [d ->]]]]]; [discriminate|].
      intros H. now inversion H.
    + unfold fetch_job_details. apply Z.eqb_neq in Hne. rewrite Hne. discriminate.
  - unfold fetch_job_details. destruct (negb (status_code =? 200)%Z); discriminate.
Qed.

(** When every URL is answered, the loop of lines 201 to 210 sends one
    request per URL and keeps every JobDetail. *)
Lemma details_loop_answered (api_key : string) (us : list string) :
  forall script acc,
    all_answered api_key us script = true ->
    details_loop api_key (map JStr us) script acc
    = (DetailsDone (acc ++ successes api_key us script),
       map (detail_request api_key) us).
Proof.
  induction us as [|u us IH]; intros script acc.
  - intros _. cbn. now rewrite app_nil_r.
  - destruct script as [|resp rest]; [discriminate|].
    cbn [all_answered map details_loop successes].
    destruct (fetch_job_details api_key u resp) as [[d|]|e] eqn:Hf; [| |discriminate].
    + intros H. rewrite (fetch_job_details_truthy _ _ _ _ Hf).
      rewrite (IH rest (acc ++ [d]) H). now rewrite <- app_assoc.
    + intros H. now rewrite (IH rest acc H).
Qed.

(** The loop ends normally only when every entry is a string and every
    one is answered. *)
Lemma details_loop_done (api_key : string) (urls : list json) :
  forall script acc detailed reqs,
    details_loop api_key urls script acc = (DetailsDone detailed, reqs) ->
    exists us, urls = map JStr us /\ all_answered api_key us script = true.
Proof.
  induction urls as [|j urls IH]; intros script acc detailed reqs.
  - intros _. now exists [].
  - destruct j as [|b|n|u|l|m]; try discriminate.
    destruct script as [|resp rest]; [discriminate|].
    cbn [details_loop].
    destruct (fetch_job_details api_key u resp) as [details|e] eqn:Hf; [|discriminate].
    destruct (details_loop api_key urls rest _) as [o reqs'] eqn:Hl.
    intros H. inversion H; subst o reqs. clear H.
    destruct (IH _ _ _ _ Hl) as [us [-> Ha]].
    exists (u :: us). split; [reflexivity|]. cbn [all_answered]. now rewrite Hf.
Qed.

(** However the loop ends, its requests are those of a prefix of the
    list, one each, in order. *)
Lemma details_loop_requests (api_key : string) (urls : list json) :
  forall script acc o reqs,
    details_loop api_key urls script acc = (o, reqs) ->
    exists us rest, urls = map JStr us ++ rest
                    /\ reqs = map (detail_request api_key) us.
Proof.
  induction urls as [|j urls IH]; intros script acc o reqs.
  - intros H. inversion H. now exists [], [].
  - destruct j as [|b|n|u|l|m];
      try (intros H; inversion H; exists [];
           eexists; split; reflexivity).
    destruct script as [|resp rest].
    { intros H. inversion H. now exists [u], urls. }
    cbn [details_loop].
    destruct (fetch_job_details api_key u resp) as [details|e] eqn:Hf.
    2:{ intros H. inversion H. now exists [u], urls. }
    destruct (details_loop api_key urls rest _) as [o' reqs'] eqn:Hl.
    intros H. inversion H; subst o reqs. clear H.
    destruct (IH _ _ _ _ Hl) as [us [rest' [-> ->]]].
    now exists (u :: us), rest'.
Qed.

(** An exception in the answer to one URL ends the loop there. *)
Lemma details_loop_raises (api_key : string) (pre_us : list string) :
  forall pre acc u post bad rest e,
    all_answered api_key pre_us pre = true ->
    List.length pre = List.length pre_us ->
    fetch_job_details api_key u bad = Raise e ->
    details_loop api_key (map JStr (pre_us ++ u :: post)) (pre ++ bad :: rest) acc
    = (DetailsRaised e, map (detail_request api_key) (pre_us ++ [u])).
Proof.
  induction pre_us as [|v pre_us IH]; intros pre acc u post bad rest e.
  - destruct pre; [|discriminate]. intros _ _ Hf. cbn. now rewrite Hf.
  - destruct pre as [|resp pre]; [discriminate|].
    cbn [all_answered app map details_loop List.length].
    destruct (fetch_job_details api_key v resp) as [details|e'] eqn:Hv;
      [|discriminate].
    intros Ha Hlen Hf. injection Hlen as Hlen.
    now rewrite (IH pre _ u post bad rest e Ha Hlen Hf).
Qed.

Lemma successes_length (api_key : string) (us : list string) :
  forall script, List.length (successes api_key us script) <= List.length us.
Proof.
  induction us as [|u us IH]; intros [|resp rest]; cbn [successes List.length];
    try lia.
  specialize (IH rest).
  destruct (fetch_job_details api_key u resp) as [[d|]|e]; cbn [List.length]; lia.
Qed.

Lemma listing_loop_key (api_key job_title location : string) (limit : option Z)
    (domain : string) (script : list response) :
  forall st o reqs,
    listing_loop api_key job_title location limit domain st script = (o, reqs) ->
    Forall (fun q => req_api_key q = api_key) reqs.
Proof.
  intros st o reqs H.
  destruct (listing_loop_starts _ _ _ _ _ _ _ _ _ H) as [starts [-> _]].
  apply Forall_map. apply Forall_forall. reflexivity.
Qed.

(** The function in terms of its three stages. *)
Lemma scrape_indeed_jobs_stages (env : option string) (job_title location : string)
    (job_limit : option Z) (listing_script detail_script : list response)
    (now1 now2 : datetime) (d : disk) :
  scrape_indeed_jobs env job_title location job_limit listing_script detail_script
    now1 now2 d
  = match get_api_key env with
    | SysExit code =>
        {| ending := Exited code; listing_requests := []; detail_requests := [];
           written := None |}
    | Key api_key =>
        match fetch_job_listings api_key job_title location job_limit
                "www.indeed.com" listing_script with
        | (Raised e, lreqs) =>
            {| ending := Failed e; listing_requests := lreqs;
               detail_requests := []; written := None |}
        | (Waiting _, lreqs) =>
            {| ending := Stalled; listing_requests := lreqs;
               detail_requests := []; written := None |}
        | (Returned [], lreqs) =>
            {| ending := Finished; listing_requests := lreqs;
               detail_requests := []; written := None |}
        | (Returned job_urls, lreqs) =>
            after_listing api_key job_title location job_urls lreqs detail_script
              now1 now2 d
        end
    end.
Proof.
  unfold scrape_indeed_jobs, after_listing.
  destruct (get_api_key env) as [k|c]; [|reflexivity].
  destruct (fetch_job_listings _ _ _ _ _ _) as [[[|j urls]|e|st] lreqs]; reflexivity.
Qed.

Lemma after_listing_answered (api_key job_title location : string)
    (us : list string) (lreqs : list request) (detail_script : list response)
    (now1 now2 : datetime) (d : disk) :
  all_answered api_key us detail_script = true ->
  after_listing api_key job_title location (map JStr us) lreqs detail_script
    now1 now2 d
  = match successes api_key us detail_script with
    | [] => {| ending := Finished; listing_requests := lreqs;
               detail_requests := map (detail_request api_key) us;
               written := None |}
    | detailed =>
        match d with
        | DiskOk =>
            {| ending := Finished; listing_requests := lreqs;
               detail_requests := map (detail_request api_key) us;
               written := Some (output_filename job_title location now1,
                                envelope detailed job_title location now2) |}
        | MakedirsFails =>
            {| ending := Failed OSError; listing_requests := lreqs;
               detail_requests := map (detail_request api_key) us;
               written := None |}
        | WriteFails =>
            {| ending := Finished; listing_requests := lreqs;
               detail_requests := map (detail_request api_key) us;
               written := None |}
        end
    end.
Proof.
  intros Ha. unfold after_listing.
  rewrite (details_loop_answered api_key us detail_script [] Ha). cbn [app].
  destruct (successes api_key us detail_script) as [|x l]; [reflexivity|].
  destruct d; reflexivity.
Qed.

Lemma after_listing_written (api_key job_title location : string)
    (urls : list json) (lreqs : list request) (detail_script : list response)
    (now1 now2 : datetime) (d : disk) (name : string) (v : json) :
  written (after_listing api_key job_title location urls lreqs detail_script
             now1 now2 d) = Some (name, v) ->
  exists us, urls = map JStr us /\ all_answered api_key us detail_script = true.
Proof.
  unfold after_listing.
  destruct (details_loop api_key urls detail_script []) as [de dreqs] eqn:Hl.
  destruct de as [detailed|e|]; [|discriminate..].
  intros _. exact (details_loop_done _ _ _ _ _ _ Hl).
Qed.

End Runs.
Section RunProperties.
Context {U : Urllib}.

Lemma after_listing_fields (api_key job_title location : string)
    (urls : list json) (lreqs : list request) (detail_script : list response)
    (now1 now2 : datetime) (d : disk) :
  let r := after_listing api_key job_title location urls lreqs detail_script
             now1 now2 d in
  listing_requests r = lreqs
  /\ detail_requests r = snd (details_loop api_key urls detail_script [])
  /\ forall c, ending r <> Exited c.
Proof.
  unfold after_listing.
  destruct (details_loop api_key urls detail_script []) as [de dreqs].
  destruct de as [[|x l]|e|]; cbn; try (repeat split; discriminate).
  destruct (save_jobs_to_json _ _ _ _ _ _) as [[s f]|e]; cbn;
    repeat split; discriminate.
Qed.

Lemma get_api_key_some (k : string) : k <> EmptyString -> get_api_key (Some k) = Key k.
Proof. intros H. unfold get_api_key. apply str_truthy_true in H. now rewrite H. Qed.

(** The detail requests of a run are those of a prefix of the listing. *)
Lemma scrape_detail_prefix (env : option string) (job_title location : string)
    (job_limit : option Z) (listing_script detail_script : list response)
    (now1 now2 : datetime) (d : disk) (k : string) :
  get_api_key env = Key k ->
  exists us,
    detail_requests (scrape_indeed_jobs env job_title location job_limit
                       listing_script detail_script now1 now2 d)
    = map (detail_request k) us
    /\ (us <> [] ->
        exists rest lreqs,
          fetch_job_listings k job_title location job_limit "www.indeed.com"
            listing_script = (Returned (map JStr us ++ rest), lreqs))
    /\ (forall n, job_limit = Some n -> (1 <= n)%Z ->
                  (Z.of_nat (List.length us) <= n)%Z).
Proof.
  intros Hk. rewrite scrape_indeed_jobs_stages, Hk.
  destruct (fetch_job_listings k job_title location job_limit "www.indeed.com"
              listing_script) as [o lreqs] eqn:Hf.
  assert (Hnone : forall r : run, detail_requests r = [] ->
            exists us, detail_requests r = map (detail_request k) us
              /\ (us <> [] ->
                  exists rest lreqs', (o, lreqs)
                    = (Returned (map JStr us ++ rest), lreqs'))
              /\ (forall n, job_limit = Some n -> (1 <= n)%Z ->
                            (Z.of_nat (List.length us) <= n)%Z)).
  { intros r Hr. exists []. split; [exact Hr|]. split; [congruence|].
    intros n _ Hn. simpl. lia. }
  destruct o as [[|j urls]|e|st]; try (apply Hnone; reflexivity).
  destruct (after_listing_fields k job_title location (j :: urls) lreqs
              detail_script now1 now2 d) as [_ [Hd _]].
  rewrite Hd.
  destruct (details_loop k (j :: urls) detail_script []) as [de dreqs] eqn:Hl.
  destruct (details_loop_requests _ _ _ _ _ _ Hl) as [us [rest [Hu ->]]].
  exists us. cbn [snd]. split; [reflexivity|]. split.
  - intros _. exists rest, lreqs. now rewrite Hu.
  - intros n -> Hn. unfold fetch_job_listings in Hf.
    assert (Hb : (Z.of_nat (List.length (j :: urls)) <= n)%Z).
    { apply (listing_loop_bound k job_title location "www.indeed.com" n
               listing_script Hn initial_state (j :: urls) lreqs); [|exact Hf].
      cbn. apply Z.leb_gt. lia. }
    rewrite Hu, length_app, length_map in Hb. lia.
Qed.

(** With a key the run never ends on [sys.exit], starts with the listing
    request at offset 0, and sends the key with every request. *)
Lemma scrape_keyed (env : option string) (job_title location : string)
    (job_limit : option Z) (listing_script detail_script : list response)
    (now1 now2 : datetime) (d : disk) (k : string) :
  get_api_key env = Key k ->
  let r := scrape_indeed_jobs env job_title location job_limit listing_script
             detail_script now1 now2 d in
  (forall c, ending r <> Exited c)
  /\ (exists more,
        listing_requests r
        = request_at k job_title location "www.indeed.com" 0 :: more)
  /\ Forall (fun q => req_api_key q = k) (listing_requests r ++ detail_requests r).
Proof.
  intros Hk. cbv zeta.
  destruct (scrape_detail_prefix env job_title location job_limit
              listing_script detail_script now1 now2 d k Hk) as [us [Hd _]].
  assert (Hkeys : Forall (fun q => req_api_key q = k)
                    (map (detail_request k) us)).
  { apply Forall_map. apply Forall_forall. reflexivity. }
  rewrite Hd. clear Hd.
  rewrite scrape_indeed_jobs_stages, Hk.
  destruct (fetch_job_listings k job_title location job_limit "www.indeed.com"
              listing_script) as [o lreqs] eqn:Hf.
  unfold fetch_job_listings in Hf.
  pose proof (listing_loop_key _ _ _ _ _ _ _ _ _ Hf) as Hl.
  destruct (listing_loop_starts _ _ _ _ _ _ _ _ _ Hf) as [starts [Hs _]].
  assert (Hfirst : exists more,
             lreqs = request_at k job_title location "www.indeed.com" 0 :: more).
  { rewrite Hs. cbn [map initial_state start]. eauto. }
  assert (Hall : Forall (fun q => req_api_key q = k)
                   (lreqs ++ map (detail_request k) us)).
  { apply Forall_app. now split. }
  destruct o as [[|j urls]|e|st]; cbn [ending listing_requests];
    try (split; [discriminate|]; split; [exact Hfirst|exact Hall]).
  destruct (after_listing_fields k job_title location (j :: urls) lreqs
              detail_script now1 now2 d) as [Hlr [_ He]].
  rewrite Hlr. split; [exact He|]. split; [exact Hfirst|exact Hall].
Qed.

(** X15.  Without the API key nothing happens: when the environment
    variable is missing or empty the run ends on [sys.exit(1)] with no
    request sent and no file written.  With a key the run never ends on
    [sys.exit], its first request is the listing request at offset 0, and
    every request of the run carries that key. *)
Theorem scrape_indeed_jobs_key (env : option string) (job_title location : string)
    (job_limit : option Z) (listing_script detail_script : list response)
    (now1 now2 : datetime) (d : disk) :
  let r := scrape_indeed_jobs env job_title location job_limit listing_script
             detail_script now1 now2 d in
  (env = None \/ env = Some EmptyString -> r = exited_run)
  /\ (forall k, env = Some k -> k <> EmptyString ->
        (forall c, ending r <> Exited c)
        /\ (exists more,
              listing_requests r
              = request_at k job_title location "www.indeed.com" 0 :: more)
        /\ Forall (fun q => req_api_key q = k)
             (listing_requests r ++ detail_requests r)).
Proof.
  cbv zeta. split.
  - intros [->| ->]; reflexivity.
  - intros k -> Hne.
    exact (scrape_keyed (Some k) job_title location job_limit listing_script
             detail_script now1 now2 d k (get_api_key_some k Hne)).
Qed.

(** X16.  The detail requests of a run are requests for a prefix of the
    list the listing returned, one request per URL, in the order of the
    listing; with a limit n >= 1 the run sends at most n of them. *)
Theorem scrape_indeed_jobs_detail_requests (env : option string)
    (job_title location : string) (job_limit : option Z)
    (listing_script detail_script : list response) (now1 now2 : datetime)
    (d : disk) (k : string) :
  get_api_key env = Key k ->
  exists us,
    detail_requests (scrape_indeed_jobs env job_title location job_limit
                       listing_script detail_script now1 now2 d)
    = map (detail_request k) us
    /\ (us <> [] ->
        exists rest lreqs,
          fetch_job_listings k job_title location job_limit "www.indeed.com"
            listing_script = (Returned (map JStr us ++ rest), lreqs))
    /\ (forall n, job_limit = Some n -> (1 <= n)%Z ->
                  (Z.of_nat (List.length us) <= n)%Z).
Proof. apply scrape_detail_prefix. Qed.

(** X17.  A file is written exactly when the key is there, the listing
    returned URL strings, the detail endpoint answered every one of them
    without an exception, at least one answer gave a JobDetail and the disk
    took the file.  The file then has the name built from the title, the
    location and the clock, and holds the envelope of exactly the
    JobDetails obtained, in the order of the listing. *)
Theorem scrape_indeed_jobs_file (env : option string) (job_title location : string)
    (job_limit : option Z) (listing_script detail_script : list response)
    (now1 now2 : datetime) (d : disk) (name : string) (v : json) :
  written (scrape_indeed_jobs env job_title location job_limit listing_script
             detail_script now1 now2 d) = Some (name, v)
  <-> exists k us lreqs,
        get_api_key env = Key k
        /\ fetch_job_listings k job_title location job_limit "www.indeed.com"
             listing_script = (Returned (map JStr us), lreqs)
        /\ all_answered k us detail_script = true
        /\ successes k us detail_script <> []
        /\ d = DiskOk
        /\ name = output_filename job_title location now1
        /\ v = envelope (successes k us detail_script) job_title location now2.
Proof.
  rewrite scrape_indeed_jobs_stages. split.
  - destruct (get_api_key env) as [k|c] eqn:Hk; [|discriminate].
    destruct (fetch_job_listings k job_title location job_limit "www.indeed.com"
                listing_script) as [[[|j urls]|e|st] lreqs] eqn:Hf;
      try discriminate.
    intros H. destruct (after_listing_written _ _ _ _ _ _ _ _ _ _ _ H)
      as [us [Hu Ha]].
    rewrite Hu, (after_listing_answered _ _ _ _ _ _ _ _ _ Ha) in H.
    exists k, us, lreqs. rewrite Hu in Hf.
    destruct (successes k us detail_script) as [|x l]; [discriminate|].
    destruct d; try discriminate. cbn [written] in H. inversion H.
    repeat split; try reflexivity; try assumption. discriminate.
  - intros [k [us [lreqs [-> [-> [Ha [Hs [-> [-> ->]]]]]]]]].
    destruct us as [|u us]; [now elim Hs|].
    change (map JStr (u :: us)) with (JStr u :: map JStr us).
    cbv iota. change (JStr u :: map JStr us) with (map JStr (u :: us)).
    rewrite (after_listing_answered _ _ _ _ _ _ _ _ _ Ha).
    destruct (successes k (u :: us) detail_script) as [|x l]; [now elim Hs|].
    reflexivity.
Qed.

(** X18.  An exception in the answer to one URL ends the whole run: the
    requests stop at that URL, the exception leaves the function and no
    file is written, whatever the earlier answers had given. *)
Theorem scrape_indeed_jobs_abort (env : option string) (job_title location : string)
    (job_limit : option Z) (listing_script : list response)
    (now1 now2 : datetime) (d : disk) (k : string) (lreqs : list request)
    (pre_us : list string) (u : string) (post : list string)
    (pre : list response) (bad : response) (rest : list response) (e : exn) :
  get_api_key env = Key k ->
  fetch_job_listings k job_title location job_limit "www.indeed.com" listing_script
  = (Returned (map JStr (pre_us ++ u :: post)), lreqs) ->
  all_answered k pre_us pre = true ->
  List.length pre = List.length pre_us ->
  fetch_job_details k u bad = Raise e ->
  scrape_indeed_jobs env job_title location job_limit listing_script
    (pre ++ bad :: rest) now1 now2 d
  = {| ending := Failed e; listing_requests := lreqs;
       detail_requests := map (detail_request k) (pre_us ++ [u]);
       written := None |}.
Proof.
  intros Hk Hf Ha Hlen Hbad. rewrite scrape_indeed_jobs_stages, Hk, Hf.
  assert (Hrun : after_listing k job_title location
                   (map JStr (pre_us ++ u :: post)) lreqs (pre ++ bad :: rest)
                   now1 now2 d
                 = {| ending := Failed e; listing_requests := lreqs;
                      detail_requests := map (detail_request k) (pre_us ++ [u]);
                      written := None |}).
  { unfold after_listing.
    now rewrite (details_loop_raises k pre_us pre [] u post bad rest e Ha Hlen Hbad). }
  destruct (map JStr (pre_us ++ u :: post)) as [|j urls] eqn:Hm; [|exact Hrun].
  destruct pre_us; discriminate.
Qed.

Lemma failed_answers (k : string) (us : list string) :
  forall script,
    List.length us <= List.length script ->
    Forall (fun resp => failed_response resp = true) (firstn (List.length us) script) ->
    all_answered k us script = true /\ successes k us script = [].
Proof.
  induction us as [|u us IH]; intros script Hlen Hall; [now split|].
  destruct script as [|resp rest]; [simpl in Hlen; lia|].
  cbn [List.length firstn] in Hall, Hlen. inversion Hall as [|x l Hx Hl]; subst.
  assert (Hn : fetch_job_details k u resp = Ok None).
  { destruct resp as [| |status_code body]; try reflexivity.
    unfold failed_response in Hx. unfold fetch_job_details. now rewrite Hx. }
  cbn [all_answered successes]. rewrite Hn. apply IH; [lia|exact Hl].
Qed.

(** X19.  When every detail request fails (a transport error or a status
    other than 200) the run still sends one request per URL, writes no
    file and ends normally: the process exits with status 0. *)
Theorem scrape_indeed_jobs_all_failed (env : option string)
    (job_title location : string) (job_limit : option Z)
    (listing_script detail_script : list response) (now1 now2 : datetime)
    (d : disk) (k : string) (us : list string) (lreqs : list request) :
  get_api_key env = Key k ->
  fetch_job_listings k job_title location job_limit "www.indeed.com" listing_script
  = (Returned (map JStr us), lreqs) ->
  List.length us <= List.length detail_script ->
  Forall (fun resp => failed_response resp = true)
    (firstn (List.length us) detail_script) ->
  scrape_indeed_jobs env job_title location job_limit listing_script detail_script
    now1 now2 d
  = {| ending := Finished; listing_requests := lreqs;
       detail_requests := map (detail_request k) us; written := None |}
  /\ exit_status (ending (scrape_indeed_jobs env job_title location job_limit
                            listing_script detail_script now1 now2 d)) = Some 0%Z.
Proof.
  intros Hk Hf Hlen Hall.
  destruct (failed_answers k us detail_script Hlen Hall) as [Ha Hs].
  assert (Hrun : scrape_indeed_jobs env job_title location job_limit listing_script
                   detail_script now1 now2 d
                 = {| ending := Finished; listing_requests := lreqs;
                      detail_requests := map (detail_request k) us;
                      written := None |}).
  { rewrite scrape_indeed_jobs_stages, Hk, Hf.
    destruct us as [|u us]; [reflexivity|].
    change (map JStr (u :: us)) with (JStr u :: map JStr us). cbv iota.
    change (JStr u :: map JStr us) with (map JStr (u :: us)).
    now rewrite (after_listing_answered _ _ _ _ _ _ _ _ _ Ha), Hs. }
  split; [exact Hrun|]. now rewrite Hrun.
Qed.

End RunProperties.

(** Witness of X15: no key, no request. *)
Lemma scrape_indeed_jobs_key_witness :
  @scrape_indeed_jobs plain_urllib None "dev" "Dhaka" None two_jobs_script
    [detail_page "T"] sample_time sample_time DiskOk
  = exited_run.
Proof.
  exact (proj1 (@scrape_indeed_jobs_key plain_urllib None "dev" "Dhaka" None
                  two_jobs_script [detail_page "T"] sample_time sample_time DiskOk)
           (or_introl eq_refl)).
Defined.

(** Witness of X16: two URLs listed, the limit 2, one answer. *)
Lemma scrape_indeed_jobs_detail_requests_witness :
  exists us,
    detail_requests (@scrape_indeed_jobs plain_urllib (Some "key") "dev" "Dhaka"
                       (Some 2%Z) two_jobs_script [detail_page "T"]
                       sample_time sample_time DiskOk)
    = map (@detail_request plain_urllib "key") us
    /\ (us <> [] ->
        exists rest lreqs,
          fetch_job_listings "key" "dev" "Dhaka" (Some 2%Z) "www.indeed.com"
            two_jobs_script = (Returned (map JStr us ++ rest), lreqs))
    /\ (forall n, Some 2%Z = Some n -> (1 <= n)%Z ->
                  (Z.of_nat (List.length us) <= n)%Z).
Proof.
  exact (@scrape_indeed_jobs_detail_requests plain_urllib (Some "key") "dev" "Dhaka"
           (Some 2%Z) two_jobs_script [detail_page "T"] sample_time sample_time
           DiskOk "key" eq_refl).
Defined.

(** Witness of X17: one answer out of two gives a JobDetail. *)
Lemma scrape_indeed_jobs_file_witness :
  written (@scrape_indeed_jobs plain_urllib (Some "key") "dev" "Dhaka" None
             two_jobs_script [detail_page "T"; Timeout] sample_time sample_time
             DiskOk)
  = Some (output_filename "dev" "Dhaka" sample_time,
          envelope (@successes plain_urllib "key" ["u1"; "u2"]
                      [detail_page "T"; Timeout]) "dev" "Dhaka" sample_time).
Proof.
  apply (proj2 (@scrape_indeed_jobs_file plain_urllib (Some "key") "dev" "Dhaka" None
                  two_jobs_script [detail_page "T"; Timeout] sample_time
                  sample_time DiskOk _ _)).
  exists "key", ["u1"; "u2"]. eexists.
  split; [reflexivity|]. split; [vm_compute; reflexivity|].
  split; [vm_compute; reflexivity|]. split; [vm_compute; discriminate|].
  repeat split.
Defined.

(** Witness of X18: the first answer gives a JobDetail, the second is not
    JSON; nothing is written. *)
Lemma scrape_indeed_jobs_abort_witness :
  @scrape_indeed_jobs plain_urllib (Some "key") "dev" "Dhaka" None two_jobs_script
    ([detail_page "T"] ++ Reply 200 None :: []) sample_time sample_time DiskOk
  = {| ending := Failed JSONDecodeError;
       listing_requests :=
         snd (fetch_job_listings "key" "dev" "Dhaka" None "www.indeed.com"
                two_jobs_script);
       detail_requests := map (@detail_request plain_urllib "key") (["u1"] ++ ["u2"]);
       written := None |}.
Proof.
  refine (@scrape_indeed_jobs_abort plain_urllib (Some "key") "dev" "Dhaka" None
            two_jobs_script sample_time sample_time DiskOk "key" _
            ["u1"] "u2" [] [detail_page "T"] (Reply 200 None) []
            JSONDecodeError eq_refl _ _ _ _);
    vm_compute; reflexivity.
Defined.

(** Witness of X19: a timeout and a status 500. *)
Lemma scrape_indeed_jobs_all_failed_witness :
  exit_status (ending (@scrape_indeed_jobs plain_urllib (Some "key") "dev" "Dhaka"
                         None two_jobs_script [Timeout; Reply 500 None]
                         sample_time sample_time DiskOk)) = Some 0%Z.
Proof.
  refine (proj2 (@scrape_indeed_jobs_all_failed plain_urllib (Some "key") "dev"
                   "Dhaka" None two_jobs_script [Timeout; Reply 500 None]
                   sample_time sample_time DiskOk "key" ["u1"; "u2"] _ _ _ _ _)).
  - reflexivity.
  - vm_compute; reflexivity.
  - simpl. lia.
  - repeat constructor.
Defined.
(** ** The entry point *)

Section EntryPoint.
Context {U : Urllib}.

End EntryPoint.

(** ** The name of the output file *)

Lemma char_in_map_avoid (c : ascii) (f : ascii -> ascii) (s : string) :
  (forall a, Ascii.eqb (f a) c = false) -> char_in c (str_map f s) = false.
Proof.
  intros H. induction s as [|a t IH]; simpl; [reflexivity|]. now rewrite H, IH.
Qed.

Lemma underscore_avoids (c a : ascii) :
  Ascii.eqb c " " || Ascii.eqb c "/" = true ->
  Ascii.eqb (underscore_space_slash a) c = false.
Proof.
  intros Hc. unfold underscore_space_slash.
  apply orb_prop in Hc.
  destruct (Ascii.eqb a " " || Ascii.eqb a "/") eqn:Ha.
  - destruct Hc as [Hc|Hc]; apply Ascii.eqb_eq in Hc; subst c; reflexivity.
  - apply orb_false_elim in Ha. destruct Ha as [Hs Hl].
    destruct Hc as [Hc|Hc]; apply Ascii.eqb_eq in Hc; subst c; assumption.
Qed.

Lemma digit_avoids (c : ascii) (n : nat) :
  is_digit c = false -> Ascii.eqb (digit n) c = false.
Proof.
  intros Hc. apply Ascii.eqb_neq. intros <-. now rewrite digit_is_digit in Hc.
Qed.

Lemma strftime_compact_avoids (c : ascii) (now : datetime) :
  is_digit c = false -> Ascii.eqb "_" c = false ->
  char_in c (strftime_compact now) = false.
Proof.
  intros Hd Hu. unfold strftime_compact, digits4, digits2.
  cbn [append char_in]. rewrite !(digit_avoids c) by exact Hd. now rewrite Hu.
Qed.

(** X21.  The output file lies directly in [data/]: whatever the job
    title and the location contain, the name after [data/] has no slash and
    no space, so a title such as [../x] or [a/b] cannot move the file to
    another directory. *)
Theorem output_filename_flat (job_title location : string) (now : datetime) :
  exists base,
    output_filename job_title location now = ("data/" ++ base)%string
    /\ char_in "/" base = false /\ char_in " " base = false.
Proof.
  exists ("indeed_jobs_" ++ job_title_clean job_title ++ "_"
          ++ location_clean location ++ "_" ++ strftime_compact now ++ ".json")%string.
  split; [reflexivity|].
  rewrite job_title_clean_map, location_clean_map.
  split; rewrite !char_in_app;
    rewrite !char_in_map_avoid by (intros a; now apply underscore_avoids);
    now rewrite strftime_compact_avoids.
Qed.

Lemma str_app_inv_head (a x y : string) : (a ++ x = a ++ y)%string -> x = y.
Proof.
  induction a as [|c r IH]; simpl; [trivial|]. intros H. inversion H. now apply IH.
Qed.

Lemma digit_inj (x y : nat) : digit x = digit y -> x mod 10 = y mod 10.
Proof.
  unfold digit. intros H. apply (f_equal nat_of_ascii) in H.
  pose proof (Nat.mod_upper_bound x 10 ltac:(lia)).
  pose proof (Nat.mod_upper_bound y 10 ltac:(lia)).
  rewrite !nat_ascii_embedding in H by lia. lia.
Qed.

Lemma digits2_inj (n m : nat) :
  n < 100 -> m < 100 -> digit (n / 10) = digit (m / 10) -> digit n = digit m -> n = m.
Proof.
  intros Hn Hm H1 H0. apply digit_inj in H1, H0.
  pose proof (Nat.div_mod_eq n 10). pose proof (Nat.div_mod_eq m 10).
  assert (n / 10 < 10) by (apply Nat.Div0.div_lt_upper_bound; lia).
  assert (m / 10 < 10) by (apply Nat.Div0.div_lt_upper_bound; lia).
  rewrite (Nat.mod_small (n / 10)) in H1 by lia.
  rewrite (Nat.mod_small (m / 10)) in H1 by lia. lia.
Qed.

Lemma digits4_inj (n m : nat) :
  n < 100 * 100 -> m < 100 * 100 ->
  digit (n / 1000) = digit (m / 1000) -> digit (n / 100) = digit (m / 100) ->
  digit (n / 10) = digit (m / 10) -> digit n = digit m -> n = m.
Proof.
  intros Hn Hm H3 H2 H1 H0. apply digit_inj in H3, H2, H1, H0.
  assert (E : forall k, k < 100 * 100 ->
            k = 1000 * ((k / 1000) mod 10) + 100 * ((k / 100) mod 10)
                + 10 * ((k / 10) mod 10) + k mod 10).
  { intros k Hk.
    pose proof (Nat.div_mod_eq k 10) as A.
    pose proof (Nat.div_mod_eq (k / 10) 10) as B.
    pose proof (Nat.div_mod_eq (k / 100) 10) as C.
    assert (D1 : k / 10 / 10 = k / 100) by now rewrite Nat.Div0.div_div.
    assert (D2 : k / 100 / 10 = k / 1000) by now rewrite Nat.Div0.div_div.
    rewrite D1 in B. rewrite D2 in C.
    assert (k / 1000 < 10) by (apply Nat.Div0.div_lt_upper_bound; lia).
    rewrite (Nat.mod_small (k / 1000)) by lia. lia. }
  rewrite (E n Hn), (E m Hm). lia.
Qed.

(** X22.  Two runs of the same search get the same file name exactly when
    their clocks show the same second: the stamp determines year, month,
    day, hour, minute and second, so runs at different seconds never
    overwrite each other, and two runs within one second do. *)
Theorem output_filename_clock (job_title location : string) (a b : datetime) :
  valid_datetime a -> valid_datetime b ->
  (output_filename job_title location a = output_filename job_title location b
   <-> same_second a b).
Proof.
  intros [Hy [Hm [Hd [Hh [Hn Hs]]]]] [Hy' [Hm' [Hd' [Hh' [Hn' Hs']]]]]. split.
  - unfold output_filename. intros H.
    apply (str_app_inv_head "data/indeed_jobs_") in H.
    apply str_app_inv_head in H. apply (str_app_inv_head "_") in H.
    apply str_app_inv_head in H. apply (str_app_inv_head "_") in H.
    unfold strftime_compact, digits4, digits2 in H. cbn [append] in H.
    injection H as Y3 Y2 Y1 Y0 M1 M0 D1 D0 H1 H0 N1 N0 S1 S0.
    unfold same_second.
    rewrite (digits4_inj (year a) (year b)) by (lia || assumption).
    rewrite (digits2_inj (month a) (month b)) by (lia || assumption).
    rewrite (digits2_inj (day a) (day b)) by (lia || assumption).
    rewrite (digits2_inj (hour a) (hour b)) by (lia || assumption).
    rewrite (digits2_inj (minute a) (minute b)) by (lia || assumption).
    rewrite (digits2_inj (second a) (second b)) by (lia || assumption).
    repeat split.
  - intros [E1 [E2 [E3 [E4 [E5 E6]]]]].
    unfold output_filename, strftime_compact. now rewrite E1, E2, E3, E4, E5, E6.
Qed.

(** Witness of X22: two readings within one second, one name. *)
Lemma output_filename_clock_witness :
  output_filename "dev" "Dhaka" sample_time
  = output_filename "dev" "Dhaka"
      {| year := 2024; month := 1; day := 2; hour := 3; minute := 4; second := 5;
         microsecond := 7 |}.
Proof.
  refine (proj2 (output_filename_clock "dev" "Dhaka" sample_time
                   {| year := 2024; month := 1; day := 2; hour := 3; minute := 4;
                      second := 5; microsecond := 7 |} _ _) _);
    unfold valid_datetime, same_second; simpl; repeat split; lia.
Defined.
(** ** What a written file holds *)

Section WrittenFile.
Context {U : Urllib}.

Lemma fetch_job_details_sources (api_key job_url : string) (resp : response)
    (detail : json) :
  fetch_job_details api_key job_url resp = Ok (Some detail) ->
  json_field "source_url" detail = Some (JStr job_url)
  /\ json_field "url" detail = Some (JStr (normalize_job_url job_url)).
Proof.
  destruct resp as [| |status_code [v|]]; try discriminate.
  - destruct (Z.eqb_spec status_code 200) as [->|Hne].
    + destruct (fetch_job_details_reply api_key job_url v)
        as [[e ->]|[t [c [l [d ->]]]]]; [discriminate|].
      intros H. inversion H. split; reflexivity.
    + unfold fetch_job_details. apply Z.eqb_neq in Hne. rewrite Hne. discriminate.
  - unfold fetch_job_details. destruct (negb (status_code =? 200)%Z); discriminate.
Qed.

Lemma successes_sources (api_key : string) (us : list string) :
  forall script,
    Forall (fun j => exists u, In u us
                     /\ json_field "source_url" j = Some (JStr u)
                     /\ json_field "url" j = Some (JStr (normalize_job_url u)))
      (successes api_key us script).
Proof.
  induction us as [|u us IH]; intros [|resp rest]; cbn [successes];
    try constructor.
  - assert (Hrest : Forall (fun j => exists u0, In u0 (u :: us)
                     /\ json_field "source_url" j = Some (JStr u0)
                     /\ json_field "url" j = Some (JStr (normalize_job_url u0)))
                      (successes api_key us rest)).
    { eapply Forall_impl; [|apply IH]. intros j [u0 [Hin H]].
      exists u0. split; [now right|exact H]. }
    destruct (fetch_job_details api_key u resp) as [[d|]|e] eqn:Hf;
      try exact Hrest.
    constructor; [|exact Hrest].
    exists u. split; [now left|]. exact (fetch_job_details_sources _ _ _ _ Hf).
Qed.

(** X23.  A file the run writes is consistent and bounded: [total_jobs]
    is the number of records under [data.job]; it is at least 1, at most
    the number of detail requests the run has sent and at most the limit;
    and every record comes from a listed URL: its [source_url] is a URL
    the run has requested and its [url] is that URL normalized. *)
Theorem scrape_indeed_jobs_total_jobs (env : option string)
    (job_title location : string) (job_limit : option Z)
    (listing_script detail_script : list response) (now1 now2 : datetime)
    (d : disk) (k name : string) (v : json) :
  let r := scrape_indeed_jobs env job_title location job_limit listing_script
             detail_script now1 now2 d in
  get_api_key env = Key k ->
  written r = Some (name, v) ->
  exists jobs,
    json_path ["data"; "job"] v = Some (JArr jobs)
    /\ json_path ["metadata"; "total_jobs"] v
       = Some (JNum (Z.of_nat (List.length jobs)))
    /\ 1 <= List.length jobs <= List.length (detail_requests r)
    /\ (forall n, job_limit = Some n -> (1 <= n)%Z ->
                  (Z.of_nat (List.length jobs) <= n)%Z)
    /\ Forall (fun j => exists u,
                 In (detail_request k u) (detail_requests r)
                 /\ json_field "source_url" j = Some (JStr u)
                 /\ json_field "url" j = Some (JStr (normalize_job_url u)))
         jobs.
Proof.
  cbv zeta. intros Hk Hw.
  destruct (scrape_detail_prefix env job_title location job_limit listing_script
              detail_script now1 now2 d k Hk) as [us' [Hd [_ Hb]]].
  rewrite Hd. rewrite scrape_indeed_jobs_stages, Hk in Hw, Hd.
  destruct (fetch_job_listings k job_title location job_limit "www.indeed.com"
              listing_script) as [[[|j urls]|e|st] lreqs]; try discriminate.
  destruct (after_listing_written _ _ _ _ _ _ _ _ _ _ _ Hw) as [us [Hu Ha]].
  rewrite Hu, (after_listing_answered _ _ _ _ _ _ _ _ _ Ha) in Hw, Hd.
  pose proof (successes_length k us detail_script) as Hlen.
  pose proof (successes_sources k us detail_script) as Hsrc.
  destruct (successes k us detail_script) as [|x l] eqn:Hs; [discriminate|].
  assert (Hreq : map (detail_request k) us = map (detail_request k) us').
  { destruct d; exact Hd. }
  assert (Hn : List.length us' = List.length us).
  { apply (f_equal (@List.length request)) in Hreq.
    now rewrite !length_map in Hreq. }
  destruct d; try discriminate. cbn [written] in Hw. inversion Hw; subst name v.
  exists (x :: l). split; [reflexivity|]. split; [reflexivity|].
  rewrite length_map, Hn. split; [cbn [List.length] in *; lia|]. split.
  - intros n Hl H1. specialize (Hb n Hl H1). cbn [List.length] in *. lia.
  - eapply Forall_impl; [|exact Hsrc]. intros j0 [u [Hin H]].
    exists u. split; [|exact H]. rewrite <- Hreq. now apply in_map.
Qed.
End WrittenFile.

(** Witness of X23. *)
Lemma scrape_indeed_jobs_total_jobs_witness :
  exists jobs,
    json_path ["data"; "job"]
      (envelope (@successes plain_urllib "key" ["u1"; "u2"]
                   [detail_page "T"; Timeout]) "dev" "Dhaka" sample_time)
    = Some (JArr jobs)
    /\ 1 <= List.length jobs.
Proof.
  destruct (@scrape_indeed_jobs_total_jobs plain_urllib (Some "key") "dev" "Dhaka"
              None two_jobs_script [detail_page "T"; Timeout] sample_time
              sample_time DiskOk "key"
              (output_filename "dev" "Dhaka" sample_time)
              (envelope (@successes plain_urllib "key" ["u1"; "u2"]
                           [detail_page "T"; Timeout]) "dev" "Dhaka" sample_time)
              eq_refl ltac:(vm_compute; reflexivity))
    as [jobs [Hj [_ [[Hl _] _]]]].
  exists jobs. split; [exact Hj|exact Hl].
Defined.
